(** * Wishaday: the wish lifecycle, its view accounting and its cleanup sweep

    A shallow embedding of [app/models.py], [app/routes/wishes.py] and
    [app/services/cleanup.py].  The module [app/services/expiry.py], which
    the routes import, is not among the sources: [check_expiry] and
    [should_soft_delete] are modelled from the specification (module
    [expiry] below).

    - A [datetime] is an integer number of microseconds since the epoch and a
      [timedelta] a number of microseconds.
    - The handlers run in a small reader/state/exception monad [M]: the
      environment holds the settings, the wall clock and the fault oracles of
      the collaborators (database, file system); the world holds the committed
      table of wishes, the upload directories on disk, the number of clock
      readings and of statements sent to the database so far, and the log. *)

From stdpp Require Import base tactics option list strings pretty gmap.
From Stdlib Require Import ZArith Lia.

Local Open Scope Z_scope.

(** ** Exceptions, results and the handler monad *)

Inductive Exn : Type :=
  | HTTPException (status_code : Z) (detail : string)
  | OperationalError   (* the database refused or lost the statement *)
  | OSError            (* the file system refused the operation *)
  | RuntimeError.      (* any other failure of a collaborator *)

Global Instance Exn_eq_dec : EqDecision Exn.
Proof. solve_decision. Defined.

Inductive Result (A : Type) : Type :=
  | Return (a : A)
  | Raise (e : Exn).
Arguments Return {A} a.
Arguments Raise {A} e.

(** ** app/models.py: the tables *)

Module models.

Record WishImage : Type := mkWishImage {
  image_id : Z;
  wish_id : Z;
  path : string
}.

Global Instance WishImage_eq_dec : EqDecision WishImage.
Proof. solve_decision. Defined.

(** A row of [wishes] with its [images] relationship loaded (the
    relationship is [lazy="selectin"] and cascades on delete). *)
Record Wish : Type := mkWish {
  id : Z;
  slug : string;
  title : option string;
  message : string;
  theme : string;
  expires_at : option Z;
  max_views : option Z;
  current_views : Z;
  is_deleted : bool;
  created_at : Z;
  deleted_at : option Z;
  ip_hash : string;
  images : list WishImage
}.

Global Instance Wish_eq_dec : EqDecision Wish.
Proof. solve_decision. Defined.

(** [wish.current_views = v] *)
Definition set_current_views (v : Z) (w : Wish) : Wish :=
  mkWish (id w) (slug w) (title w) (message w) (theme w) (expires_at w)
         (max_views w) v (is_deleted w) (created_at w) (deleted_at w)
         (ip_hash w) (images w).

(** [wish.is_deleted = True; wish.deleted_at = t] *)
Definition set_deleted (t : Z) (w : Wish) : Wish :=
  mkWish (id w) (slug w) (title w) (message w) (theme w) (expires_at w)
         (max_views w) (current_views w) true (created_at w) (Some t)
         (ip_hash w) (images w).

End models.
Import models.

(** ** The environment and the world of a handler *)

Inductive Level : Type := DEBUG | INFO | WARNING | ERROR.

Global Instance Level_eq_dec : EqDecision Level.
Proof. solve_decision. Defined.

(** What a handler cannot decide by itself: the settings of [app.config],
    the wall clock, and whether a collaborator fails. *)
Record Env : Type := mkEnv {
  utcnow_at : nat -> Z;        (* the k-th reading of [datetime.utcnow()] *)
  store_fails : nat -> bool;   (* the k-th statement sent to the database raises *)
  path_fails : Z -> bool;      (* locating the upload directory of this wish id raises *)
  rmtree_fails : Z -> bool;    (* [shutil.rmtree] on the directory of this wish id raises *)
  delete_fails : Z -> bool;    (* [db.delete] of the wish with this id raises *)
  SOFT_DELETE_GRACE_PERIOD_MINUTES : Z;
  CLEANUP_INTERVAL_MINUTES : Z;
  BASE_URL : string
}.

Record World : Type := mkWorld {
  rows : list Wish;            (* the committed [wishes] table, in table order *)
  dirs : gset Z;               (* ids of the wishes whose upload directory exists *)
  tick : nat;                  (* clock readings taken so far *)
  stmts : nat;                 (* statements sent to the database so far *)
  logs : list (Level * string)
}.

(** Computations over a state [S] that read the environment and either
    return or raise; the state survives a raise, as Python's does. *)
Definition ST (S A : Type) : Type := Env -> S -> Result A * S.

Global Instance ST_ret {S} : MRet (ST S) :=
  fun A (a : A) _ s => (Return a, s).

Global Instance ST_bind {S} : MBind (ST S) :=
  fun A B (f : A -> ST S B) (m : ST S A) env s =>
    match m env s with
    | (Return a, s') => f a env s'
    | (Raise e, s') => (Raise e, s')
    end.

(** A handler. *)
Abbreviation M := (ST World).

Definition raise {S A} (e : Exn) : ST S A :=
  fun _ s => (Raise e, s).

(** [try: body except Exception as e: handler(e)] *)
Definition try_except {S A} (body : ST S A) (handler : Exn -> ST S A) : ST S A :=
  fun env s =>
    match body env s with
    | (Return a, s') => (Return a, s')
    | (Raise e, s') => handler e env s'
    end.

(** [for x in l: body(x)] *)
Fixpoint for_each {S A} (l : list A) (body : A -> ST S unit) : ST S unit :=
  match l with
  | [] => mret tt
  | x :: l' => body x ;; for_each l' body
  end.

(** A handler step run inside a frame of local variables [L]. *)
Definition lift {L A} (m : M A) : ST (World * L) A :=
  fun env '(w, l) => let '(r, w') := m env w in (r, (w', l)).

Definition get_local {L} : ST (World * L) L :=
  fun _ '(w, l) => (Return l, (w, l)).

Definition modify_local {L} (f : L -> L) : ST (World * L) unit :=
  fun _ '(w, l) => (Return tt, (w, f l)).

(** Runs [m] with the local variables [l0] and returns their final values. *)
Definition with_locals {L A} (l0 : L) (m : ST (World * L) A) : M (A * L) :=
  fun env w =>
    match m env (w, l0) with
    | (Return a, (w', l)) => (Return (a, l), w')
    | (Raise e, (w', _)) => (Raise e, w')
    end.

Definition config {A} (f : Env -> A) : M A :=
  fun env w => (Return (f env), w).

(** [datetime.utcnow()] *)
Definition utcnow : M Z :=
  fun env w =>
    (Return (utcnow_at env (tick w)),
     mkWorld (rows w) (dirs w) (S (tick w)) (stmts w) (logs w)).

(** [timedelta(minutes=m)] *)
Definition timedelta_minutes (m : Z) : Z := m * 60000000.

(** [logger.<level>(msg)] *)
Definition log (lvl : Level) (msg : string) : M unit :=
  fun _ w =>
    (Return tt, mkWorld (rows w) (dirs w) (tick w) (stmts w) (logs w ++ [(lvl, msg)])).

(** [str(e)] *)
Definition Exn_str (e : Exn) : string :=
  match e with
  | HTTPException c d => pretty c +:+ ": " +:+ d
  | OperationalError => "OperationalError"
  | OSError => "OSError"
  | RuntimeError => "RuntimeError"
  end.

(** ** The database session *)

Module Session.

(** A statement reaches the database, or raises; either way it was sent. *)
Definition execute {A} (q : list Wish -> A) : M A :=
  fun env w =>
    let w' := mkWorld (rows w) (dirs w) (tick w) (S (stmts w)) (logs w) in
    if store_fails env (stmts w) then (Raise OperationalError, w')
    else (Return (q (rows w)), w').

(** [db.query(Wish).filter(P).first()] *)
Definition query_first (P : Wish -> Prop) `{!forall r, Decision (P r)} :
  M (option Wish) :=
  execute (fun tbl => head (base.filter P tbl)).

(** [db.execute(select(Wish).where(P)).scalars().all()] *)
Definition select_all (P : Wish -> Prop) `{!forall r, Decision (P r)} :
  M (list Wish) :=
  execute (fun tbl => base.filter P tbl).

(** [db.query(Wish).count()] *)
Definition count_wishes : M Z :=
  execute (fun tbl => Z.of_nat (length tbl)).

(** [db.query(WishImage).count()] *)
Definition count_images : M Z :=
  execute (fun tbl => Z.of_nat (length (tbl ≫= images))).

(** The row with the primary key of [o] takes the attributes of [o]. *)
Definition update_row (o : Wish) (tbl : list Wish) : list Wish :=
  (fun r => if decide (id r = id o) then o else r) <$> tbl.

(** The rows with the primary keys of [gone] leave the table, and their
    images with them. *)
Definition delete_rows (gone : list Wish) (tbl : list Wish) : list Wish :=
  base.filter (fun r => id r ∉ (id <$> gone)) tbl.

(** [db.commit()] with the objects changed ([dirty]) and marked for
    deletion ([gone]) in this session: all of it is written, or nothing. *)
Definition commit (dirty gone : list Wish) : M unit :=
  fun env w =>
    if store_fails env (stmts w)
    then (Raise OperationalError,
          mkWorld (rows w) (dirs w) (tick w) (S (stmts w)) (logs w))
    else (Return tt,
          mkWorld (delete_rows gone (foldr update_row (rows w) dirty))
                  (dirs w) (tick w) (S (stmts w)) (logs w)).

End Session.

(** ** The file system under [settings.upload_path] *)

Module fs.

(** [settings.get_wish_upload_path(wish_id)]; the directory of a wish is
    named by the wish id. *)
Definition get_wish_upload_path (wish_id : Z) : M Z :=
  fun env w =>
    if path_fails env wish_id then (Raise RuntimeError, w)
    else (Return wish_id, w).

(** [path.exists()] *)
Definition path_exists (p : Z) : M bool :=
  fun _ w => (Return (bool_decide (p ∈ dirs w)), w).

(** [shutil.rmtree(path)] *)
Definition rmtree (p : Z) : M unit :=
  fun env w =>
    if rmtree_fails env p then (Raise OSError, w)
    else (Return tt,
          mkWorld (rows w) (dirs w ∖ {[p]}) (tick w) (stmts w) (logs w)).

End fs.

(** ** app/models.py: the properties and methods of [Wish] *)

Module Wish.

(** [Wish.is_expired_by_time]: reads the clock when [expires_at] is set. *)
Definition is_expired_by_time (self : models.Wish) : M bool :=
  match expires_at self with
  | None => mret false
  | Some e => now ← utcnow; mret (bool_decide (e < now))
  end.

(** [Wish.is_expired_by_views] *)
Definition is_expired_by_views (self : models.Wish) : bool :=
  match max_views self with
  | None => false
  | Some m => bool_decide (m <= current_views self)
  end.

(** [Wish.remaining_views] *)
Definition remaining_views (self : models.Wish) : option Z :=
  match max_views self with
  | None => None
  | Some m => Some (Z.max 0 (m - current_views self))
  end.

(** [Wish.is_expired]: [or] evaluates its right operand only when the left
    one is false. *)
Definition is_expired (self : models.Wish) : M bool :=
  t ← is_expired_by_time self;
  if t : bool then mret true else mret (is_expired_by_views self).

(** [Wish.soft_delete] *)
Definition soft_delete (self : models.Wish) : M models.Wish :=
  now ← utcnow; mret (set_deleted now self).

(** [WishImage.url] *)
Definition url (img : WishImage) : M string :=
  base ← config BASE_URL; mret (base +:+ "/media/" +:+ path img).

End Wish.

(** ** app/services/expiry.py *)

Module expiry.

(** Modelled from the spec: [app/services/expiry.py] is not among the
    sources; the two reasons an expiry result can bear (spec 4.1: "the
    reason: time or views"). *)
Inductive ExpiryType : Type := TIME | VIEWS.

(** Modelled from the spec: the [value] of an [ExpiryType] member, after the
    names the spec gives the two reasons. *)
Definition value (t : ExpiryType) : string :=
  match t with TIME => "time" | VIEWS => "views" end.

(** Modelled from the spec: the result of the expiry evaluator (spec 4.1),
    "(a) whether the wish is expired, and (b) if expired, the reason". *)
Record ExpiryResult : Type := mkExpiryResult {
  is_expired : bool;
  expiry_type : option ExpiryType
}.

(** Modelled from the spec: the rules of spec 4.1 at the current time
    [now]; when both criteria hold the reason reported is [TIME]. *)
Definition evaluate (now : Z) (wish : Wish) : ExpiryResult :=
  if match expires_at wish with
     | Some e => bool_decide (e < now)
     | None => false
     end
  then mkExpiryResult true (Some TIME)
  else if match max_views wish with
          | Some m => bool_decide (m <= current_views wish)
          | None => false
          end
  then mkExpiryResult true (Some VIEWS)
  else mkExpiryResult false None.

(** Modelled from the spec: [check_expiry(wish)] of the absent
    [app/services/expiry.py]: the evaluator of spec 4.1 at one reading of
    the wall clock, without any other effect. *)
Definition check_expiry (wish : Wish) : M ExpiryResult :=
  now ← utcnow; mret (evaluate now wish).

(** Modelled from the spec: [should_soft_delete(wish)] of the absent
    [app/services/expiry.py], step 4 of spec 4.2: "max_views is set AND
    current_views >= max_views". *)
Definition should_soft_delete (wish : Wish) : bool :=
  match max_views wish with
  | Some m => bool_decide (m <= current_views wish)
  | None => false
  end.

(** [expiry_result.expiry_type.value]: the attribute access raises when
    [expiry_type] is [None]. *)
Definition expiry_type_value (r : ExpiryResult) : M string :=
  match expiry_type r with
  | Some t => mret (value t)
  | None => raise RuntimeError
  end.

End expiry.

(** ** app/schemas.py *)

Module schemas.

Record WishViewResponse : Type := mkWishViewResponse {
  title : option string;
  message : string;
  theme : string;
  images : list string;
  remaining_views : option Z
}.

Global Instance WishViewResponse_eq_dec : EqDecision WishViewResponse.
Proof. solve_decision. Defined.

End schemas.

(** ** app/routes/wishes.py *)

Module wishes.

(** The two dictionaries [get_wish_status] returns. *)
Inductive StatusPayload : Type :=
  | StatusDeleted (exists_ : bool) (status : string) (deleted_at : option Z)
                  (message : string)
  | StatusLive (exists_ : bool) (status : string) (expiry_type : option string)
               (remaining_views : option Z) (expires_at : option Z).

Definition gone_detail : string := "Wish has expired or already been viewed".

(** [view_wish(slug, db)] *)
Definition view_wish (slug : string) : M schemas.WishViewResponse :=
  found ← Session.query_first (fun r => models.slug r = slug);
  match found with
  | None =>
      log DEBUG ("Wish not found: " +:+ slug);;
      raise (HTTPException 404 "Wish not found")
  | Some wish =>
      if is_deleted wish then
        log DEBUG ("Wish already deleted: " +:+ slug);;
        raise (HTTPException 410 gone_detail)
      else
        expiry_result ← expiry.check_expiry wish;
        if expiry.is_expired expiry_result then
          wish ← Wish.soft_delete wish;
          Session.commit [wish] [];;
          reason ← expiry.expiry_type_value expiry_result;
          log INFO ("Wish expired (" +:+ reason +:+ "): " +:+ slug);;
          raise (HTTPException 410 gone_detail)
        else
          let wish := set_current_views (current_views wish + 1) wish in
          wish ← (if expiry.should_soft_delete wish then
                    wish ← Wish.soft_delete wish;
                    log INFO ("Wish viewed and soft-deleted: " +:+ slug +:+
                              " (views=" +:+ pretty (current_views wish) +:+ ")");;
                    mret wish
                  else
                    log INFO ("Wish viewed: " +:+ slug +:+
                              " (views=" +:+ pretty (current_views wish) +:+ ")");;
                    mret wish);
          Session.commit [wish] [];;
          image_urls ← mapM Wish.url (models.images wish);
          let remaining_views :=
            match max_views wish with
            | Some m => if decide (m = 0) then None
                        else Some (m - current_views wish)
            | None => None
            end in
          mret (schemas.mkWishViewResponse
                  (models.title wish) (models.message wish) (models.theme wish)
                  image_urls
                  (match remaining_views with
                   | Some r => Some (Z.max 0 r)
                   | None => None
                   end))
  end.

(** [delete_wish(slug, db)] *)
Definition delete_wish (slug : string) : M unit :=
  found ← Session.query_first (fun r => models.slug r = slug);
  match found with
  | None => raise (HTTPException 404 "Wish not found")
  | Some wish =>
      if is_deleted wish then raise (HTTPException 404 "Wish not found")
      else
        wish ← Wish.soft_delete wish;
        Session.commit [wish] [];;
        log INFO ("Wish manually deleted: " +:+ slug)
  end.

(** [get_wish_status(slug, db)] *)
Definition get_wish_status (slug : string) : M StatusPayload :=
  found ← Session.query_first (fun r => models.slug r = slug);
  match found with
  | None => raise (HTTPException 404 "Wish not found")
  | Some wish =>
      if is_deleted wish then
        mret (StatusDeleted true "deleted" (models.deleted_at wish)
                            "Wish has expired or been deleted")
      else
        expiry_result ← expiry.check_expiry wish;
        ty ← (if expiry.is_expired expiry_result
              then v ← expiry.expiry_type_value expiry_result; mret (Some v)
              else mret None);
        mret (StatusLive true
                         (if expiry.is_expired expiry_result then "expired" else "active")
                         ty
                         (Wish.remaining_views wish)
                         (models.expires_at wish))
  end.

End wishes.

(** ** app/services/cleanup.py *)

Module cleanup.

(** The [where] clause of the sweep: [is_deleted == True],
    [deleted_at != None], [deleted_at < cutoff_time]. *)
Definition purgeable (cutoff_time : Z) (r : Wish) : Prop :=
  is_deleted r = true /\ exists d, deleted_at r = Some d /\ d < cutoff_time.

Global Instance purgeable_dec cutoff_time r : Decision (purgeable cutoff_time r).
Proof.
  unfold purgeable. destruct (deleted_at r) as [d|].
  - destruct (decide (is_deleted r = true /\ d < cutoff_time)) as [H|H].
    + left. destruct H. eauto.
    + right. intros (? & d' & [= <-] & ?). tauto.
  - right. intros (_ & d' & [=] & _).
Defined.

(** The [where] clause of the second query of the summary:
    [is_deleted == True], [deleted_at != None], [deleted_at >= cutoff_time]. *)
Definition in_grace_period (cutoff_time : Z) (r : Wish) : Prop :=
  is_deleted r = true /\ exists d, deleted_at r = Some d /\ cutoff_time <= d.

Global Instance in_grace_period_dec cutoff_time r :
  Decision (in_grace_period cutoff_time r).
Proof.
  unfold in_grace_period. destruct (deleted_at r) as [d|].
  - destruct (decide (is_deleted r = true /\ cutoff_time <= d)) as [H|H].
    + left. destruct H. eauto.
    + right. intros (? & d' & [= <-] & ?). tauto.
  - right. intros (_ & d' & [=] & _).
Defined.

(** The local variables of [cleanup_expired_wishes] that its loop updates,
    and the objects the session holds marked for deletion. *)
Record Locals : Type := mkLocals {
  wishes_deleted : Z;
  images_deleted : Z;
  errors_count : Z;
  session_deleted : list Wish
}.

Definition incr_errors_count (l : Locals) : Locals :=
  mkLocals (wishes_deleted l) (images_deleted l) (errors_count l + 1)
           (session_deleted l).

Definition incr_wishes_deleted (l : Locals) : Locals :=
  mkLocals (wishes_deleted l + 1) (images_deleted l) (errors_count l)
           (session_deleted l).

Definition add_images_deleted (n : Z) (l : Locals) : Locals :=
  mkLocals (wishes_deleted l) (images_deleted l + n) (errors_count l)
           (session_deleted l).

(** [db.delete(wish)]: raises, or marks the object in the session. *)
Definition db_delete (wish : Wish) : ST (World * Locals) unit :=
  fun env '(w, l) =>
    if delete_fails env (id wish) then (Raise OperationalError, (w, l))
    else (Return tt,
          (w, mkLocals (wishes_deleted l) (images_deleted l) (errors_count l)
                       (session_deleted l ++ [wish]))).

(** The body of the [for] loop of [cleanup_expired_wishes]. *)
Definition purge (wish : Wish) : ST (World * Locals) unit :=
  try_except
    (wish_upload_path ← lift (fs.get_wish_upload_path (id wish));
     there ← lift (fs.path_exists wish_upload_path);
     (if there : bool then
        try_except
          (lift (fs.rmtree wish_upload_path);;
           lift (log INFO ("Deleted image directory: " +:+ pretty wish_upload_path)))
          (fun e =>
             lift (log ERROR ("Failed to delete image directory " +:+
                              pretty wish_upload_path +:+ ": " +:+ Exn_str e));;
             modify_local incr_errors_count)
      else mret tt);;
     db_delete wish;;
     modify_local incr_wishes_deleted;;
     modify_local (add_images_deleted (Z.of_nat (length (models.images wish))));;
     lift (log INFO ("Deleted wish: " +:+ slug wish +:+
                     " (id=" +:+ pretty (id wish) +:+ ")")))
    (fun e =>
       lift (log ERROR ("Failed to delete wish " +:+ pretty (id wish) +:+
                        ": " +:+ Exn_str e));;
       modify_local incr_errors_count).

(** [cleanup_expired_wishes(db)] *)
Definition cleanup_expired_wishes : M (Z * Z * Z) :=
  minutes ← config SOFT_DELETE_GRACE_PERIOD_MINUTES;
  let grace_period := timedelta_minutes minutes in
  now ← utcnow;
  let cutoff_time := now - grace_period in
  wishes_to_delete ← Session.select_all (purgeable cutoff_time);
  '(_, l) ← with_locals (mkLocals 0 0 0 []) (for_each wishes_to_delete purge);
  Session.commit [] (session_deleted l);;
  mret (wishes_deleted l, images_deleted l, errors_count l).

(** The dictionary [get_cleanup_summary] returns; [error] is the key that
    only the fallback dictionary has. *)
Record Summary : Type := mkSummary {
  expired_wishes_ready_for_deletion : Z;
  wishes_in_grace_period : Z;
  total_wishes : Z;
  total_images : Z;
  grace_period_minutes : Z;
  cleanup_interval_minutes : Z;
  error : option string
}.

(** [get_cleanup_summary(db)] *)
Definition get_cleanup_summary : M Summary :=
  minutes ← config SOFT_DELETE_GRACE_PERIOD_MINUTES;
  interval ← config CLEANUP_INTERVAL_MINUTES;
  let grace_period := timedelta_minutes minutes in
  now ← utcnow;
  let cutoff_time := now - grace_period in
  try_except
    (expired ← Session.select_all (purgeable cutoff_time);
     let expired_count := Z.of_nat (length expired) in
     waiting ← Session.select_all (in_grace_period cutoff_time);
     let grace_period_count := Z.of_nat (length waiting) in
     total_wishes ← Session.count_wishes;
     total_images ← Session.count_images;
     mret (mkSummary expired_count grace_period_count total_wishes total_images
                     minutes interval None))
    (fun e =>
       log ERROR ("Failed to get cleanup summary: " +:+ Exn_str e);;
       mret (mkSummary 0 0 0 0 minutes interval (Some (Exn_str e)))).

End cleanup.

(** ** The core operations, one after the other *)

Inductive Op : Type :=
  | View (slug : string)
  | Delete (slug : string)
  | Status (slug : string)
  | Sweep
  | SummaryOp.

Inductive Response : Type :=
  | Viewed (r : schemas.WishViewResponse)
  | Deleted
  | StatusOf (p : wishes.StatusPayload)
  | Swept (counters : Z * Z * Z)
  | Summarised (s : cleanup.Summary).

Definition run_op (op : Op) : M Response :=
  match op with
  | View slug => r ← wishes.view_wish slug; mret (Viewed r)
  | Delete slug => wishes.delete_wish slug;; mret Deleted
  | Status slug => p ← wishes.get_wish_status slug; mret (StatusOf p)
  | Sweep => c ← cleanup.cleanup_expired_wishes; mret (Swept c)
  | SummaryOp => s ← cleanup.get_cleanup_summary; mret (Summarised s)
  end.

(** The outcomes of a sequence of requests, each starting in the world the
    previous one left, whether it returned or raised. *)
Fixpoint run_ops (ops : list Op) (env : Env) (w : World) :
  list (Result Response) * World :=
  match ops with
  | [] => ([], w)
  | op :: ops' =>
      let '(r, w1) := run_op op env w in
      let '(rs, w2) := run_ops ops' env w1 in
      (r :: rs, w2)
  end.

(** ** Vocabulary of the statements *)

(** The outcomes the routes name: 410 Gone and 404 Not Found. *)
Definition Gone : Exn := HTTPException 410 wishes.gone_detail.
Definition NotFound : Exn := HTTPException 404 "Wish not found".

(** The row a slug resolves to. *)
Definition resolve (s : string) (tbl : list Wish) : option Wish :=
  head (base.filter (fun x => slug x = s) tbl).

(** The constraints of the table: [id] is the primary key and [slug] is
    declared [unique]. *)
Definition unique_ids (tbl : list Wish) : Prop := NoDup (id <$> tbl).
Definition unique_slugs (tbl : list Wish) : Prop := NoDup (slug <$> tbl).

(** The payload of a successful view of the row [r]. *)
Definition view_response (env : Env) (r : Wish) (remaining : option Z) :
  schemas.WishViewResponse :=
  schemas.mkWishViewResponse (title r) (message r) (theme r)
    ((fun img => BASE_URL env +:+ "/media/" +:+ path img) <$> images r) remaining.

(** The row [r] after a view that counts. *)
Definition counted (now : Z) (r : Wish) : Wish :=
  let r1 := set_current_views (current_views r + 1) r in
  if expiry.should_soft_delete r1 then set_deleted now r1 else r1.

(** The view counter stays within the limit, where there is one. *)
Definition within_limit (r : Wish) : Prop :=
  forall m, max_views r = Some m -> current_views r <= m.

(** How many of the requests were views of [s] that returned. *)
Fixpoint successful_views (s : string) (ops : list Op) (rs : list (Result Response)) : Z :=
  match ops, rs with
  | View s' :: ops', Return _ :: rs' =>
      (if decide (s' = s) then 1 else 0) + successful_views s ops' rs'
  | _ :: ops', _ :: rs' => successful_views s ops' rs'
  | _, _ => 0
  end.

(** The cutoff of a sweep that starts in the world [w]. *)
Definition cutoff_at (env : Env) (w : World) : Z :=
  utcnow_at env (tick w) - timedelta_minutes (SOFT_DELETE_GRACE_PERIOD_MINUTES env).

(** A candidate of the sweep whose row goes: neither locating its directory
    nor [db.delete] failed. *)
Definition row_goes (env : Env) (r : Wish) : Prop :=
  path_fails env (id r) = false /\ delete_fails env (id r) = false.

Global Instance row_goes_dec env r : Decision (row_goes env r).
Proof. unfold row_goes. apply _. Defined.

(** The failures the sweep meets at one candidate, with the directories [ds]
    on disk. *)
Definition item_errors (env : Env) (ds : gset Z) (r : Wish) : Z :=
  if path_fails env (id r) then 1
  else (if bool_decide (id r ∈ ds) && rmtree_fails env (id r) then 1 else 0) +
       (if delete_fails env (id r) then 1 else 0).

Definition sum_Z (l : list Z) : Z := foldr Z.add 0 l.

(** What holds of the table after [c] views of the slug [s], limited to [m]
    views, have returned. *)
Definition limit_inv (s : string) (m c : Z) (tbl : list Wish) : Prop :=
  unique_ids tbl /\ unique_slugs tbl /\ Forall within_limit tbl /\
  0 <= c <= m /\
  forall x, x ∈ tbl -> slug x = s -> max_views x = Some m /\ current_views x = c.

(** What one request adds to the count of returned views of [s]. *)
Definition counts (s : string) (op : Op) (res : Result Response) : Z :=
  match op, res with
  | View s', Return _ => if decide (s' = s) then 1 else 0
  | _, _ => 0
  end.

(** ** What a view can do *)

Inductive view_case (env : Env) (w : World) (s : string) :
  Result schemas.WishViewResponse -> World -> Prop :=
  | view_store_down w' :
      store_fails env (stmts w) = true ->
      rows w' = rows w -> dirs w' = dirs w -> stmts w' = S (stmts w) ->
      view_case env w s (Raise OperationalError) w'
  | view_absent w' :
      store_fails env (stmts w) = false ->
      resolve s (rows w) = None ->
      rows w' = rows w -> dirs w' = dirs w -> stmts w' = S (stmts w) ->
      view_case env w s (Raise NotFound) w'
  | view_tombstoned r w' :
      store_fails env (stmts w) = false ->
      resolve s (rows w) = Some r -> is_deleted r = true ->
      rows w' = rows w -> dirs w' = dirs w -> stmts w' = S (stmts w) ->
      view_case env w s (Raise Gone) w'
  | view_expired_lost r w' :
      store_fails env (stmts w) = false ->
      resolve s (rows w) = Some r -> is_deleted r = false ->
      expiry.is_expired (expiry.evaluate (utcnow_at env (tick w)) r) = true ->
      store_fails env (S (stmts w)) = true ->
      rows w' = rows w -> dirs w' = dirs w -> stmts w' = S (S (stmts w)) ->
      view_case env w s (Raise OperationalError) w'
  | view_expired r reason w' :
      store_fails env (stmts w) = false ->
      resolve s (rows w) = Some r -> is_deleted r = false ->
      expiry.is_expired (expiry.evaluate (utcnow_at env (tick w)) r) = true ->
      expiry.expiry_type (expiry.evaluate (utcnow_at env (tick w)) r) = Some reason ->
      store_fails env (S (stmts w)) = false ->
      rows w' = Session.update_row (set_deleted (utcnow_at env (S (tick w))) r) (rows w) ->
      dirs w' = dirs w -> stmts w' = S (S (stmts w)) ->
      logs w' = logs w ++
                [(INFO, "Wish expired (" +:+ expiry.value reason +:+ "): " +:+ s)] ->
      view_case env w s (Raise Gone) w'
  | view_lost r w' :
      store_fails env (stmts w) = false ->
      resolve s (rows w) = Some r -> is_deleted r = false ->
      expiry.is_expired (expiry.evaluate (utcnow_at env (tick w)) r) = false ->
      store_fails env (S (stmts w)) = true ->
      rows w' = rows w -> dirs w' = dirs w -> stmts w' = S (S (stmts w)) ->
      view_case env w s (Raise OperationalError) w'
  | view_counted r w' :
      store_fails env (stmts w) = false ->
      resolve s (rows w) = Some r -> is_deleted r = false ->
      expiry.is_expired (expiry.evaluate (utcnow_at env (tick w)) r) = false ->
      store_fails env (S (stmts w)) = false ->
      rows w' = Session.update_row (counted (utcnow_at env (S (tick w))) r) (rows w) ->
      dirs w' = dirs w -> stmts w' = S (S (stmts w)) ->
      view_case env w s
        (Return (view_response env r
                   (match max_views r with
                    | Some m => if decide (m = 0) then None
                                else Some (Z.max 0 (m - (current_views r + 1)))
                    | None => None
                    end)))
        w'.

(** ** What a delete request can do *)

Inductive delete_case (env : Env) (w : World) (s : string) :
  Result unit -> World -> Prop :=
  | delete_store_down w' :
      store_fails env (stmts w) = true ->
      rows w' = rows w -> dirs w' = dirs w -> stmts w' = S (stmts w) ->
      delete_case env w s (Raise OperationalError) w'
  | delete_absent w' :
      store_fails env (stmts w) = false ->
      resolve s (rows w) = None ->
      rows w' = rows w -> dirs w' = dirs w -> stmts w' = S (stmts w) ->
      delete_case env w s (Raise NotFound) w'
  | delete_tombstoned r w' :
      store_fails env (stmts w) = false ->
      resolve s (rows w) = Some r -> is_deleted r = true ->
      rows w' = rows w -> dirs w' = dirs w -> stmts w' = S (stmts w) ->
      delete_case env w s (Raise NotFound) w'
  | delete_lost r w' :
      store_fails env (stmts w) = false ->
      resolve s (rows w) = Some r -> is_deleted r = false ->
      store_fails env (S (stmts w)) = true ->
      rows w' = rows w -> dirs w' = dirs w -> stmts w' = S (S (stmts w)) ->
      delete_case env w s (Raise OperationalError) w'
  | delete_done r w' :
      store_fails env (stmts w) = false ->
      resolve s (rows w) = Some r -> is_deleted r = false ->
      store_fails env (S (stmts w)) = false ->
      rows w' = Session.update_row (set_deleted (utcnow_at env (tick w)) r) (rows w) ->
      dirs w' = dirs w -> stmts w' = S (S (stmts w)) ->
      delete_case env w s (Return tt) w'.

(** ** What a status request can do *)

Inductive status_case (env : Env) (w : World) (s : string) :
  Result wishes.StatusPayload -> Prop :=
  | status_store_down :
      store_fails env (stmts w) = true ->
      status_case env w s (Raise OperationalError)
  | status_absent :
      store_fails env (stmts w) = false ->
      resolve s (rows w) = None ->
      status_case env w s (Raise NotFound)
  | status_tombstoned r :
      store_fails env (stmts w) = false ->
      resolve s (rows w) = Some r -> is_deleted r = true ->
      status_case env w s
        (Return (wishes.StatusDeleted true "deleted" (deleted_at r)
                                      "Wish has expired or been deleted"))
  | status_live r :
      store_fails env (stmts w) = false ->
      resolve s (rows w) = Some r -> is_deleted r = false ->
      status_case env w s
        (Return (wishes.StatusLive true
                   (if expiry.is_expired (expiry.evaluate (utcnow_at env (tick w)) r)
                    then "expired" else "active")
                   (expiry.value <$>
                      expiry.expiry_type (expiry.evaluate (utcnow_at env (tick w)) r))
                   (Wish.remaining_views r) (expires_at r))).

(** ** What a sweep can do *)

Inductive sweep_case (env : Env) (w : World) : Result (Z * Z * Z) -> World -> Prop :=
  | sweep_store_down w' :
      store_fails env (stmts w) = true ->
      rows w' = rows w -> dirs w' = dirs w -> stmts w' = S (stmts w) ->
      sweep_case env w (Raise OperationalError) w'
  | sweep_lost w' :
      store_fails env (stmts w) = false ->
      store_fails env (S (stmts w)) = true ->
      rows w' = rows w -> stmts w' = S (S (stmts w)) ->
      (forall i, i ∉ (id <$> base.filter (cleanup.purgeable (cutoff_at env w)) (rows w)) ->
                 (i ∈ dirs w' <-> i ∈ dirs w)) ->
      (unique_ids (rows w) ->
       forall x, x ∈ base.filter (cleanup.purgeable (cutoff_at env w)) (rows w) ->
                 row_goes env x -> rmtree_fails env (id x) = false ->
                 id x ∉ dirs w') ->
      sweep_case env w (Raise OperationalError) w'
  | sweep_done errors w' :
      store_fails env (stmts w) = false ->
      store_fails env (S (stmts w)) = false ->
      rows w' = Session.delete_rows
                  (base.filter (row_goes env)
                     (base.filter (cleanup.purgeable (cutoff_at env w)) (rows w)))
                  (rows w) ->
      stmts w' = S (S (stmts w)) ->
      (unique_ids (rows w) ->
       errors = sum_Z (item_errors env (dirs w) <$>
                         base.filter (cleanup.purgeable (cutoff_at env w)) (rows w)) /\
       (forall i, i ∉ (id <$> base.filter (cleanup.purgeable (cutoff_at env w)) (rows w)) ->
                  (i ∈ dirs w' <-> i ∈ dirs w)) /\
       (forall x, x ∈ base.filter (cleanup.purgeable (cutoff_at env w)) (rows w) ->
                  row_goes env x -> rmtree_fails env (id x) = false ->
                  id x ∉ dirs w')) ->
      sweep_case env w
        (Return
           (Z.of_nat (length (base.filter (row_goes env)
                                (base.filter (cleanup.purgeable (cutoff_at env w)) (rows w)))),
            sum_Z ((fun r => Z.of_nat (length (images r))) <$>
                     base.filter (row_goes env)
                       (base.filter (cleanup.purgeable (cutoff_at env w)) (rows w))),
            errors))
        w'.

(** ** Unfolding the monad *)

Ltac unfold_st :=
  unfold mbind, ST_bind, mret, ST_ret, raise, try_except, config, utcnow, log,
    lift, modify_local, get_local, with_locals in *.

(** ** Worlds to evaluate on *)

Module sample.

(** A clock that advances by a microsecond at each reading, no faults, a
    grace period of ten minutes. *)
Definition env : Env :=
  mkEnv (fun k => 1000000000 + Z.of_nat k) (fun _ => false) (fun _ => false)
        (fun _ => false) (fun _ => false) 10 60 "https://wishaday.test".

(** The same with the database unreachable. *)
Definition env_store_down : Env :=
  mkEnv (fun k => 1000000000 + Z.of_nat k) (fun _ => true) (fun _ => false)
        (fun _ => false) (fun _ => false) 10 60 "https://wishaday.test".

(** The same with [shutil.rmtree] failing for wish 3. *)
Definition env_rmtree_fails : Env :=
  mkEnv (fun k => 1000000000 + Z.of_nat k) (fun _ => false) (fun _ => false)
        (fun i => bool_decide (i = 3)) (fun _ => false) 10 60 "https://wishaday.test".

(** The same with the database failing at its second statement only: the
    candidate query of a sweep works and its commit fails. *)
Definition env_commit_fails : Env :=
  mkEnv (fun k => 1000000000 + Z.of_nat k) (fun k => bool_decide (k = 1%nat))
        (fun _ => false) (fun _ => false) (fun _ => false) 10 60
        "https://wishaday.test".

Definition once : Wish :=
  mkWish 1 "8Fk2QaL9" (Some "Happy Birthday") "Have a great day!" "birthday"
         None (Some 1) 0 false 0 None "ab12"
         [mkWishImage 1 1 "wishes/1/image1.webp"].

Definition thrice : Wish :=
  mkWish 2 "Zx81mQp0" None "Three looks" "default"
         (Some 2000000000) (Some 3) 0 false 0 None "ab12" [].

Definition overdue : Wish :=
  mkWish 5 "Lm3n0PqR" None "Too late" "default"
         (Some 999999999) None 0 false 0 None "ab12" [].

(** Tombstoned long before the cutoff [1000000000 - 600000000]. *)
Definition dead : Wish :=
  mkWish 3 "Qw9eRt7y" None "Seen" "default" None (Some 1) 1 true 0
         (Some 100) "cd34" [mkWishImage 2 3 "wishes/3/a.webp"].

(** Tombstoned exactly at the cutoff of a sweep whose clock reads
    [1000000000]. *)
Definition at_cutoff : Wish :=
  mkWish 4 "Ty6uIo5p" None "Edge" "default" None (Some 1) 1 true 0
         (Some 400000000) "cd34" [].

Definition world : World :=
  mkWorld [once; thrice; dead; at_cutoff; overdue] {[1; 3]} 0 0 [].

End sample.

(** ** The life of a row *)

(** What one request can do to the table: nothing, tombstone a row that is
    not tombstoned, count a view of a row that is not tombstoned, or purge
    rows. *)
Inductive table_step (tbl : list Wish) : list Wish -> Prop :=
  | step_same : table_step tbl tbl
  | step_tombstone r t :
      r ∈ tbl -> is_deleted r = false ->
      table_step tbl (Session.update_row (set_deleted t r) tbl)
  | step_count r now :
      r ∈ tbl -> is_deleted r = false ->
      table_step tbl (Session.update_row (counted now r) tbl)
  | step_purge gone :
      (forall x, x ∈ gone -> x ∈ tbl /\ is_deleted x = true) ->
      table_step tbl (Session.delete_rows gone tbl).

(** The row [x] is a later state of the row [r]: same identity and content,
    a counter that did not go down, and no change at all once [r] is
    tombstoned. *)
Definition later_state (r x : Wish) : Prop :=
  id x = id r /\ slug x = slug r /\ title x = title r /\
  message x = message r /\ theme x = theme r /\
  expires_at x = expires_at r /\ max_views x = max_views r /\
  created_at x = created_at r /\ ip_hash x = ip_hash r /\
  images x = images r /\
  current_views r <= current_views x /\
  (is_deleted r = true -> x = r).

(** The tombstone flag and its timestamp go together. *)
Definition stamped (r : Wish) : Prop :=
  is_deleted r = true <-> is_Some (deleted_at r).

(** ** A world whose clock stands still *)

Module frozen.

(** The sample environment with a clock that returns the same reading. *)
Definition env : Env :=
  mkEnv (fun _ => 1000000000) (fun _ => false) (fun _ => false)
        (fun _ => false) (fun _ => false) 10 60 "https://wishaday.test".

End frozen.

(** ** Python strings *)

Module pystr.

(** [c.isspace()] for a character of a header value (code points 0 to
    255): tab to carriage return, the four separators 28 to 31, the space,
    NEL (133) and the no-break space (160). *)
Definition isspace (c : Ascii.ascii) : bool :=
  let n := Ascii.nat_of_ascii c in
  ((9 <=? n)%nat && (n <=? 13)%nat) || ((28 <=? n)%nat && (n <=? 32)%nat) ||
  (n =? 133)%nat || (n =? 160)%nat.

(** [s.lstrip()] *)
Fixpoint lstrip (s : string) : string :=
  match s with
  | EmptyString => EmptyString
  | String c s' => if isspace c then lstrip s' else s
  end.

(** [s.rstrip()] *)
Fixpoint rstrip (s : string) : string :=
  match s with
  | EmptyString => EmptyString
  | String c s' =>
      match rstrip s' with
      | EmptyString => if isspace c then EmptyString else String c EmptyString
      | t => String c t
      end
  end.

(** [s.strip()] *)
Definition strip (s : string) : string := rstrip (lstrip s).

(** [s.split(sep)[0]] for a separator of one character: what comes before
    the first [sep], all of [s] when there is none. *)
Fixpoint first_field (sep : Ascii.ascii) (s : string) : string :=
  match s with
  | EmptyString => EmptyString
  | String c s' => if decide (c = sep) then EmptyString
                   else String c (first_field sep s')
  end.

(** The character [","]. *)
Definition comma : Ascii.ascii := Ascii.ascii_of_nat 44.

(** [needle in hay] *)
Definition contains (needle hay : string) : bool :=
  match String.index 0 needle hay with
  | Some _ => true
  | None => false
  end.

(** [x or y] for strings: the empty string is false. *)
Definition or_else (x : option string) (y : string) : string :=
  match x with
  | Some (String c t) => String c t
  | _ => y
  end.

End pystr.

(** ** The request, as far as the handlers read it *)

Record Request : Type := mkRequest {
  x_forwarded_for : option string;  (* [request.headers.get("X-Forwarded-For")] *)
  accept : option string;           (* [request.headers.get("Accept")] *)
  client_host : option string       (* [request.client.host]; [None]: no [request.client] *)
}.

(** What [app.config], [app.services.slug], the table's id sequence and
    [app.__version__] give the handlers below; none of them is among the
    sources, so each is a parameter. *)
Record Deps : Type := mkDeps {
  MAX_WISHES_PER_IP_PER_DAY : Z;
  generate_unique_slug : list Wish -> option string;  (* [None]: it raises RuntimeError *)
  get_client_ip_hash : string -> string;
  next_id : list Wish -> Z;                           (* the id the database assigns *)
  version : string
}.

(** ** app/routes/wishes.py: the client address and the rate limit *)

Module ratelimit.

(** An entry of [_rate_limit_storage]: [{"count": ..., "reset": ...}]. *)
Record Entry : Type := mkEntry {
  count : Z;
  reset : Z
}.

(** [_rate_limit_storage].  Its keys are the strings
    [f"{client_ip}:{today}"]; since a date holds no colon, such a string
    determines the pair of the address and the day, and the pair is the key
    here. *)
Abbreviation Storage := (gmap (string * Z) Entry).

(** The day of [datetime.strftime("%Y-%m-%d")], as the number of days since
    the epoch. *)
Definition date_of (now : Z) : Z := now `div` 86400000000.

(** [timedelta(days=1)] *)
Definition one_day : Z := 86400000000.

(** [get_client_ip(request)] *)
Definition get_client_ip (request : Request) : string :=
  match x_forwarded_for request with
  | Some (String c t) =>
      pystr.strip (pystr.first_field pystr.comma (String c t))
  | _ =>
      match client_host request with
      | Some host => host
      | None => "unknown"
      end
  end.

(** [check_rate_limit(client_ip)]; [int(total_seconds() / 60)] truncates
    towards zero. *)
Definition check_rate_limit (deps : Deps) (client_ip : string) :
  ST (World * Storage) (bool * option string) :=
  now ← lift utcnow;
  let key := (client_ip, date_of now) in
  storage ← get_local;
  let current_count := match storage !! key with
                       | Some e => count e
                       | None => 0
                       end in
  let max_wishes := MAX_WISHES_PER_IP_PER_DAY deps in
  if bool_decide (max_wishes <= current_count) then
    match storage !! key with
    | Some e =>
        now' ← lift utcnow;
        let minutes := (reset e - now') `quot` 60000000 in
        mret (false,
              Some ("Rate limit exceeded. Maximum " +:+ pretty max_wishes +:+
                    " wishes per day. Try again in " +:+ pretty minutes +:+
                    " minutes."))
    | None =>
        mret (false,
              Some ("Rate limit exceeded. Maximum " +:+ pretty max_wishes +:+
                    " wishes per day per IP."))
    end
  else mret (true, None).

(** [increment_rate_limit(client_ip)] *)
Definition increment_rate_limit (client_ip : string) : ST (World * Storage) unit :=
  now ← lift utcnow;
  let key := (client_ip, date_of now) in
  storage ← get_local;
  (match storage !! key with
   | Some _ => mret tt
   | None =>
       now' ← lift utcnow;
       modify_local (fun st : Storage => <[key := mkEntry 0 (now' + one_day)]> st)
   end);;
  modify_local (fun st : Storage =>
                  alter (fun e => mkEntry (count e + 1) (reset e)) key st).

End ratelimit.

(** The characters of a string, for statements about them. *)
Fixpoint chars (s : string) : list Ascii.ascii :=
  match s with
  | EmptyString => []
  | String c s' => c :: chars s'
  end.

(** The number of wishes counted for a key of the rate limit storage. *)
Definition counted_for (st : ratelimit.Storage) (key : string * Z) : Z :=
  match st !! key with
  | Some e => ratelimit.count e
  | None => 0
  end.

(** ** app/schemas.py and app/routes/wishes.py: creating a wish *)

Module creation.

(** [WishCreate] *)
Record WishCreate : Type := mkWishCreate {
  title : option string;
  message : string;
  theme : string;
  expires_at : option Z;
  max_views : option Z
}.

(** [WishCreateResponse] *)
Record WishCreateResponse : Type := mkWishCreateResponse {
  slug : string;
  public_url : string
}.

(** The constraints of the fields of [WishCreate] and its validator
    [validate_expiry]: what a request must satisfy to reach [create_wish]. *)
Definition validate (d : WishCreate) : bool :=
  match title d with
  | Some t => bool_decide (String.length t <= 255)%nat
  | None => true
  end &&
  bool_decide (1 <= String.length (message d))%nat &&
  bool_decide (String.length (message d) <= 5000)%nat &&
  bool_decide (String.length (theme d) <= 50)%nat &&
  match max_views d with
  | Some m => bool_decide (1 <= m) && bool_decide (m <= 1000)
  | None => true
  end &&
  negb (match expires_at d, max_views d with
        | None, None => true
        | _, _ => false
        end).

(** [generate_unique_slug(db)], a function of the table it looks into. *)
Definition slug_for_table (deps : Deps) : M (option string) :=
  fun _ w => (Return (generate_unique_slug deps (rows w)), w).

(** [db.add(wish); db.commit()]: at the flush the column defaults are
    evaluated ([created_at] is [datetime.utcnow()]) and the database assigns
    the id; it refuses the insert when the primary key or the unique slug is
    taken. *)
Definition add_and_commit (deps : Deps) (make : Z -> Z -> Wish) : M Wish :=
  now ← utcnow;
  ((fun env w =>
      let w' := mkWorld (rows w) (dirs w) (tick w) (S (stmts w)) (logs w) in
      let row := make (next_id deps (rows w)) now in
      if store_fails env (stmts w) then (Raise OperationalError, w')
      else if bool_decide (models.id row ∈ (models.id <$> rows w) \/
                           models.slug row ∈ (models.slug <$> rows w))
      then (Raise OperationalError, w')
      else (Return row,
            mkWorld (rows w ++ [row]) (dirs w) (tick w) (S (stmts w)) (logs w)))
   : M Wish).

(** [db.refresh(wish)]: the row is read again by its primary key. *)
Definition refresh (wish : Wish) : M Wish :=
  found ← Session.execute
            (fun tbl => head (base.filter (fun r => models.id r = models.id wish) tbl));
  match found with
  | Some r => mret r
  | None => raise RuntimeError
  end.

(** [create_wish(wish_data, request, db)]; [check_rate_limit] sets the
    message whenever it refuses. *)
Definition create_wish (deps : Deps) (wish_data : WishCreate) (request : Request) :
  ST (World * ratelimit.Storage) WishCreateResponse :=
  let client_ip := ratelimit.get_client_ip request in
  '(is_allowed, error_msg) ← ratelimit.check_rate_limit deps client_ip;
  if negb is_allowed then
    lift (log WARNING ("Rate limit exceeded for IP: " +:+ client_ip));;
    raise (HTTPException 429 (default "" error_msg))
  else
    generated ← lift (slug_for_table deps);
    match generated with
    | None =>
        lift (log ERROR ("Failed to generate slug: " +:+ Exn_str RuntimeError));;
        raise (HTTPException 500 "Failed to generate wish slug")
    | Some slug =>
        let ip_hash := get_client_ip_hash deps client_ip in
        wish ← lift (add_and_commit deps
                       (fun id now =>
                          mkWish id slug (title wish_data) (message wish_data)
                                 (theme wish_data) (expires_at wish_data)
                                 (max_views wish_data) 0 false now None ip_hash []));
        wish ← lift (refresh wish);
        ratelimit.increment_rate_limit client_ip;;
        base ← lift (config BASE_URL);
        let public_url := base +:+ "/w/" +:+ slug in
        lift (log INFO ("Created wish: " +:+ slug +:+
                        " (id=" +:+ pretty (models.id wish) +:+ ")"));;
        mret (mkWishCreateResponse slug public_url)
    end.

End creation.

(** ** A visitor to evaluate on *)

Module visitor.

(** A limit of two wishes a day, a slug service that always proposes the
    same slug, and ids that follow the largest one in the table. *)
Definition deps : Deps :=
  mkDeps 2 (fun _ => Some "Nw5lUgA1") (fun ip => "hash-of-" +:+ ip)
         (fun tbl => 1 + foldr Z.max 0 (id <$> tbl)) "1.0.0".

Definition request : Request :=
  mkRequest (Some "203.0.113.7, 10.0.0.1") (Some "text/html,*/*") (Some "10.0.0.9").

Definition wish_data : creation.WishCreate :=
  creation.mkWishCreate (Some "Hello") "Good luck!" "default" None (Some 2).

End visitor.

(** The row that [create_wish] inserts for the request [d] from the address
    [ip]: the content and the limits of the request, no view counted, no
    tombstone, no image. *)
Definition created_row (deps : Deps) (d : creation.WishCreate) (ip : string)
    (i : Z) (s : string) (now : Z) : Wish :=
  mkWish i s (creation.title d) (creation.message d) (creation.theme d)
         (creation.expires_at d) (creation.max_views d) 0 false now None
         (get_client_ip_hash deps ip) [].

(** The value a computation returned, if it returned. *)
Definition result_value {A} (r : Result A) : option A :=
  match r with
  | Return a => Some a
  | Raise _ => None
  end.

(** ** app/main.py *)

Module main.

(** The dictionary [health_check] returns. *)
Record Health : Type := mkHealth {
  status : string;
  app_version : string;
  database : string;
  cleanup_summary : cleanup.Summary
}.

(** [health_check()]: [SELECT 1], then the summary, both inside one [try];
    the fallback summary of the [except] branch has no [error] key. *)
Definition health_check (deps : Deps) : M Health :=
  r ← try_except
        (Session.execute (fun _ => tt);;
         s ← cleanup.get_cleanup_summary;
         mret ("healthy", s))
        (fun e =>
           minutes ← config SOFT_DELETE_GRACE_PERIOD_MINUTES;
           interval ← config CLEANUP_INTERVAL_MINUTES;
           mret ("unhealthy: " +:+ Exn_str e,
                 cleanup.mkSummary 0 0 0 0 minutes interval None));
  let '(db_status, summary) := r in
  mret (mkHealth (if decide (db_status = "healthy") then "healthy" else "degraded")
                 (version deps) db_status summary).

(** What the HTML page of a wish interpolates into its fixed template: the
    text of [<title>], of [<h1>], the message, the theme and the [src] of
    each image. *)
Record WishPage : Type := mkWishPage {
  page_title : string;
  heading : string;
  page_message : string;
  page_theme : string;
  image_sources : list string
}.

Inductive PageResponse : Type :=
  | FileResponse (path : string)
  | HTMLResponse (page : WishPage).

(** [public_wish_page(slug, request)].  Without [text/html] in [Accept] it
    calls [view_wish(slug)] with no session: the parameter [db] is then the
    [Depends] marker of its default, and [db.query] raises. *)
Definition public_wish_page (slug : string) (request : Request) : M PageResponse :=
  let accept := default "" (accept request) in
  if pystr.contains "text/html" accept then
    found ← Session.query_first (fun r => models.slug r = slug);
    match found with
    | None => mret (FileResponse "app/static/404.html")
    | Some wish =>
        if is_deleted wish then mret (FileResponse "app/static/404.html")
        else
          expiry_result ← expiry.check_expiry wish;
          if expiry.is_expired expiry_result
          then mret (FileResponse "app/static/expired.html")
          else mret (HTMLResponse
                       (mkWishPage
                          ("Wish: " +:+ pystr.or_else (title wish) "Untitled")
                          (pystr.or_else (title wish) "Untitled Wish")
                          (message wish) (theme wish)
                          ((fun img => "/media/" +:+ path img) <$> images wish)))
    end
  else raise RuntimeError.

End main.

(** The page [public_wish_page] renders for the row [r]. *)
Definition page_of (r : Wish) : main.WishPage :=
  main.mkWishPage ("Wish: " +:+ pystr.or_else (title r) "Untitled")
                  (pystr.or_else (title r) "Untitled Wish")
                  (message r) (theme r)
                  ((fun img => "/media/" +:+ path img) <$> images r).

(** ** app/services/cleanup.py: image records without a file *)

Module orphans.

(** [wish.images = imgs] *)
Definition set_images (imgs : list WishImage) (w : Wish) : Wish :=
  mkWish (id w) (slug w) (title w) (message w) (theme w) (expires_at w)
         (max_views w) (current_views w) (is_deleted w) (created_at w)
         (deleted_at w) (ip_hash w) imgs.

(** The table [wish_images]: the image records of all wishes. *)
Definition all_images (tbl : list Wish) : list WishImage := tbl ≫= images.

(** The counter of [cleanup_orphaned_images] and the records its session
    holds marked for deletion. *)
Record Locals : Type := mkLocals {
  orphaned_count : Z;
  session_deleted : list WishImage
}.

(** The image records a query of this session finds: the session flushes
    its deletions before it queries. *)
Definition visible (l : Locals) (tbl : list Wish) : list WishImage :=
  base.filter (fun i => image_id i ∉ (image_id <$> session_deleted l)) (all_images tbl).

(** The body of the loop over [existing_paths]; [files] are the relative
    paths that exist under [settings.upload_path]. *)
Definition check_path (files : gset string) (image_path : string) :
  ST (World * Locals) unit :=
  if bool_decide (image_path ∈ files) then mret tt
  else
    l ← get_local;
    img_record ← lift (Session.execute
                         (fun tbl => head (base.filter (fun i => path i = image_path)
                                                       (visible l tbl))));
    match img_record with
    | Some img =>
        modify_local (fun l => mkLocals (orphaned_count l + 1)
                                        (session_deleted l ++ [img]));;
        lift (log INFO ("Deleted orphaned image record: " +:+ image_path))
    | None => mret tt
    end.

(** The image records with the primary keys of [gone] leave their wishes. *)
Definition delete_images (gone : list WishImage) (tbl : list Wish) : list Wish :=
  (fun r => set_images
              (base.filter (fun i => image_id i ∉ (image_id <$> gone)) (images r)) r)
    <$> tbl.

(** [db.commit()] of a session that deleted the image records [gone]. *)
Definition commit_deleted (gone : list WishImage) : M unit :=
  fun env w =>
    if store_fails env (stmts w)
    then (Raise OperationalError,
          mkWorld (rows w) (dirs w) (tick w) (S (stmts w)) (logs w))
    else (Return tt,
          mkWorld (delete_images gone (rows w)) (dirs w) (tick w) (S (stmts w)) (logs w)).

(** [cleanup_orphaned_images(db)]; the set [existing_paths] is walked in the
    order of its elements. *)
Definition cleanup_orphaned_images (files : gset string) : M Z :=
  all_images ← Session.execute all_images;
  let existing_paths : gset string := list_to_set (path <$> all_images) in
  '(_, l) ← with_locals (mkLocals 0 [])
              (for_each (elements existing_paths) (check_path files));
  commit_deleted (session_deleted l);;
  mret (orphaned_count l).

End orphans.

(** The record that [cleanup_orphaned_images] deletes for a path: none when
    the file exists, else the first record with that path. *)
Definition orphan_of (files : gset string) (tbl : list Wish) (p : string) :
  option WishImage :=
  if bool_decide (p ∈ files) then None
  else head (base.filter (fun i => path i = p) (orphans.all_images tbl)).

(** The primary key of [wish_images]. *)
Definition unique_image_ids (tbl : list Wish) : Prop :=
  NoDup (image_id <$> orphans.all_images tbl).

(** ** scripts/add_sender_fields.py *)

Module migration.

(** SQLite compares column names without regard to the case of the letters
    A to Z. *)
Definition lower_ascii (c : Ascii.ascii) : Ascii.ascii :=
  let n := Ascii.nat_of_ascii c in
  if (Nat.leb 65 n && Nat.leb n 90)%bool then Ascii.ascii_of_nat (n + 32) else c.

Fixpoint lower (s : string) : string :=
  match s with
  | EmptyString => EmptyString
  | String c t => String (lower_ascii c) (lower t)
  end.

(** A connection of [engine] to the SQLite database: [durable] are the
    columns of [wishes] as the database file has them, in the order of
    [PRAGMA table_info] (none when there is no such table); [table] are the
    columns as this connection sees them; [transactional_ddl] tells whether
    the connection runs [ALTER TABLE] inside the transaction that
    [conn.commit()] ends, or writes it at once (the engine of
    app/database.py decides); [sent] counts the statements sent, and
    [stdout] are the lines printed. *)
Record Conn : Type := mkConn {
  transactional_ddl : bool;
  durable : list string;
  table : list string;
  sent : nat;
  stdout : list string
}.

(** [engine.connect()] to a database whose table has the columns [columns],
    after [sent] statements. *)
Definition connect (transactional : bool) (columns : list string) (sent : nat) : Conn :=
  mkConn transactional columns columns sent [].

Definition print (line : string) : ST Conn unit :=
  fun _ c =>
    (Return tt,
     mkConn (transactional_ddl c) (durable c) (table c) (sent c) (stdout c ++ [line])).

(** A statement sent over the connection: the database may be unreachable;
    otherwise it does [run]. *)
Definition statement {A} (run : Conn -> Result A * Conn) : ST Conn A :=
  fun env c =>
    let c1 := mkConn (transactional_ddl c) (durable c) (table c) (S (sent c)) (stdout c) in
    if store_fails env (sent c) then (Raise OperationalError, c1) else run c1.

(** [[row[1] for row in conn.execute(text("PRAGMA table_info(wishes)"))]];
    the pragma returns no row for a table that does not exist. *)
Definition table_info : ST Conn (list string) :=
  statement (fun c => (Return (table c), c)).

(** [conn.execute(text("ALTER TABLE wishes ADD COLUMN name ..."))]: SQLite
    refuses it when there is no table [wishes] and when the table has a
    column of that name in any case (duplicate column name). *)
Definition add_column (name : string) : ST Conn unit :=
  statement
    (fun c =>
       if bool_decide (table c = []) then (Raise OperationalError, c)
       else if bool_decide (lower name ∈ (lower <$> table c))
       then (Raise OperationalError, c)
       else
         let t := table c ++ [name] in
         (Return tt,
          mkConn (transactional_ddl c) (if transactional_ddl c then durable c else t)
                 t (sent c) (stdout c))).

(** [conn.commit()] *)
Definition commit : ST Conn unit :=
  statement
    (fun c =>
       (Return tt,
        mkConn (transactional_ddl c) (table c) (table c) (sent c) (stdout c))).

(** [with engine.connect() as conn: body]: the connection is closed when
    the block is left, by its end or by an exception, and what was not
    committed is rolled back. *)
Definition with_connection {A} (body : ST Conn A) : ST Conn A :=
  fun env c =>
    let '(r, c') := body env c in
    (r, mkConn (transactional_ddl c') (durable c') (durable c') (sent c') (stdout c')).

(** [add_sender_fields()] *)
Definition add_sender_fields : ST Conn unit :=
  with_connection
    (existing_columns ← table_info;
     (if bool_decide ("sender_name" ∉ existing_columns) then
        print "Adding sender_name column...";;
        add_column "sender_name";;
        print "✓ Added sender_name column"
      else print "✓ sender_name column already exists");;
     (if bool_decide ("sender_message" ∉ existing_columns) then
        print "Adding sender_message column...";;
        add_column "sender_message";;
        print "✓ Added sender_message column"
      else print "✓ sender_message column already exists");;
     commit;;
     print "✅ Migration completed successfully!").

End migration.

(** The outcome of [add_sender_fields()] on a table with the columns
    [columns]: what the call returns or raises, the columns of [wishes] in
    the database file afterwards, and the lines printed. *)
Definition migrate (env : Env) (transactional : bool) (columns : list string) :
  Result unit * list string * list string :=
  let '(r, c) :=
    migration.add_sender_fields env (migration.connect transactional columns 0) in
  (r, migration.durable c, migration.stdout c).

(** The table has a column that SQLite takes for [sender_name] or
    [sender_message] and the script does not: the same name in another
    case. *)
Definition case_variant (columns : list string) : Prop :=
  exists c, c ∈ columns /\
            (c ∉ ["sender_name"; "sender_message"]) /\
            migration.lower c ∈ ["sender_name"; "sender_message"].


(** The same, among the records a session that deleted those of [l] still
    finds. *)
Definition orphan_of_visible (files : gset string) (l : orphans.Locals)
    (tbl : list Wish) (p : string) : option WishImage :=
  if bool_decide (p ∈ files) then None
  else head (base.filter (fun i => path i = p) (orphans.visible l tbl)).

(** Uploaded files in which the image of the tombstoned sample wish is
    missing. *)
Definition uploaded : gset string := {[ "wishes/1/image1.webp" ]}.

(** The columns of [wishes] as [models.Wish] declares them. *)
Definition wishes_columns : list string :=
  ["id"; "slug"; "title"; "message"; "theme"; "expires_at"; "max_views";
   "current_views"; "is_deleted"; "created_at"; "deleted_at"; "ip_hash";
   "celebration_items"].

(** * Properties *)

(** ** Running the primitives *)

Lemma execute_ok {A} (q : list Wish -> A) env w :
  store_fails env (stmts w) = false ->
  Session.execute q env w =
  (Return (q (rows w)), mkWorld (rows w) (dirs w) (tick w) (S (stmts w)) (logs w)).
Proof. intros H. unfold Session.execute. by rewrite H. Qed.

Lemma execute_down {A} (q : list Wish -> A) env w :
  store_fails env (stmts w) = true ->
  Session.execute q env w =
  (Raise OperationalError, mkWorld (rows w) (dirs w) (tick w) (S (stmts w)) (logs w)).
Proof. intros H. unfold Session.execute. by rewrite H. Qed.

Lemma mapM_url env w imgs :
  mapM Wish.url imgs env w =
  (Return ((fun img => BASE_URL env +:+ "/media/" +:+ path img) <$> imgs), w).
Proof.
  induction imgs as [|img imgs IH]; [done|].
  cbn [mapM]. unfold Wish.url in *. unfold_st. by rewrite IH.
Qed.

(** ** The table under [update_row] *)

Lemma update_row_ids o tbl : id <$> Session.update_row o tbl = id <$> tbl.
Proof.
  unfold Session.update_row. induction tbl as [|r tbl IH]; [done|].
  cbn. rewrite IH. f_equal. destruct (decide (id r = id o)); congruence.
Qed.

Lemma update_row_fresh o tbl : id o ∉ (id <$> tbl) -> Session.update_row o tbl = tbl.
Proof.
  unfold Session.update_row. induction tbl as [|r tbl IH]; [done|].
  cbn. intros H. apply not_elem_of_cons in H as [H1 H2].
  rewrite IH by done. f_equal. destruct (decide (id r = id o)); congruence.
Qed.

(** Writing back an object read from the row for [slug] leaves it the row
    for [slug]. *)
Lemma update_row_first (s : string) o r tbl :
  NoDup (id <$> tbl) ->
  head (base.filter (fun x => slug x = s) tbl) = Some r ->
  id o = id r -> slug o = slug r ->
  head (base.filter (fun x => slug x = s) (Session.update_row o tbl)) = Some o.
Proof.
  induction tbl as [|x tbl IH]; [done|].
  intros Hnd Hhd Hid Hslug. cbn in Hnd. apply NoDup_cons in Hnd as [Hx Hnd].
  change (Session.update_row o (x :: tbl))
    with ((if decide (id x = id o) then o else x) :: Session.update_row o tbl).
  rewrite filter_cons in Hhd. case_decide as Hs.
  - cbn in Hhd. simplify_eq. rewrite decide_True by done.
    rewrite filter_cons, decide_True by congruence. done.
  - assert (r ∈ tbl) as Hin.
    { apply (list_elem_of_filter (fun x => slug x = s) tbl r).
      destruct (base.filter _ tbl); [done|]. cbn in Hhd. simplify_eq. left. }
    assert (id x <> id o) as Hne.
    { intros Heq. apply Hx. rewrite Heq, Hid. by apply list_elem_of_fmap_2. }
    rewrite decide_False by done. rewrite filter_cons, decide_False by done.
    by apply IH.
Qed.

Lemma delete_rows_nil tbl : Session.delete_rows [] tbl = tbl.
Proof.
  unfold Session.delete_rows. induction tbl as [|r tbl IH]; [done|].
  rewrite filter_cons, decide_True by (cbn; apply not_elem_of_nil). by rewrite IH.
Qed.

Lemma commit_dirty_ok env w o :
  store_fails env (stmts w) = false ->
  Session.commit [o] [] env w =
  (Return tt, mkWorld (Session.update_row o (rows w)) (dirs w) (tick w)
                      (S (stmts w)) (logs w)).
Proof.
  intros H. unfold Session.commit. rewrite H. cbn [foldr].
  by rewrite delete_rows_nil.
Qed.

Lemma commit_down env w dirty gone :
  store_fails env (stmts w) = true ->
  Session.commit dirty gone env w =
  (Raise OperationalError,
   mkWorld (rows w) (dirs w) (tick w) (S (stmts w)) (logs w)).
Proof. intros H. unfold Session.commit. by rewrite H. Qed.

Lemma evaluate_expired_type now r :
  expiry.is_expired (expiry.evaluate now r) = true ->
  exists t, expiry.expiry_type (expiry.evaluate now r) = Some t.
Proof.
  unfold expiry.evaluate.
  repeat (match goal with |- context [if ?b then _ else _] => destruct b end);
    cbn; eauto; discriminate.
Qed.

Lemma view_wish_case env w s :
  view_case env w s (wishes.view_wish s env w).1 (wishes.view_wish s env w).2.
Proof.
  unfold wishes.view_wish, Session.query_first. unfold_st.
  destruct (store_fails env (stmts w)) eqn:Hq.
  { rewrite execute_down by done. by apply view_store_down. }
  rewrite execute_ok by done.
  change (head (base.filter (fun x => slug x = s) (rows w))) with (resolve s (rows w)).
  destruct (resolve s (rows w)) as [r|] eqn:Hr; [| by apply view_absent].
  destruct (is_deleted r) eqn:Hdel; [by eapply view_tombstoned|].
  unfold expiry.check_expiry. unfold_st. cbn [tick rows stmts dirs logs].
  destruct (expiry.is_expired _) eqn:Hexp.
  - destruct (evaluate_expired_type _ _ Hexp) as [t Ht].
    unfold Wish.soft_delete. unfold_st. cbn [tick rows stmts dirs logs].
    destruct (store_fails env (S (stmts w))) eqn:Hc.
    + rewrite commit_down by done. by eapply view_expired_lost.
    + rewrite commit_dirty_ok by done. unfold expiry.expiry_type_value.
      rewrite Ht. unfold_st. by eapply view_expired.
  - destruct (store_fails env (S (stmts w))) eqn:Hc.
    + destruct (expiry.should_soft_delete _); unfold Wish.soft_delete; unfold_st;
        cbn [tick rows stmts dirs logs];
        rewrite commit_down by done; by eapply view_lost.
    + pose proof (view_counted env w s r) as Hk. unfold counted in Hk.
      destruct (expiry.should_soft_delete _); unfold Wish.soft_delete; unfold_st;
        cbn [tick rows stmts dirs logs];
        rewrite commit_dirty_ok by done; rewrite mapM_url;
        cbn [tick rows stmts dirs logs fst snd];
        cbn [max_views current_views title message theme images
             set_deleted set_current_views];
        (destruct (max_views r) as [m|]; [destruct (decide (m = 0))|]);
        by apply Hk.
Qed.

Lemma view_wish_tombstoned env w s r :
  store_fails env (stmts w) = false ->
  resolve s (rows w) = Some r -> is_deleted r = true ->
  (wishes.view_wish s env w).1 = Raise Gone /\
  rows (wishes.view_wish s env w).2 = rows w.
Proof.
  intros Hok Hr Hd. pose proof (view_wish_case env w s) as Hv.
  destruct (wishes.view_wish s env w) as [res w']. cbn [fst snd] in *.
  inversion Hv; subst; first [congruence | done].
Qed.

Lemma view_wish_counted env w s r :
  store_fails env (stmts w) = false ->
  store_fails env (S (stmts w)) = false ->
  resolve s (rows w) = Some r -> is_deleted r = false ->
  expiry.is_expired (expiry.evaluate (utcnow_at env (tick w)) r) = false ->
  (wishes.view_wish s env w).1 =
    Return (view_response env r
              (match max_views r with
               | Some m => if decide (m = 0) then None
                           else Some (Z.max 0 (m - (current_views r + 1)))
               | None => None
               end)) /\
  rows (wishes.view_wish s env w).2 =
    Session.update_row (counted (utcnow_at env (S (tick w))) r) (rows w).
Proof.
  intros Hok Hc Hr Hd Hex. pose proof (view_wish_case env w s) as Hv.
  destruct (wishes.view_wish s env w) as [res w']. cbn [fst snd] in *.
  inversion Hv; subst; try congruence.
  assert (r0 = r) as -> by congruence. done.
Qed.


Lemma delete_wish_case env w s :
  delete_case env w s (wishes.delete_wish s env w).1 (wishes.delete_wish s env w).2.
Proof.
  unfold wishes.delete_wish, Session.query_first. unfold_st.
  destruct (store_fails env (stmts w)) eqn:Hq.
  { rewrite execute_down by done. by apply delete_store_down. }
  rewrite execute_ok by done.
  change (head (base.filter (fun x => slug x = s) (rows w))) with (resolve s (rows w)).
  destruct (resolve s (rows w)) as [r|] eqn:Hr; [| by apply delete_absent].
  destruct (is_deleted r) eqn:Hdel; [by eapply delete_tombstoned|].
  unfold Wish.soft_delete. unfold_st. cbn [tick rows stmts dirs logs].
  destruct (store_fails env (S (stmts w))) eqn:Hc.
  - rewrite commit_down by done. by eapply delete_lost.
  - rewrite commit_dirty_ok by done. by eapply delete_done.
Qed.

Lemma get_wish_status_case env w s :
  status_case env w s (wishes.get_wish_status s env w).1 /\
  rows (wishes.get_wish_status s env w).2 = rows w /\
  dirs (wishes.get_wish_status s env w).2 = dirs w /\
  stmts (wishes.get_wish_status s env w).2 = S (stmts w).
Proof.
  unfold wishes.get_wish_status, Session.query_first. unfold_st.
  destruct (store_fails env (stmts w)) eqn:Hq.
  { rewrite execute_down by done. split; [by apply status_store_down | done]. }
  rewrite execute_ok by done.
  change (head (base.filter (fun x => slug x = s) (rows w))) with (resolve s (rows w)).
  destruct (resolve s (rows w)) as [r|] eqn:Hr;
    [| split; [by apply status_absent | done]].
  destruct (is_deleted r) eqn:Hdel;
    [split; [by eapply status_tombstoned | done]|].
  unfold expiry.check_expiry. unfold_st. cbn [tick rows stmts dirs logs].
  pose proof (status_live env w s r Hq Hr Hdel) as Hl.
  destruct (expiry.is_expired _) eqn:Hexp.
  - destruct (evaluate_expired_type _ _ Hexp) as [t Ht].
    unfold expiry.expiry_type_value. rewrite Ht in *. unfold_st.
    split; [exact Hl | done].
  - assert (expiry.expiry_type (expiry.evaluate (utcnow_at env (tick w)) r) = None)
      as Hn.
    { revert Hexp. unfold expiry.evaluate.
      repeat (match goal with |- context [if ?b then _ else _] => destruct b end);
        cbn; done. }
    rewrite Hn in Hl. split; [exact Hl | done].
Qed.

(** ** The sweep, one candidate at a time *)

Lemma NoDup_fmap_filter {A B} (f : A -> B) (P : A -> Prop)
    `{!forall x, Decision (P x)} (l : list A) :
  NoDup (f <$> l) -> NoDup (f <$> base.filter P l).
Proof.
  intros Hnd. eapply sublist_NoDup; [exact Hnd|].
  apply fmap_sublist, sublist_filter.
Qed.

Lemma purge_run env w l x :
  exists w' l',
    cleanup.purge x env (w, l) = (Return tt, (w', l')) /\
    rows w' = rows w /\ stmts w' = stmts w /\ tick w' = tick w /\
    (forall i, i <> id x -> (i ∈ dirs w' <-> i ∈ dirs w)) /\
    (row_goes env x -> rmtree_fails env (id x) = false -> id x ∉ dirs w') /\
    cleanup.errors_count l' = cleanup.errors_count l + item_errors env (dirs w) x /\
    cleanup.wishes_deleted l' =
      cleanup.wishes_deleted l + (if decide (row_goes env x) then 1 else 0) /\
    cleanup.images_deleted l' =
      cleanup.images_deleted l +
      (if decide (row_goes env x) then Z.of_nat (length (images x)) else 0) /\
    cleanup.session_deleted l' =
      cleanup.session_deleted l ++ (if decide (row_goes env x) then [x] else []).
Proof.
  unfold cleanup.purge, fs.get_wish_upload_path, fs.path_exists, fs.rmtree,
    cleanup.db_delete, item_errors.
  unfold_st.
  destruct (decide (row_goes env x)) as [[Hp Hdel]|Hn].
  - rewrite Hp.
    destruct (bool_decide (id x ∈ dirs w)) eqn:Hd;
      destruct (rmtree_fails env (id x)) eqn:Hr;
      rewrite Hdel;
      (eexists _, _; split; [reflexivity|]; cbn;
       repeat split; try done; try lia;
       try (apply bool_decide_eq_false in Hd; done);
       try set_solver).
  - destruct (path_fails env (id x)) eqn:Hp.
    { eexists _, _. split; [reflexivity|]. cbn.
      repeat split; try done; try lia. by rewrite app_nil_r. }
    destruct (delete_fails env (id x)) eqn:Hdel; [| by destruct Hn].
    destruct (bool_decide (id x ∈ dirs w)) eqn:Hd;
      destruct (rmtree_fails env (id x)) eqn:Hr;
      (eexists _, _; split; [reflexivity|]; cbn;
       repeat split; try done; try lia;
       try (by rewrite app_nil_r);
       try set_solver).
Qed.

Lemma item_errors_dirs env ds ds' x :
  (id x ∈ ds' <-> id x ∈ ds) -> item_errors env ds' x = item_errors env ds x.
Proof.
  intros H. unfold item_errors.
  by rewrite (bool_decide_ext _ _ H).
Qed.

Lemma purge_loop env cands : forall w l,
  exists w' l',
    for_each cands cleanup.purge env (w, l) = (Return tt, (w', l')) /\
    rows w' = rows w /\ stmts w' = stmts w /\ tick w' = tick w /\
    cleanup.wishes_deleted l' =
      cleanup.wishes_deleted l + Z.of_nat (length (base.filter (row_goes env) cands)) /\
    cleanup.images_deleted l' =
      cleanup.images_deleted l +
      sum_Z ((fun r => Z.of_nat (length (images r))) <$> base.filter (row_goes env) cands) /\
    cleanup.session_deleted l' =
      cleanup.session_deleted l ++ base.filter (row_goes env) cands /\
    (NoDup (id <$> cands) ->
     (forall i, i ∉ (id <$> cands) -> (i ∈ dirs w' <-> i ∈ dirs w)) /\
     (forall x, x ∈ cands -> row_goes env x -> rmtree_fails env (id x) = false ->
                id x ∉ dirs w') /\
     cleanup.errors_count l' =
       cleanup.errors_count l + sum_Z (item_errors env (dirs w) <$> cands)).
Proof.
  induction cands as [|x cands IH]; intros w l.
  { exists w, l. rewrite filter_nil. cbn [for_each fmap list_fmap sum_Z foldr length].
    split; [done|]. do 3 (split; [done|]). do 2 (split; [lia|]).
    split; [by rewrite app_nil_r|]. intros _. split; [done|]. split; [|lia].
    intros x Hx. by apply elem_of_nil in Hx. }
  destruct (purge_run env w l x)
    as (w1 & l1 & Hrun & Hrows & Hst & Htk & Hdirs & Hgone & He & Hw & Hi & Hs).
  destruct (IH w1 l1)
    as (w2 & l2 & Hrun2 & Hrows2 & Hst2 & Htk2 & Hw2 & Hi2 & Hs2 & Hnd2).
  exists w2, l2.
  split.
  { cbn [for_each]. unfold mbind, ST_bind. rewrite Hrun. exact Hrun2. }
  rewrite filter_cons. cbn [fmap list_fmap sum_Z foldr].
  change (foldr Z.add 0) with sum_Z.
  do 3 (split; [congruence|]).
  split.
  { rewrite Hw2, Hw. destruct (decide (row_goes env x)); cbn [length]; lia. }
  split.
  { rewrite Hi2, Hi. destruct (decide (row_goes env x));
      cbn [fmap list_fmap sum_Z foldr]; change (foldr Z.add 0) with sum_Z; lia. }
  split.
  { rewrite Hs2, Hs. destruct (decide (row_goes env x)).
    - by rewrite <- app_assoc.
    - by rewrite app_nil_r. }
  intros Hnd. apply NoDup_cons in Hnd as [Hx Hnd].
  destruct (Hnd2 Hnd) as (Hdirs2 & Hgone2 & He2).
  assert (item_errors env (dirs w1) <$> cands = item_errors env (dirs w) <$> cands)
    as Hsame.
  { apply list_fmap_ext. intros k y Hy. apply item_errors_dirs, Hdirs.
    intros Heq. apply Hx. rewrite <- Heq.
    apply list_elem_of_fmap_2. by eapply list_elem_of_lookup_2. }
  split; [| split].
  - intros i Hi'. apply not_elem_of_cons in Hi' as [Hne Hi'].
    rewrite Hdirs2 by done. by apply Hdirs.
  - intros y Hy Hg Hr. apply elem_of_cons in Hy as [->|Hy].
    + rewrite Hdirs2 by done. by apply Hgone.
    + by apply Hgone2.
  - rewrite He2, He, Hsame. lia.
Qed.

Lemma purge_loop_dirs env cands : forall w l i,
  i ∉ (id <$> cands) ->
  (i ∈ dirs (for_each cands cleanup.purge env (w, l)).2.1 <-> i ∈ dirs w).
Proof.
  induction cands as [|x cands IH]; intros w l i Hi; [done|].
  cbn in Hi. apply not_elem_of_cons in Hi as [Hne Hi].
  destruct (purge_run env w l x) as (w1 & l1 & Hrun & _ & _ & _ & Hdirs & _).
  cbn [for_each]. unfold mbind, ST_bind. rewrite Hrun.
  rewrite (IH w1 l1 i Hi). by apply Hdirs.
Qed.

Lemma cleanup_expired_wishes_case env w :
  sweep_case env w (cleanup.cleanup_expired_wishes env w).1
                   (cleanup.cleanup_expired_wishes env w).2.
Proof.
  unfold cleanup.cleanup_expired_wishes, Session.select_all. unfold_st.
  cbn [tick rows stmts dirs logs].
  destruct (store_fails env (stmts w)) eqn:Hq.
  { unfold Session.execute. cbn [tick rows stmts dirs logs]. rewrite Hq.
    by apply sweep_store_down. }
  unfold Session.execute. cbn [tick rows stmts dirs logs]. rewrite Hq.
  fold (cutoff_at env w).
  set (cands := base.filter (cleanup.purgeable (cutoff_at env w)) (rows w)).
  destruct (purge_loop env cands
              (mkWorld (rows w) (dirs w) (S (tick w)) (S (stmts w)) (logs w))
              (cleanup.mkLocals 0 0 0 []))
    as (w1 & l1 & Hrun & Hrows & Hst & Htk & Hw & Hi & Hs & Hnd).
  rewrite Hrun. cbn [tick rows stmts dirs logs] in *.
  cbn [cleanup.wishes_deleted cleanup.images_deleted cleanup.errors_count
       cleanup.session_deleted app] in *.
  unfold Session.commit. rewrite Hst.
  destruct (store_fails env (S (stmts w))) eqn:Hc.
  { cbn [fst snd]. apply sweep_lost; try done.
    - intros i Hnot. cbn [dirs].
      pose proof (purge_loop_dirs env cands
                    (mkWorld (rows w) (dirs w) (S (tick w)) (S (stmts w)) (logs w))
                    (cleanup.mkLocals 0 0 0 []) i Hnot) as Hsame.
      rewrite Hrun in Hsame. exact Hsame.
    - intros Hu. destruct Hnd as (_ & Hg & _); [by apply NoDup_fmap_filter|].
      exact Hg. }
  cbn [fst snd foldr]. rewrite Hw, Hi, Hs, Hrows, !Z.add_0_l.
  apply sweep_done; try done.
  intros Hu. destruct Hnd as (Hd & Hg & He).
  { by apply NoDup_fmap_filter. }
  cbn [tick rows stmts dirs logs]. rewrite He. subst cands.
  split; [lia | by split].
Qed.

(** ** What the summary can do *)

Lemma get_cleanup_summary_case env w :
  rows (cleanup.get_cleanup_summary env w).2 = rows w /\
  dirs (cleanup.get_cleanup_summary env w).2 = dirs w /\
  (forall k, (stmts w <= k < stmts (cleanup.get_cleanup_summary env w).2)%nat ->
             store_fails env k = true ->
     (cleanup.get_cleanup_summary env w).1 =
       Return (cleanup.mkSummary 0 0 0 0 (SOFT_DELETE_GRACE_PERIOD_MINUTES env)
                 (CLEANUP_INTERVAL_MINUTES env) (Some "OperationalError")) /\
     stmts (cleanup.get_cleanup_summary env w).2 = S k) /\
  ((forall k, (stmts w <= k < stmts w + 4)%nat -> store_fails env k = false) ->
     (cleanup.get_cleanup_summary env w).1 =
       Return (cleanup.mkSummary
                 (Z.of_nat (length (base.filter (cleanup.purgeable (cutoff_at env w)) (rows w))))
                 (Z.of_nat (length (base.filter (cleanup.in_grace_period (cutoff_at env w)) (rows w))))
                 (Z.of_nat (length (rows w)))
                 (Z.of_nat (length (rows w ≫= images)))
                 (SOFT_DELETE_GRACE_PERIOD_MINUTES env)
                 (CLEANUP_INTERVAL_MINUTES env) None)).
Proof.
  unfold cleanup.get_cleanup_summary, Session.select_all, Session.count_wishes,
    Session.count_images, Session.execute.
  unfold_st. cbn [tick rows stmts dirs logs]. fold (cutoff_at env w).
  repeat (cbn [fst snd tick rows stmts dirs logs Exn_str];
          match goal with
          | |- context [if store_fails env ?n then _ else _] =>
              destruct (store_fails env n) eqn:?
          end).
  all: cbn [fst snd tick rows stmts dirs logs Exn_str].
  all: split; [done|]; split; [done|]; split.
  all: try (intros k Hk Hf;
            assert (k = stmts w \/ k = S (stmts w) \/ k = S (S (stmts w)) \/
                    k = S (S (S (stmts w)))) as Hcases by lia;
            destruct Hcases as [-> | [-> | [-> | ->]]];
            first [congruence | split; [done | lia] | lia]).
  all: try (intros Hok;
            match goal with
            | H : store_fails _ ?n = true |- _ => rewrite Hok in H by lia; done
            end).
  done.
Qed.

(** ** The table and the slug lookup *)

Lemma resolve_Some s tbl r : resolve s tbl = Some r -> slug r = s /\ r ∈ tbl.
Proof.
  unfold resolve. intros H.
  apply head_Some_elem_of, list_elem_of_filter in H. tauto.
Qed.

Lemma resolve_None s tbl : resolve s tbl = None -> forall r, r ∈ tbl -> slug r <> s.
Proof.
  unfold resolve. intros H r Hr Hs. apply head_None in H.
  exact (filter_nil_not_elem_of (fun x => slug x = s) tbl r H Hs Hr).
Qed.

Lemma unique_ids_update o tbl : unique_ids tbl -> unique_ids (Session.update_row o tbl).
Proof. unfold unique_ids. by rewrite update_row_ids. Qed.

Lemma unique_ids_delete gone tbl : unique_ids tbl -> unique_ids (Session.delete_rows gone tbl).
Proof. unfold unique_ids, Session.delete_rows. apply NoDup_fmap_filter. Qed.

Lemma sample_unique_ids : unique_ids (rows sample.world).
Proof. apply (bool_decide_unpack _). by vm_compute. Qed.

Lemma sample_unique_slugs : unique_slugs (rows sample.world).
Proof. apply (bool_decide_unpack _). by vm_compute. Qed.

(** ** C5 *)

(** C5: the expiry properties of [Wish] are functions of [expires_at],
    [max_views], [current_views] and the clock reading alone, and change
    nothing but the count of clock readings; a wish is expired by time
    exactly when [expires_at] is set and the reading is strictly after it,
    expired by views exactly when [max_views] is set and
    [current_views >= max_views], and expired exactly when one of the two
    holds. *)
Theorem is_expired_spec :
  (exists f : option Z -> option Z -> Z -> Z -> bool,
     forall env w r,
       (Wish.is_expired r env w).1 =
       Return (f (expires_at r) (max_views r) (current_views r)
                 (utcnow_at env (tick w)))) /\
  (forall env w r,
     rows (Wish.is_expired r env w).2 = rows w /\
     dirs (Wish.is_expired r env w).2 = dirs w /\
     stmts (Wish.is_expired r env w).2 = stmts w /\
     logs (Wish.is_expired r env w).2 = logs w) /\
  (forall env w r,
     exists b, (Wish.is_expired_by_time r env w).1 = Return b /\
               (b = true <->
                exists e, expires_at r = Some e /\ utcnow_at env (tick w) > e)) /\
  (forall r,
     Wish.is_expired_by_views r = true <->
     exists m, max_views r = Some m /\ current_views r >= m) /\
  (forall env w r,
     exists b bt,
       (Wish.is_expired r env w).1 = Return b /\
       (Wish.is_expired_by_time r env w).1 = Return bt /\
       (b = true <-> bt = true \/ Wish.is_expired_by_views r = true)).
Proof.
  assert (forall r, Wish.is_expired_by_views r = true <->
                    exists m, max_views r = Some m /\ current_views r >= m) as Hviews.
  { intros r. unfold Wish.is_expired_by_views.
    destruct (max_views r) as [m|]; split.
    - intros H. apply bool_decide_eq_true in H. exists m. split; [done | lia].
    - intros (m' & [= <-] & H). apply bool_decide_eq_true. lia.
    - discriminate.
    - intros (m' & [=] & _). }
  split; [| split; [| split; [| split]]].
  - exists (fun e m c now =>
              if match e with Some e => bool_decide (e < now) | None => false end
              then true
              else match m with Some m => bool_decide (m <= c) | None => false end).
    intros env w r. unfold Wish.is_expired, Wish.is_expired_by_time,
      Wish.is_expired_by_views. unfold_st.
    destruct (expires_at r) as [e|]; cbn; [destruct (bool_decide (e < _))|]; done.
  - intros env w r. unfold Wish.is_expired, Wish.is_expired_by_time. unfold_st.
    destruct (expires_at r) as [e|]; cbn; [destruct (bool_decide (e < _))|]; done.
  - intros env w r. unfold Wish.is_expired_by_time. unfold_st.
    destruct (expires_at r) as [e|]; cbn.
    + eexists. split; [reflexivity|]. rewrite bool_decide_eq_true. split.
      * intros H. exists e. split; [done | lia].
      * intros (e' & [= <-] & H). lia.
    + exists false. split; [done|]. split; [done|]. intros (e' & [=] & _).
  - exact Hviews.
  - intros env w r. unfold Wish.is_expired, Wish.is_expired_by_time. unfold_st.
    destruct (expires_at r) as [e|]; cbn.
    + destruct (bool_decide (e < utcnow_at env (tick w))); cbn.
      * exists true, true. tauto.
      * exists (Wish.is_expired_by_views r), false.
        split; [done|]. split; [done|]. split; [tauto | intros [|]; done].
    + exists (Wish.is_expired_by_views r), false.
      split; [done|]. split; [done|]. split; [tauto | intros [|]; done].
Qed.

(** ** C10 *)

(** C10, as stated, fails in its last clause: a view does show that a
    tombstone exists.  It raises 410 for the tombstoned wish and 404 for a
    slug that no row has, two different outcomes; only a delete request
    answers both with the same 404. *)
Lemma view_shows_tombstone_existence :
  resolve "Qw9eRt7y" (rows sample.world) = Some sample.dead /\
  is_deleted sample.dead = true /\
  resolve "nosuchslug" (rows sample.world) = None /\
  (wishes.view_wish "Qw9eRt7y" sample.env sample.world).1 <>
    (wishes.view_wish "nosuchslug" sample.env sample.world).1 /\
  (wishes.delete_wish "Qw9eRt7y" sample.env sample.world).1 =
    (wishes.delete_wish "nosuchslug" sample.env sample.world).1.
Proof. vm_compute. repeat split. discriminate. Qed.

(** C10, amended: with the database reachable, a status request changes no
    row and no directory; it raises 404 exactly when no row has the slug;
    and for a tombstoned row it returns the dictionary with
    [exists = True], status ["deleted"] and the row's [deleted_at].  For
    the same slug a delete request raises 404 whether the row is tombstoned
    or absent, and a view raises 410 for the tombstoned row and 404 for the
    absent one: it shows that the tombstone exists, by an exception that
    does not carry [deleted_at]. *)
Theorem status_shows_tombstone env w s :
  store_fails env (stmts w) = false ->
  rows (wishes.get_wish_status s env w).2 = rows w /\
  dirs (wishes.get_wish_status s env w).2 = dirs w /\
  ((wishes.get_wish_status s env w).1 = Raise NotFound <->
   resolve s (rows w) = None) /\
  match resolve s (rows w) with
  | None =>
      (wishes.view_wish s env w).1 = Raise NotFound /\
      (wishes.delete_wish s env w).1 = Raise NotFound
  | Some r =>
      if is_deleted r then
        (wishes.get_wish_status s env w).1 =
        Return (wishes.StatusDeleted true "deleted" (deleted_at r)
                                     "Wish has expired or been deleted") /\
        (wishes.view_wish s env w).1 = Raise Gone /\
        (wishes.delete_wish s env w).1 = Raise NotFound
      else
        exists status reason,
          (wishes.get_wish_status s env w).1 =
          Return (wishes.StatusLive true status reason (Wish.remaining_views r)
                                    (expires_at r))
  end.
Proof.
  intros Hok.
  destruct (get_wish_status_case env w s) as (Hcase & Hrows & Hdirs & _).
  pose proof (view_wish_case env w s) as Hv.
  pose proof (delete_wish_case env w s) as Hx.
  split; [done|]. split; [done|].
  inversion Hcase as [Hf Hres | Hf Hn Hres | r Hf Hr Hd Hres | r Hf Hr Hd Hres];
    try congruence; rewrite ?Hn, ?Hr, ?Hd.
  - split; [done|]. split.
    + inversion Hv; congruence.
    + inversion Hx; congruence.
  - split; [split; discriminate|]. split; [done|]. split.
    + inversion Hv; congruence.
    + inversion Hx; congruence.
  - split; [|eauto]. split; discriminate.
Qed.

Lemma status_shows_tombstone_witness :
  store_fails sample.env (stmts sample.world) = false /\
  (wishes.get_wish_status "Qw9eRt7y" sample.env sample.world).1 =
    Return (wishes.StatusDeleted true "deleted" (Some 100)
                                 "Wish has expired or been deleted") /\
  (wishes.view_wish "Qw9eRt7y" sample.env sample.world).1 = Raise Gone /\
  (wishes.delete_wish "Qw9eRt7y" sample.env sample.world).1 = Raise NotFound.
Proof.
  split; [reflexivity|].
  pose proof (status_shows_tombstone sample.env sample.world "Qw9eRt7y" eq_refl)
    as (_ & _ & _ & H).
  exact H.
Defined.

(** ** C3 *)

(** C3, as stated, fails: a view of a tombstoned wish raises 410, not the
    404 that an absent slug gets. *)
Lemma tombstoned_view_is_not_404 :
  resolve "Qw9eRt7y" (rows sample.world) = Some sample.dead /\
  is_deleted sample.dead = true /\
  resolve "nosuchslug" (rows sample.world) = None /\
  (wishes.view_wish "Qw9eRt7y" sample.env sample.world).1 = Raise Gone /\
  (wishes.view_wish "nosuchslug" sample.env sample.world).1 = Raise NotFound /\
  (wishes.view_wish "Qw9eRt7y" sample.env sample.world).1 <> Raise NotFound.
Proof. vm_compute. repeat split; discriminate. Qed.

(** C3, amended: for a tombstoned wish, a view raises 410 Gone (where an
    absent slug gets 404) and a delete request raises 404, as it does for an
    absent slug; neither changes a row. *)
Theorem tombstoned_gone_or_not_found env w s s0 r :
  store_fails env (stmts w) = false ->
  resolve s (rows w) = Some r -> is_deleted r = true ->
  resolve s0 (rows w) = None ->
  (wishes.view_wish s env w).1 = Raise Gone /\
  rows (wishes.view_wish s env w).2 = rows w /\
  (wishes.view_wish s0 env w).1 = Raise NotFound /\
  (wishes.delete_wish s env w).1 = Raise NotFound /\
  rows (wishes.delete_wish s env w).2 = rows w /\
  (wishes.delete_wish s0 env w).1 = Raise NotFound.
Proof.
  intros Hok Hr Hd Hn.
  pose proof (view_wish_case env w s) as Hv.
  pose proof (view_wish_case env w s0) as Hv0.
  pose proof (delete_wish_case env w s) as Hx.
  pose proof (delete_wish_case env w s0) as Hx0.
  repeat split.
  - inversion Hv; congruence.
  - inversion Hv; congruence.
  - inversion Hv0; congruence.
  - inversion Hx; congruence.
  - inversion Hx; congruence.
  - inversion Hx0; congruence.
Qed.

Lemma tombstoned_gone_or_not_found_witness :
  store_fails sample.env (stmts sample.world) = false /\
  resolve "Qw9eRt7y" (rows sample.world) = Some sample.dead /\
  is_deleted sample.dead = true /\
  resolve "nosuchslug" (rows sample.world) = None /\
  (wishes.view_wish "Qw9eRt7y" sample.env sample.world).1 = Raise Gone /\
  (wishes.delete_wish "Qw9eRt7y" sample.env sample.world).1 = Raise NotFound /\
  (wishes.delete_wish "nosuchslug" sample.env sample.world).1 = Raise NotFound.
Proof.
  pose proof (tombstoned_gone_or_not_found sample.env sample.world
                "Qw9eRt7y" "nosuchslug" sample.dead
                eq_refl eq_refl eq_refl eq_refl)
    as (H1 & _ & _ & H2 & _ & H3).
  exact (conj eq_refl (conj eq_refl (conj eq_refl (conj eq_refl
           (conj H1 (conj H2 H3)))))).
Defined.

(** ** C2 *)

(** C2: a view of a wish that is not tombstoned and whose [expires_at] is
    strictly before the clock reading of the call raises 410 and logs the
    reason [time]; the row keeps its [current_views] and is tombstoned, with
    [deleted_at] the clock reading taken by [soft_delete]; no other row
    changes. *)
Theorem view_after_expiry_tombstones env w s r e :
  unique_ids (rows w) ->
  store_fails env (stmts w) = false ->
  store_fails env (S (stmts w)) = false ->
  resolve s (rows w) = Some r ->
  is_deleted r = false ->
  expires_at r = Some e ->
  e < utcnow_at env (tick w) ->
  (wishes.view_wish s env w).1 = Raise Gone /\
  last (logs (wishes.view_wish s env w).2) =
    Some (INFO, "Wish expired (time): " +:+ s) /\
  exists r',
    resolve s (rows (wishes.view_wish s env w).2) = Some r' /\
    rows (wishes.view_wish s env w).2 = Session.update_row r' (rows w) /\
    current_views r' = current_views r /\
    is_deleted r' = true /\
    deleted_at r' = Some (utcnow_at env (S (tick w))).
Proof.
  intros Hu Hq Hc Hr Hd He Hlt.
  assert (expiry.evaluate (utcnow_at env (tick w)) r =
          expiry.mkExpiryResult true (Some expiry.TIME)) as Hev.
  { unfold expiry.evaluate. rewrite He. by rewrite bool_decide_eq_true_2. }
  pose proof (view_wish_case env w s) as Hv.
  inversion Hv as [ | | | | r0 reason w' Hf Hr0 Hd0 Hex Hty Hc0 Hrows Hdirs Hst Hlogs
                    | | r0 w' Hf Hr0 Hd0 Hex ];
    try congruence.
  - assert (r0 = r) as -> by congruence.
    rewrite Hev in Hty. cbn in Hty. injection Hty as <-.
    split; [done|]. split.
    { rewrite Hlogs. by rewrite last_snoc. }
    eexists. split; [| split; [exact Hrows | done]].
    rewrite Hrows. by apply (update_row_first s _ r).
  - assert (r0 = r) as -> by congruence. rewrite Hev in Hex. discriminate.
Qed.

Lemma view_after_expiry_tombstones_witness :
  resolve "Lm3n0PqR" (rows sample.world) = Some sample.overdue /\
  expires_at sample.overdue = Some 999999999 /\
  999999999 < utcnow_at sample.env (tick sample.world) /\
  (wishes.view_wish "Lm3n0PqR" sample.env sample.world).1 = Raise Gone.
Proof.
  split; [reflexivity|]. split; [reflexivity|]. split; [reflexivity|].
  exact (proj1 (view_after_expiry_tombstones sample.env sample.world "Lm3n0PqR"
                  sample.overdue 999999999 sample_unique_ids eq_refl eq_refl
                  eq_refl eq_refl eq_refl eq_refl)).
Defined.

(** ** C6 *)

(** C6: a view that returns has counted itself, and, the counter not being
    negative beforehand, its [remaining_views] is
    [max 0 (max_views - current_views)] of the row as it is after the call
    when [max_views] is set, and [None] when it is not. *)
Theorem view_reports_remaining env w s r resp :
  unique_ids (rows w) ->
  resolve s (rows w) = Some r ->
  0 <= current_views r ->
  (wishes.view_wish s env w).1 = Return resp ->
  exists r',
    resolve s (rows (wishes.view_wish s env w).2) = Some r' /\
    current_views r' = current_views r + 1 /\
    max_views r' = max_views r /\
    schemas.remaining_views resp =
      match max_views r' with
      | Some m => Some (Z.max 0 (m - current_views r'))
      | None => None
      end.
Proof.
  intros Hu Hr Hnn Hres.
  pose proof (view_wish_case env w s) as Hv.
  rewrite Hres in Hv.
  inversion Hv as [ | | | | | | r0 w' Hf Hr0 Hd0 Hex Hc0 Hrows Hdirs Hst Hresp Hw' ].
  assert (r0 = r) as -> by congruence. clear Hr0.
  exists (counted (utcnow_at env (S (tick w))) r).
  split.
  { rewrite Hrows. apply (update_row_first s _ r); try done;
      unfold counted; by destruct (expiry.should_soft_delete _). }
  assert (current_views (counted (utcnow_at env (S (tick w))) r) = current_views r + 1
          /\ max_views (counted (utcnow_at env (S (tick w))) r) = max_views r)
    as [Hcv Hmv].
  { unfold counted; by destruct (expiry.should_soft_delete _). }
  split; [done|]. split; [done|].
  rewrite Hmv, Hcv. unfold view_response. cbn [schemas.remaining_views].
  destruct (max_views r) as [m|] eqn:Hm; [|done].
  destruct (decide (m = 0)) as [->|]; [|done].
  exfalso. revert Hex. unfold expiry.evaluate. rewrite Hm.
  destruct (match expires_at r with Some _ => _ | None => _ end); [done|].
  rewrite bool_decide_eq_true_2 by lia. done.
Qed.

Lemma view_reports_remaining_witness :
  resolve "Zx81mQp0" (rows sample.world) = Some sample.thrice /\
  0 <= current_views sample.thrice /\
  (wishes.view_wish "Zx81mQp0" sample.env sample.world).1 =
    Return (view_response sample.env sample.thrice (Some 2)) /\
  exists r',
    resolve "Zx81mQp0"
      (rows (wishes.view_wish "Zx81mQp0" sample.env sample.world).2) = Some r' /\
    current_views r' = current_views sample.thrice + 1 /\
    max_views r' = max_views sample.thrice /\
    schemas.remaining_views (view_response sample.env sample.thrice (Some 2)) =
      match max_views r' with
      | Some m => Some (Z.max 0 (m - current_views r'))
      | None => None
      end.
Proof.
  split; [reflexivity|]. split; [vm_compute; discriminate|].
  split; [vm_compute; reflexivity|].
  apply (view_reports_remaining sample.env sample.world "Zx81mQp0" sample.thrice
           _ sample_unique_ids eq_refl).
  - vm_compute; discriminate.
  - vm_compute; reflexivity.
Defined.

(** ** C1 *)

Lemma run_op_view env w s :
  run_op (View s) env w =
  (match (wishes.view_wish s env w).1 with
   | Return r => Return (Viewed r)
   | Raise e => Raise e
   end, (wishes.view_wish s env w).2).
Proof.
  unfold run_op. unfold_st.
  by destruct (wishes.view_wish s env w) as [[r|e] w'].
Qed.

Lemma run_ops_cons op ops env w :
  run_ops (op :: ops) env w =
  ((run_op op env w).1 :: (run_ops ops env (run_op op env w).2).1,
   (run_ops ops env (run_op op env w).2).2).
Proof.
  cbn [run_ops]. destruct (run_op op env w) as [r w1]. cbn [fst snd].
  by destruct (run_ops ops env w1).
Qed.

(** Views of a tombstoned wish all raise 410 and change no row. *)
Lemma views_of_tombstoned env s k : forall w r,
  (forall n, store_fails env n = false) ->
  resolve s (rows w) = Some r -> is_deleted r = true ->
  (run_ops (replicate k (View s)) env w).1 = replicate k (Raise Gone) /\
  rows (run_ops (replicate k (View s)) env w).2 = rows w.
Proof.
  induction k as [|k IH]; intros w r Hok Hr Hd; [done|].
  cbn [replicate]. rewrite run_ops_cons, run_op_view. cbn [fst snd].
  destruct (view_wish_tombstoned env w s r (Hok _) Hr Hd) as [Hres Hrows].
  rewrite Hres.
  destruct (IH (wishes.view_wish s env w).2 r Hok) as [H1 H2];
    [by rewrite Hrows | done |].
  rewrite H1, H2. by rewrite Hrows.
Qed.

Lemma counted_fields now r :
  id (counted now r) = id r /\ slug (counted now r) = slug r /\
  max_views (counted now r) = max_views r /\
  expires_at (counted now r) = expires_at r /\
  current_views (counted now r) = current_views r + 1 /\
  is_deleted (counted now r) =
    (is_deleted r || expiry.should_soft_delete (set_current_views (current_views r + 1) r)) /\
  forall env o, view_response env (counted now r) o = view_response env r o.
Proof.
  unfold counted. destruct (expiry.should_soft_delete _); cbn;
    rewrite ?orb_true_r, ?orb_false_r; done.
Qed.

Lemma views_run env s N :
  (forall n, store_fails env n = false) ->
  forall k w r,
    unique_ids (rows w) ->
    resolve s (rows w) = Some r ->
    max_views r = Some N -> is_deleted r = false ->
    0 <= current_views r < N ->
    (forall e n, expires_at r = Some e -> utcnow_at env n <= e) ->
    (run_ops (replicate k (View s)) env w).1 =
      (fun j : nat =>
         if decide (current_views r + Z.of_nat j < N)
         then Return (Viewed (view_response env r
                                (Some (N - (current_views r + Z.of_nat j) - 1))))
         else Raise Gone) <$> seq 0 k /\
    exists r',
      resolve s (rows (run_ops (replicate k (View s)) env w).2) = Some r' /\
      current_views r' = Z.min N (current_views r + Z.of_nat k) /\
      is_deleted r' = bool_decide (N <= current_views r + Z.of_nat k).
Proof.
  intros Hok. induction k as [|k IH]; intros w r Hu Hr Hm Hd Hcv Ht.
  { split; [done|]. exists r. cbn [replicate run_ops snd].
    split; [done|]. split; [lia|].
    rewrite Hd. symmetry. apply bool_decide_eq_false. lia. }
  cbn [replicate]. rewrite run_ops_cons, run_op_view. cbn [fst snd].
  assert (expiry.is_expired (expiry.evaluate (utcnow_at env (tick w)) r) = false)
    as Hlive.
  { unfold expiry.evaluate. rewrite Hm.
    destruct (expires_at r) as [e|] eqn:He.
    - rewrite bool_decide_eq_false_2 by (specialize (Ht e (tick w) eq_refl); lia).
      by rewrite bool_decide_eq_false_2 by lia.
    - by rewrite bool_decide_eq_false_2 by lia. }
  destruct (view_wish_counted env w s r (Hok _) (Hok _) Hr Hd Hlive) as [Hres Hrows].
  rewrite Hres. set (w' := (wishes.view_wish s env w).2) in *.
  set (r1 := counted (utcnow_at env (S (tick w))) r) in *.
  destruct (counted_fields (utcnow_at env (S (tick w))) r)
    as (Hid & Hslug & Hmax & Hexp & Hcount & Hdel & Hresp).
  fold r1 in Hid, Hslug, Hmax, Hexp, Hcount, Hdel, Hresp.
  assert (resolve s (rows w') = Some r1) as Hr1.
  { rewrite Hrows. by apply (update_row_first s _ r). }
  assert (unique_ids (rows w')) as Hu1.
  { rewrite Hrows. by apply unique_ids_update. }
  assert (is_deleted r1 = bool_decide (N <= current_views r + 1)) as Hdel1.
  { rewrite Hdel, Hd. unfold expiry.should_soft_delete. cbn. by rewrite Hm. }
  assert (Return (Viewed (view_response env r
                   (match max_views r with
                    | Some m => if decide (m = 0) then None
                                else Some (Z.max 0 (m - (current_views r + 1)))
                    | None => None
                    end))) =
          (if decide (current_views r + Z.of_nat 0 < N)
           then Return (Viewed (view_response env r
                                  (Some (N - (current_views r + Z.of_nat 0) - 1))))
           else Raise Gone)) as Hhead.
  { rewrite Hm, decide_False by lia. rewrite decide_True by lia.
    rewrite Z.max_r by lia. do 4 f_equal. lia. }
  rewrite Hhead. clear Hhead.
  change (seq 0 (S k)) with (0%nat :: seq 1 k).
  rewrite fmap_cons, <- fmap_S_seq, <- list_fmap_compose.
  destruct (decide (current_views r + 1 < N)) as [Hlt|Hge].
  - destruct (IH w' r1 Hu1 Hr1) as (Hres1 & r' & Hr' & Hcv' & Hd');
      [congruence | rewrite Hdel1; apply bool_decide_eq_false; lia | lia
       | intros e n He; apply Ht; congruence |].
    split.
    + f_equal. rewrite Hres1. apply list_fmap_ext. intros i j _. cbn.
      rewrite Hcount, Hresp.
      replace (current_views r + 1 + Z.of_nat j)
        with (current_views r + Z.of_nat (S j)) by lia.
      done.
    + exists r'. split; [done|]. split; [lia|].
      rewrite Hd'. apply bool_decide_ext. lia.
  - destruct (views_of_tombstoned env s k w' r1 Hok Hr1) as [Hres1 Hrows1];
      [rewrite Hdel1; apply bool_decide_eq_true; lia|].
    split.
    + f_equal. rewrite Hres1.
      transitivity ((fun _ : nat => @Raise Response Gone) <$> seq 0 k).
      * clear. generalize 0%nat. induction k as [|k IH]; intros n; [done|].
        cbn. f_equal. apply IH.
      * apply list_fmap_ext. intros i j _. cbn.
        rewrite decide_False by lia. done.
    + exists r1. split; [by rewrite Hrows1|]. split; [lia|].
      rewrite Hdel1. apply bool_decide_ext. lia.
Qed.

(** C1: for a wish created with [max_views = N] (at least 1, as the schema of
    a creation request demands) whose [expires_at] is unset or never before
    the clock, and with the database reachable, [k] views in a row give: the
    [j]-th (counting from 0) returns, with [remaining_views = N - j - 1], as
    long as [j < N], and raises 410 from [j = N] on; after them the row has
    counted [min N k] views and is tombstoned exactly when [N <= k].  For
    [N = 1] the first view returns [remaining_views = 0] and leaves the row
    tombstoned. *)
Theorem views_succeed_exactly_max_views env w s r N k :
  unique_ids (rows w) ->
  (forall n, store_fails env n = false) ->
  resolve s (rows w) = Some r ->
  max_views r = Some N -> 1 <= N ->
  current_views r = 0 -> is_deleted r = false ->
  (forall e n, expires_at r = Some e -> utcnow_at env n <= e) ->
  (run_ops (replicate k (View s)) env w).1 =
    (fun j : nat =>
       if decide (Z.of_nat j < N)
       then Return (Viewed (view_response env r (Some (N - Z.of_nat j - 1))))
       else Raise Gone) <$> seq 0 k /\
  exists r',
    resolve s (rows (run_ops (replicate k (View s)) env w).2) = Some r' /\
    current_views r' = Z.min N (Z.of_nat k) /\
    is_deleted r' = bool_decide (N <= Z.of_nat k).
Proof.
  intros Hu Hok Hr Hm HN Hc Hd Ht.
  destruct (views_run env s N Hok k w r Hu Hr Hm Hd) as (Hres & r' & Hr' & Hcv & Hdel);
    [lia | done |].
  rewrite Hc in *. split.
  - rewrite Hres. apply list_fmap_ext. intros i j _. cbn.
    rewrite !Z.add_0_l. done.
  - exists r'. rewrite Z.add_0_l in Hcv, Hdel. done.
Qed.

Lemma views_succeed_exactly_max_views_witness :
  resolve "8Fk2QaL9" (rows sample.world) = Some sample.once /\
  max_views sample.once = Some 1 /\
  (run_ops (replicate 3 (View "8Fk2QaL9")) sample.env sample.world).1 =
    [Return (Viewed (view_response sample.env sample.once (Some 0)));
     Raise Gone; Raise Gone] /\
  exists r',
    resolve "8Fk2QaL9"
      (rows (run_ops (replicate 3 (View "8Fk2QaL9")) sample.env sample.world).2) =
      Some r' /\
    current_views r' = Z.min 1 (Z.of_nat 3) /\
    is_deleted r' = bool_decide (1 <= Z.of_nat 3).
Proof.
  split; [reflexivity|]. split; [reflexivity|].
  apply (views_succeed_exactly_max_views sample.env sample.world "8Fk2QaL9"
           sample.once 1 3 sample_unique_ids).
  - intros n. reflexivity.
  - reflexivity.
  - reflexivity.
  - lia.
  - reflexivity.
  - reflexivity.
  - intros e n He. discriminate He.
Defined.

(** ** C7 *)

Lemma NoDup_fmap_elem_inj {A B} (f : A -> B) (l : list A) x y :
  NoDup (f <$> l) -> x ∈ l -> y ∈ l -> f x = f y -> x = y.
Proof.
  induction l as [|a l IH]; intros Hnd Hx Hy Hf.
  { by apply elem_of_nil in Hx. }
  cbn in Hnd. apply NoDup_cons in Hnd as [Ha Hnd].
  apply elem_of_cons in Hx as [->|Hx]; apply elem_of_cons in Hy as [->|Hy].
  - done.
  - exfalso. apply Ha. rewrite Hf. by apply list_elem_of_fmap_2.
  - exfalso. apply Ha. rewrite <- Hf. by apply list_elem_of_fmap_2.
  - by apply IH.
Qed.

Lemma filter_ext_elem {A} (P Q : A -> Prop)
    `{!forall x, Decision (P x)} `{!forall x, Decision (Q x)} (l : list A) :
  (forall x, x ∈ l -> (P x <-> Q x)) -> base.filter P l = base.filter Q l.
Proof.
  induction l as [|a l IH]; intros Hext; [done|].
  rewrite !filter_cons.
  rewrite IH by (intros x Hx; apply Hext; by right).
  destruct (decide (P a)) as [Hp|Hp]; destruct (decide (Q a)) as [Hq|Hq];
    try done; exfalso; apply (Hext a) in Hp || apply (Hext a) in Hq;
    (done || left).
Qed.

(** Deleting the rows a [where] clause selected leaves the rows it did not
    select. *)
Lemma delete_rows_selected (P : Wish -> Prop) `{!forall x, Decision (P x)} tbl :
  unique_ids tbl ->
  Session.delete_rows (base.filter P tbl) tbl = base.filter (fun r => ~ P r) tbl.
Proof.
  intros Hu. unfold Session.delete_rows. apply filter_ext_elem.
  intros x Hx. split.
  - intros Hid Hp. apply Hid. apply list_elem_of_fmap_2.
    by apply list_elem_of_filter.
  - intros Hnp Hid. apply list_elem_of_fmap in Hid as (y & Hxy & Hy).
    apply list_elem_of_filter in Hy as [Hpy Hy].
    by rewrite (NoDup_fmap_elem_inj id tbl x y Hu Hx Hy Hxy) in Hnp.
Qed.

Lemma filter_all {A} (P : A -> Prop) `{!forall x, Decision (P x)} (l : list A) :
  (forall x, x ∈ l -> P x) -> base.filter P l = l.
Proof.
  induction l as [|a l IH]; intros Hall; [done|].
  rewrite filter_cons, decide_True by (apply Hall; left).
  rewrite IH; [done|]. intros x Hx. apply Hall. by right.
Qed.

(** C7, as stated, fails: a wish tombstoned exactly at the cutoff
    ([deleted_at = now - grace period]) is left in the table. *)
Lemma sweep_keeps_wish_at_cutoff :
  is_deleted sample.at_cutoff = true /\
  deleted_at sample.at_cutoff = Some (cutoff_at sample.env sample.world) /\
  (cleanup.cleanup_expired_wishes sample.env sample.world).1 = Return (1, 1, 0) /\
  rows (cleanup.cleanup_expired_wishes sample.env sample.world).2 =
    [sample.once; sample.thrice; sample.at_cutoff; sample.overdue].
Proof. vm_compute. repeat split. Qed.

(** C7, amended: when neither the database nor the handling of a row fails,
    the sweep removes exactly the wishes with [is_deleted = true] and
    [deleted_at < now - grace period] (strictly); every other row, tombstoned
    at or after the cutoff or not tombstoned, stays as it is and in its
    place. *)
Theorem sweep_removes_exactly_before_cutoff env w :
  unique_ids (rows w) ->
  store_fails env (stmts w) = false ->
  store_fails env (S (stmts w)) = false ->
  (forall r, r ∈ rows w -> row_goes env r) ->
  rows (cleanup.cleanup_expired_wishes env w).2 =
    base.filter (fun r => ~ cleanup.purgeable (cutoff_at env w) r) (rows w) /\
  forall r,
    r ∈ rows (cleanup.cleanup_expired_wishes env w).2 <->
    r ∈ rows w /\
    ~ (is_deleted r = true /\ exists d, deleted_at r = Some d /\ d < cutoff_at env w).
Proof.
  intros Hu Hq Hc Hgo.
  pose proof (cleanup_expired_wishes_case env w) as Hs.
  destruct (cleanup.cleanup_expired_wishes env w) as [res w']. cbn [fst snd] in *.
  assert (rows w' =
          base.filter (fun r => ~ cleanup.purgeable (cutoff_at env w) r) (rows w)) as Hrows.
  { inversion Hs as [ | | errors w'' Hf1 Hf2 Hr ]; subst; try congruence.
    rewrite Hr. rewrite filter_all.
    - by apply delete_rows_selected.
    - intros x Hx. apply list_elem_of_filter in Hx as [_ Hx]. by apply Hgo. }
  split; [done|]. intros r. rewrite Hrows, list_elem_of_filter.
  unfold cleanup.purgeable. tauto.
Qed.

Lemma sweep_removes_exactly_before_cutoff_witness :
  store_fails sample.env (stmts sample.world) = false /\
  rows (cleanup.cleanup_expired_wishes sample.env sample.world).2 =
    base.filter (fun r => ~ cleanup.purgeable (cutoff_at sample.env sample.world) r)
                (rows sample.world).
Proof.
  split; [reflexivity|].
  refine (proj1 (sweep_removes_exactly_before_cutoff sample.env sample.world
                   sample_unique_ids eq_refl eq_refl _)).
  intros r _. split; reflexivity.
Defined.

(** ** C8 *)

(** C8, as stated, fails: the sweep does raise.  With the candidate query
    answered and the one candidate handled without a failure, the final
    commit fails and the sweep raises that failure instead of returning its
    counters; it also raises when the candidate query fails. *)
Lemma sweep_raises_when_commit_fails :
  store_fails sample.env_commit_fails (stmts sample.world) = false /\
  store_fails sample.env_commit_fails (S (stmts sample.world)) = true /\
  (cleanup.cleanup_expired_wishes sample.env_commit_fails sample.world).1 =
    Raise OperationalError /\
  (forall counters,
     (cleanup.cleanup_expired_wishes sample.env_commit_fails sample.world).1 <>
       Return counters) /\
  (cleanup.cleanup_expired_wishes sample.env_store_down sample.world).1 =
    Raise OperationalError.
Proof. vm_compute. repeat split. discriminate. Qed.

(** C8, amended: when the database answers the candidate query and the
    commit, the sweep returns its three counters whatever fails at the
    candidates: every failure (locating the directory, [rmtree],
    [db.delete]) is counted in [errors]; every candidate for which locating
    the directory and [db.delete] worked loses its row, also when its
    [rmtree] failed and whatever happened at the other candidates; the other
    candidates keep their row.  When the candidate query or the commit
    fails, the sweep raises that failure and no row is deleted. *)
Theorem sweep_survives_item_failures env w :
  unique_ids (rows w) ->
  (store_fails env (stmts w) = false ->
   store_fails env (S (stmts w)) = false ->
   (cleanup.cleanup_expired_wishes env w).1 =
     Return
       (Z.of_nat (length (base.filter (row_goes env)
                            (base.filter (cleanup.purgeable (cutoff_at env w)) (rows w)))),
        sum_Z ((fun r => Z.of_nat (length (images r))) <$>
                 base.filter (row_goes env)
                   (base.filter (cleanup.purgeable (cutoff_at env w)) (rows w))),
        sum_Z (item_errors env (dirs w) <$>
                 base.filter (cleanup.purgeable (cutoff_at env w)) (rows w))) /\
   forall x,
     x ∈ base.filter (cleanup.purgeable (cutoff_at env w)) (rows w) ->
     (1 <= item_errors env (dirs w) x <->
      path_fails env (id x) = true \/
      (id x ∈ dirs w /\ rmtree_fails env (id x) = true) \/
      delete_fails env (id x) = true) /\
     (x ∈ rows (cleanup.cleanup_expired_wishes env w).2 <-> ~ row_goes env x)) /\
  (store_fails env (stmts w) = true \/ store_fails env (S (stmts w)) = true ->
   (cleanup.cleanup_expired_wishes env w).1 = Raise OperationalError /\
   rows (cleanup.cleanup_expired_wishes env w).2 = rows w).
Proof.
  intros Hu.
  pose proof (cleanup_expired_wishes_case env w) as Hs.
  destruct (cleanup.cleanup_expired_wishes env w) as [res w']. cbn [fst snd] in *.
  split.
  - intros Hq Hc.
    inversion Hs as [ | | errors w'' Hf1 Hf2 Hr Hst Herr ]; subst; try congruence.
    destruct (Herr Hu) as (-> & _ & _).
    split; [done|].
    intros x Hx. split.
    + unfold item_errors.
      destruct (path_fails env (id x)); [split; [tauto | lia]|].
      destruct (delete_fails env (id x)).
      { destruct (bool_decide (id x ∈ dirs w) && rmtree_fails env (id x));
          split; (tauto || lia). }
      destruct (bool_decide (id x ∈ dirs w)) eqn:Hin;
        [apply bool_decide_eq_true in Hin | apply bool_decide_eq_false in Hin];
        destruct (rmtree_fails env (id x)); cbn; split;
        solve [ tauto | lia | intros [|[[]|]]; done ].
    + rewrite Hr. unfold Session.delete_rows. rewrite list_elem_of_filter.
      pose proof Hx as Hx'. apply list_elem_of_filter in Hx' as [_ Hin].
      split.
      * intros [Hid _] Hgo. apply Hid. apply list_elem_of_fmap_2.
        by apply list_elem_of_filter.
      * intros Hno. split; [|done]. intros Hid.
        apply list_elem_of_fmap in Hid as (y & Hxy & Hy).
        apply list_elem_of_filter in Hy as [Hgo Hy].
        apply list_elem_of_filter in Hy as [_ Hy].
        by rewrite (NoDup_fmap_elem_inj id (rows w) x y Hu Hin Hy Hxy) in Hno.
  - intros Hdown. inversion Hs; subst; first [done | destruct Hdown; congruence].
Qed.

Lemma sweep_survives_item_failures_witness :
  store_fails sample.env_rmtree_fails (stmts sample.world) = false /\
  rmtree_fails sample.env_rmtree_fails (id sample.dead) = true /\
  (cleanup.cleanup_expired_wishes sample.env_rmtree_fails sample.world).1 =
    Return (1, 1, 1).
Proof.
  split; [reflexivity|]. split; [reflexivity|].
  exact (proj1 (proj1 (sweep_survives_item_failures sample.env_rmtree_fails
                         sample.world sample_unique_ids) eq_refl eq_refl)).
Defined.

(** ** C9 *)

Lemma bind_ret_run {A B} (m : M A) (f : A -> B) env w :
  (m ≫= fun a => mret (f a)) env w =
  (match (m env w).1 with
   | Return a => Return (f a)
   | Raise e => Raise e
   end, (m env w).2).
Proof. unfold_st. by destruct (m env w) as [[a|e] w']. Qed.

(** C9, as stated, fails twice.  With the database unreachable the summary
    does not raise: it returns the fallback dictionary.  And a sweep whose
    final commit fails raises and keeps every row, but the upload directory
    of the candidate it had handled is gone: a part of its work persists. *)
Lemma store_failure_swallowed_or_partial :
  (store_fails sample.env_store_down (stmts sample.world) = true /\
   (cleanup.get_cleanup_summary sample.env_store_down sample.world).1 =
     Return (cleanup.mkSummary 0 0 0 0 10 60 (Some "OperationalError")) /\
   (cleanup.get_cleanup_summary sample.env_store_down sample.world).1 <>
     Raise OperationalError) /\
  (store_fails sample.env_commit_fails (S (stmts sample.world)) = true /\
   (cleanup.cleanup_expired_wishes sample.env_commit_fails sample.world).1 =
     Raise OperationalError /\
   rows (cleanup.cleanup_expired_wishes sample.env_commit_fails sample.world).2 =
     rows sample.world /\
   sample.dead ∈ rows sample.world /\
   id sample.dead ∈ dirs sample.world /\
   id sample.dead ∉
     dirs (cleanup.cleanup_expired_wishes sample.env_commit_fails sample.world).2).
Proof.
  split.
  - vm_compute. repeat split. discriminate.
  - split; [reflexivity|]. split; [reflexivity|]. split; [reflexivity|].
    split; [|split]; apply (bool_decide_unpack _); by vm_compute.
Qed.

(** C9, amended: when a statement that view, delete, status or the sweep
    sent to the database failed, the operation raised that failure, no row
    of the table changed, and the failed statement was the last one it sent
    (nothing was retried); for view, delete and status no directory changed
    either.  A sweep whose candidate query failed changed no directory; a
    sweep whose commit failed had handled its candidates already: the
    directories of the candidates it handled without a failure are gone,
    their rows are not, and the directories of all other wishes are as they
    were.  The summary instead catches the failure and returns the
    dictionary of zero counters with the [error] key, without a change of
    the table or of a directory and without a retry. *)
Theorem store_failure_ends_operation env w op k :
  (stmts w <= k < stmts (run_op op env w).2)%nat ->
  store_fails env k = true ->
  rows (run_op op env w).2 = rows w /\
  stmts (run_op op env w).2 = S k /\
  (run_op op env w).1 =
    match op with
    | SummaryOp =>
        Return (Summarised
                  (cleanup.mkSummary 0 0 0 0 (SOFT_DELETE_GRACE_PERIOD_MINUTES env)
                     (CLEANUP_INTERVAL_MINUTES env) (Some "OperationalError")))
    | _ => Raise OperationalError
    end /\
  match op with
  | Sweep =>
      (k = stmts w -> dirs (run_op op env w).2 = dirs w) /\
      (forall i,
         i ∉ (id <$> base.filter (cleanup.purgeable (cutoff_at env w)) (rows w)) ->
         (i ∈ dirs (run_op op env w).2 <-> i ∈ dirs w)) /\
      (k = S (stmts w) -> unique_ids (rows w) ->
       forall x,
         x ∈ base.filter (cleanup.purgeable (cutoff_at env w)) (rows w) ->
         row_goes env x -> rmtree_fails env (id x) = false ->
         id x ∉ dirs (run_op op env w).2)
  | _ => dirs (run_op op env w).2 = dirs w
  end.
Proof.
  destruct op as [s|s|s| |]; unfold run_op;
    [ rewrite (bind_ret_run (wishes.view_wish s) Viewed)
    | change (wishes.delete_wish s;; mret Deleted)
        with (wishes.delete_wish s ≫= fun _ => mret ((fun _ => Deleted) tt));
      rewrite (bind_ret_run (wishes.delete_wish s) (fun _ => Deleted))
    | rewrite (bind_ret_run (wishes.get_wish_status s) StatusOf)
    | rewrite (bind_ret_run cleanup.cleanup_expired_wishes Swept)
    | rewrite (bind_ret_run cleanup.get_cleanup_summary Summarised) ];
    cbn [fst snd]; intros Hk Hf.
  - pose proof (view_wish_case env w s) as Hv.
    destruct (wishes.view_wish s env w) as [res w']. cbn [fst snd] in *.
    assert (k = stmts w \/ k = S (stmts w) \/ (S (S (stmts w)) <= k)%nat) as Hcases by lia.
    inversion Hv; subst;
      destruct Hcases as [-> | [-> | ?]]; first [congruence | lia | done].
  - pose proof (delete_wish_case env w s) as Hv.
    destruct (wishes.delete_wish s env w) as [res w']. cbn [fst snd] in *.
    assert (k = stmts w \/ k = S (stmts w) \/ (S (S (stmts w)) <= k)%nat) as Hcases by lia.
    inversion Hv; subst;
      destruct Hcases as [-> | [-> | ?]]; first [congruence | lia | done].
  - destruct (get_wish_status_case env w s) as (Hv & Hrows & Hdirs & Hst).
    destruct (wishes.get_wish_status s env w) as [res w']. cbn [fst snd] in *.
    assert (k = stmts w) as -> by lia.
    inversion Hv; subst; first [congruence | done].
  - pose proof (cleanup_expired_wishes_case env w) as Hv.
    destruct (cleanup.cleanup_expired_wishes env w) as [res w']. cbn [fst snd] in *.
    assert (k = stmts w \/ k = S (stmts w) \/ (S (S (stmts w)) <= k)%nat) as Hcases by lia.
    inversion Hv as [ w0 Hq Hrows Hdirs Hst
                    | w0 Hq Hc Hrows Hst Hothers Hgone
                    | errors w0 Hq Hc Hrows Hst Herr ]; subst;
      destruct Hcases as [-> | [-> | ?]]; try congruence; try lia.
    + split; [done|]. split; [done|]. split; [done|].
      split; [done|]. split; [intros i _; by rewrite Hdirs|]. intros Heq. lia.
    + split; [done|]. split; [done|]. split; [done|].
      split; [intros Heq; lia|]. split; [exact Hothers|].
      intros _ Hu. exact (Hgone Hu).
  - destruct (get_cleanup_summary_case env w) as (Hrows & Hdirs & Hdown & _).
    destruct (Hdown k Hk Hf) as [Hres Hst].
    by rewrite Hres.
Qed.

Lemma store_failure_ends_operation_witness :
  (stmts sample.world <= 1 <
   stmts (run_op Sweep sample.env_commit_fails sample.world).2)%nat /\
  store_fails sample.env_commit_fails 1 = true /\
  rows (run_op Sweep sample.env_commit_fails sample.world).2 = rows sample.world /\
  stmts (run_op Sweep sample.env_commit_fails sample.world).2 = 2%nat /\
  (run_op Sweep sample.env_commit_fails sample.world).1 = Raise OperationalError /\
  id sample.dead ∉ dirs (run_op Sweep sample.env_commit_fails sample.world).2.
Proof.
  assert ((stmts sample.world <= 1 <
           stmts (run_op Sweep sample.env_commit_fails sample.world).2)%nat)
    as Hk by (vm_compute; lia).
  split; [exact Hk|]. split; [reflexivity|].
  destruct (store_failure_ends_operation sample.env_commit_fails sample.world
              Sweep 1%nat Hk eq_refl) as (Hrows & Hst & Hres & _ & _ & Hgone).
  split; [exact Hrows|]. split; [exact Hst|]. split; [exact Hres|].
  apply (Hgone eq_refl sample_unique_ids).
  - apply (bool_decide_unpack _). by vm_compute.
  - split; reflexivity.
  - reflexivity.
Defined.

(** ** C4 *)

Lemma elem_of_update_row o tbl x :
  x ∈ Session.update_row o tbl -> x = o \/ (x ∈ tbl /\ id x <> id o).
Proof.
  unfold Session.update_row. intros Hx.
  apply list_elem_of_fmap in Hx as (y & -> & Hy).
  destruct (decide (id y = id o)); [by left | by right].
Qed.

Lemma update_row_slugs o r tbl :
  unique_ids tbl -> r ∈ tbl -> id o = id r -> slug o = slug r ->
  slug <$> Session.update_row o tbl = slug <$> tbl.
Proof.
  intros Hu Hr Hid Hslug. unfold Session.update_row.
  rewrite <- list_fmap_compose. apply list_fmap_ext. intros i x Hx. cbn.
  destruct (decide (id x = id o)) as [Heq|]; [|done].
  rewrite Hslug. f_equal. symmetry.
  eapply (NoDup_fmap_elem_inj id tbl); eauto.
  - by eapply list_elem_of_lookup_2.
  - congruence.
Qed.

Section view_limit.

(** The wish under watch: its slug and its limit. *)
Variable s : string.
Variable m : Z.

Lemma limit_inv_update c c' tbl r o :
  limit_inv s m c tbl -> r ∈ tbl ->
  id o = id r -> slug o = slug r -> max_views o = max_views r ->
  within_limit o -> 0 <= c' <= m ->
  (slug r = s -> current_views o = c') ->
  (slug r <> s -> c' = c) ->
  limit_inv s m c' (Session.update_row o tbl).
Proof.
  intros (Hu & Hs & Hl & Hc & Hrow) Hr Hid Hslug Hmax Hwl Hc' Hsame Hother.
  split; [by apply unique_ids_update|].
  split; [unfold unique_slugs; by rewrite (update_row_slugs o r)|].
  split.
  { apply Forall_forall. intros x Hx.
    apply elem_of_update_row in Hx as [->|[Hx _]]; [done|].
    by eapply Forall_forall in Hl. }
  split; [done|].
  intros x Hx Hxs. apply elem_of_update_row in Hx as [->|[Hx Hne]].
  - assert (slug r = s) as Hrs by congruence.
    destruct (Hrow r Hr Hrs) as [Hm _]. split; [congruence | by apply Hsame].
  - destruct (Hrow x Hx Hxs) as [Hm Hcv]. split; [done|].
    destruct (decide (slug r = s)) as [Hrs|Hrs].
    + exfalso. apply Hne. rewrite Hid. f_equal.
      eapply (NoDup_fmap_elem_inj slug tbl); eauto. congruence.
    + rewrite Hother; done.
Qed.

Lemma limit_inv_delete c gone tbl :
  limit_inv s m c tbl -> limit_inv s m c (Session.delete_rows gone tbl).
Proof.
  intros (Hu & Hs & Hl & Hc & Hrow).
  split; [by apply unique_ids_delete|].
  split; [unfold unique_slugs, Session.delete_rows; by apply NoDup_fmap_filter|].
  split.
  { apply Forall_forall. intros x Hx.
    apply list_elem_of_filter in Hx as [_ Hx]. by eapply Forall_forall in Hl. }
  split; [done|].
  intros x Hx. apply list_elem_of_filter in Hx as [_ Hx]. by apply Hrow.
Qed.

Lemma within_limit_set_deleted t r : within_limit r -> within_limit (set_deleted t r).
Proof. done. Qed.

Lemma run_op_limit_inv c env w op :
  limit_inv s m c (rows w) ->
  limit_inv s m (c + counts s op (run_op op env w).1) (rows (run_op op env w).2).
Proof.
  intros Hinv.
  destruct op as [s'|s'|s'| |]; unfold run_op;
    [ rewrite (bind_ret_run (wishes.view_wish s') Viewed)
    | change (wishes.delete_wish s';; mret Deleted)
        with (wishes.delete_wish s' ≫= fun _ => mret ((fun _ => Deleted) tt));
      rewrite (bind_ret_run (wishes.delete_wish s') (fun _ => Deleted))
    | rewrite (bind_ret_run (wishes.get_wish_status s') StatusOf)
    | rewrite (bind_ret_run cleanup.cleanup_expired_wishes Swept)
    | rewrite (bind_ret_run cleanup.get_cleanup_summary Summarised) ];
    cbn [fst snd].
  - pose proof (view_wish_case env w s') as Hv.
    destruct (wishes.view_wish s' env w) as [res w']. cbn [fst snd] in *.
    inversion Hv as [ ? ? Hrows | ? ? ? Hrows | ? ? ? ? ? Hrows
                    | ? ? ? ? ? ? ? Hrows
                    | r reason ? ? Hr Hd ? ? ? Hrows
                    | ? ? ? ? ? ? ? Hrows
                    | r ? ? Hr Hd Hex ? Hrows ]; subst; cbn [counts];
      rewrite ?Z.add_0_r; try (rewrite Hrows; exact Hinv).
    + rewrite Hrows. apply resolve_Some in Hr as [Hslug Hr].
      eapply (limit_inv_update c c _ r); eauto.
      * destruct Hinv as (_ & _ & Hl & _). apply within_limit_set_deleted.
        by eapply Forall_forall in Hl.
      * by destruct Hinv as (_ & _ & _ & Hc & _).
      * intros Hrs. destruct Hinv as (_ & _ & _ & _ & Hrow).
        by destruct (Hrow r Hr Hrs).
    + rewrite Hrows. apply resolve_Some in Hr as [Hslug Hr].
      destruct (counted_fields (utcnow_at env (S (tick w))) r)
        as (Hid & Hsl & Hmax & _ & Hcount & _).
      assert (forall k, max_views r = Some k -> current_views r < k) as Hroom.
      { intros k Hk. revert Hex. unfold expiry.evaluate. rewrite Hk.
        destruct (match expires_at r with Some _ => _ | None => _ end); [done|].
        destruct (bool_decide (k <= current_views r)) eqn:Hb; [done|].
        apply bool_decide_eq_false in Hb. lia. }
      pose proof Hinv as (_ & _ & _ & Hc & Hrow).
      eapply (limit_inv_update c _ _ r); eauto.
      * intros k Hk. rewrite Hmax in Hk. rewrite Hcount.
        specialize (Hroom k Hk). lia.
      * destruct (decide (s' = s)) as [Hs|Hs]; [|lia].
        rewrite <- Hs, <- Hslug in Hrow. destruct (Hrow r Hr eq_refl) as [Hm Hcv].
        specialize (Hroom m Hm). lia.
      * intros Hrs. rewrite decide_True by congruence.
        destruct (Hrow r Hr Hrs) as [_ Hcv]. lia.
      * intros Hrs. rewrite decide_False by congruence. lia.
  - pose proof (delete_wish_case env w s') as Hv.
    destruct (wishes.delete_wish s' env w) as [res w']. cbn [fst snd] in *.
    assert (counts s (Delete s')
              match res with Return _ => Return Deleted | Raise e => Raise e end = 0)
      as -> by (by destruct res).
    rewrite Z.add_0_r.
    inversion Hv as [ ? ? Hrows | ? ? ? Hrows | ? ? ? ? ? Hrows
                    | ? ? ? ? ? ? Hrows
                    | r ? ? Hr Hd ? Hrows ]; subst;
      try (rewrite Hrows; exact Hinv).
    rewrite Hrows. apply resolve_Some in Hr as [Hslug Hr].
    eapply (limit_inv_update c c _ r); eauto.
    + destruct Hinv as (_ & _ & Hl & _). apply within_limit_set_deleted.
      by eapply Forall_forall in Hl.
    + by destruct Hinv as (_ & _ & _ & Hc & _).
    + intros Hrs. destruct Hinv as (_ & _ & _ & _ & Hrow).
      by destruct (Hrow r Hr Hrs).
  - destruct (get_wish_status_case env w s') as (_ & Hrows & _).
    rewrite Hrows.
    assert (counts s (Status s')
              match (wishes.get_wish_status s' env w).1 with
              | Return a => Return (StatusOf a) | Raise e => Raise e end = 0)
      as -> by (by destruct ((wishes.get_wish_status s' env w).1)).
    by rewrite Z.add_0_r.
  - pose proof (cleanup_expired_wishes_case env w) as Hv.
    destruct (cleanup.cleanup_expired_wishes env w) as [res w']. cbn [fst snd] in *.
    assert (counts s Sweep
              match res with Return a => Return (Swept a) | Raise e => Raise e end = 0)
      as -> by (by destruct res).
    rewrite Z.add_0_r.
    inversion Hv as [ ? ? Hrows | ? ? ? Hrows | ? ? ? ? Hrows ]; subst;
      try (rewrite Hrows; exact Hinv).
    rewrite Hrows. by apply limit_inv_delete.
  - destruct (get_cleanup_summary_case env w) as (Hrows & _).
    rewrite Hrows.
    assert (counts s SummaryOp
              match (cleanup.get_cleanup_summary env w).1 with
              | Return a => Return (Summarised a) | Raise e => Raise e end = 0)
      as -> by (by destruct ((cleanup.get_cleanup_summary env w).1)).
    by rewrite Z.add_0_r.
Qed.

Lemma run_ops_limit_inv env ops : forall c w,
  limit_inv s m c (rows w) ->
  limit_inv s m (c + successful_views s ops (run_ops ops env w).1)
            (rows (run_ops ops env w).2).
Proof.
  induction ops as [|op ops IH]; intros c w Hinv.
  { cbn. by rewrite Z.add_0_r. }
  rewrite run_ops_cons. cbn [fst snd].
  pose proof (run_op_limit_inv c env w op Hinv) as H1.
  apply IH in H1.
  replace (c + successful_views s (op :: ops)
                 ((run_op op env w).1 :: (run_ops ops env (run_op op env w).2).1))
    with (c + counts s op (run_op op env w).1 +
          successful_views s ops (run_ops ops env (run_op op env w).2).1);
    [done|].
  rewrite <- Z.add_assoc. f_equal. unfold counts. cbn [successful_views].
  destruct op; destruct ((run_op _ env w).1); lia.
Qed.

End view_limit.

Lemma sample_within_limit : Forall within_limit (rows sample.world).
Proof.
  unfold within_limit. repeat constructor; cbn; intros k Hk; simplify_eq; lia.
Qed.

(** C4: in a table that respects its keys and in which every counter is
    within its limit (as at creation, where [current_views = 0]), whatever
    sequence of view, delete, status, sweep and summary requests runs,
    whatever fails and whatever the clock reads, every counter stays within
    its limit; and for a wish with [max_views = m] that starts at
    [current_views = 0], at most [m] views ever return. *)
Theorem views_never_exceed_max_views env w ops s r m :
  unique_ids (rows w) ->
  unique_slugs (rows w) ->
  Forall within_limit (rows w) ->
  resolve s (rows w) = Some r ->
  max_views r = Some m ->
  current_views r = 0 ->
  Forall within_limit (rows (run_ops ops env w).2) /\
  (forall x, x ∈ rows (run_ops ops env w).2 -> slug x = s ->
             max_views x = Some m /\ current_views x <= m) /\
  successful_views s ops (run_ops ops env w).1 <= m.
Proof.
  intros Hu Hs Hl Hr Hm Hc.
  apply resolve_Some in Hr as [Hslug Hr].
  assert (limit_inv s m 0 (rows w)) as Hinv.
  { split; [done|]. split; [done|]. split; [done|]. split.
    - eapply Forall_forall in Hl; [|exact Hr]. specialize (Hl m Hm). lia.
    - intros x Hx Hxs.
      assert (x = r) as ->; [|done].
      eapply (NoDup_fmap_elem_inj slug (rows w)); eauto. congruence. }
  apply (run_ops_limit_inv s m env ops) in Hinv.
  rewrite Z.add_0_l in Hinv.
  destruct Hinv as (_ & _ & Hl' & Hc' & Hrow').
  split; [done|]. split; [|lia].
  intros x Hx Hxs. destruct (Hrow' x Hx Hxs) as [Hmx Hcx]. split; [done | lia].
Qed.

Lemma views_never_exceed_max_views_witness :
  resolve "Zx81mQp0" (rows sample.world) = Some sample.thrice /\
  max_views sample.thrice = Some 3 /\
  current_views sample.thrice = 0 /\
  successful_views "Zx81mQp0"
    [View "Zx81mQp0"; View "Zx81mQp0"; Sweep; Status "Zx81mQp0";
     View "Zx81mQp0"; View "Zx81mQp0"; Delete "Zx81mQp0"]
    (run_ops [View "Zx81mQp0"; View "Zx81mQp0"; Sweep; Status "Zx81mQp0";
              View "Zx81mQp0"; View "Zx81mQp0"; Delete "Zx81mQp0"]
             sample.env sample.world).1 <= 3.
Proof.
  split; [reflexivity|]. split; [reflexivity|]. split; [reflexivity|].
  exact (proj2 (proj2 (views_never_exceed_max_views sample.env sample.world
                         [View "Zx81mQp0"; View "Zx81mQp0"; Sweep; Status "Zx81mQp0";
                          View "Zx81mQp0"; View "Zx81mQp0"; Delete "Zx81mQp0"]
                         "Zx81mQp0" sample.thrice 3
                         sample_unique_ids sample_unique_slugs sample_within_limit
                         eq_refl eq_refl eq_refl))).
Defined.

(** ** The scenario of a wish that can be seen once *)

Example seen_once_then_gone :
  (run_ops [View "8Fk2QaL9"; View "8Fk2QaL9"; Status "8Fk2QaL9"]
           sample.env sample.world).1 =
  [Return (Viewed (view_response sample.env sample.once (Some 0)));
   Raise Gone;
   Return (StatusOf (wishes.StatusDeleted true "deleted" (Some 1000000001)
                                          "Wish has expired or been deleted"))].
Proof. vm_compute. reflexivity. Qed.

(** * Further properties of the embedded code *)

(** ** The life of a row under any sequence of requests *)

Lemma run_op_table_step env w op :
  table_step (rows w) (rows (run_op op env w).2).
Proof.
  destruct op as [s|s|s| |]; unfold run_op;
    [ rewrite (bind_ret_run (wishes.view_wish s) Viewed)
    | change (wishes.delete_wish s;; mret Deleted)
        with (wishes.delete_wish s ≫= fun _ => mret ((fun _ => Deleted) tt));
      rewrite (bind_ret_run (wishes.delete_wish s) (fun _ => Deleted))
    | rewrite (bind_ret_run (wishes.get_wish_status s) StatusOf)
    | rewrite (bind_ret_run cleanup.cleanup_expired_wishes Swept)
    | rewrite (bind_ret_run cleanup.get_cleanup_summary Summarised) ];
    cbn [fst snd].
  - pose proof (view_wish_case env w s) as Hv.
    destruct (wishes.view_wish s env w) as [res w']. cbn [fst snd] in *.
    inversion Hv as [ ? ? Hrows | ? ? ? Hrows | ? ? ? ? ? Hrows
                    | ? ? ? ? ? ? ? Hrows
                    | r reason ? ? Hr Hd ? ? ? Hrows
                    | ? ? ? ? ? ? ? Hrows
                    | r ? ? Hr Hd Hex ? Hrows ]; subst;
      rewrite Hrows; try apply step_same.
    + apply resolve_Some in Hr as [_ Hr]. by apply step_tombstone.
    + apply resolve_Some in Hr as [_ Hr]. by apply step_count.
  - pose proof (delete_wish_case env w s) as Hv.
    destruct (wishes.delete_wish s env w) as [res w']. cbn [fst snd] in *.
    inversion Hv as [ ? ? Hrows | ? ? ? Hrows | ? ? ? ? ? Hrows
                    | ? ? ? ? ? ? Hrows
                    | r ? ? Hr Hd ? Hrows ]; subst;
      rewrite Hrows; try apply step_same.
    apply resolve_Some in Hr as [_ Hr]. by apply step_tombstone.
  - destruct (get_wish_status_case env w s) as (_ & Hrows & _).
    rewrite Hrows. apply step_same.
  - pose proof (cleanup_expired_wishes_case env w) as Hv.
    destruct (cleanup.cleanup_expired_wishes env w) as [res w']. cbn [fst snd] in *.
    inversion Hv as [ ? ? Hrows | ? ? ? Hrows | ? ? ? ? Hrows ]; subst;
      rewrite Hrows; try apply step_same.
    apply step_purge. intros x Hx.
    apply list_elem_of_filter in Hx as [_ Hx].
    apply list_elem_of_filter in Hx as [[Hd _] Hx]. done.
  - destruct (get_cleanup_summary_case env w) as (Hrows & _).
    rewrite Hrows. apply step_same.
Qed.

Lemma later_state_refl r : later_state r r.
Proof. unfold later_state. repeat split; (done || lia). Qed.

Lemma later_state_trans r y x : later_state r y -> later_state y x -> later_state r x.
Proof.
  unfold later_state.
  intros (?&?&?&?&?&?&?&?&?&?&?&Hfrozen) (?&?&?&?&?&?&?&?&?&?&?&Hfrozen').
  repeat split; try congruence; try lia.
  intros Hd. specialize (Hfrozen Hd). subst y. by apply Hfrozen'.
Qed.

Lemma later_state_set_deleted t r : is_deleted r = false -> later_state r (set_deleted t r).
Proof. intros Hd. unfold later_state. cbn. repeat split; (congruence || lia). Qed.

Lemma later_state_counted now r : is_deleted r = false -> later_state r (counted now r).
Proof.
  intros Hd. unfold later_state, counted.
  destruct (expiry.should_soft_delete _); cbn; repeat split; (congruence || lia).
Qed.

Lemma table_step_later tbl tbl' x :
  table_step tbl tbl' -> x ∈ tbl' -> exists r, r ∈ tbl /\ later_state r x.
Proof.
  intros Hstep Hx. destruct Hstep as [ | r t Hr Hd | r now Hr Hd | gone Hgone ].
  - exists x. split; [done | apply later_state_refl].
  - apply elem_of_update_row in Hx as [->|[Hx _]].
    + exists r. split; [done | by apply later_state_set_deleted].
    + exists x. split; [done | apply later_state_refl].
  - apply elem_of_update_row in Hx as [->|[Hx _]].
    + exists r. split; [done | by apply later_state_counted].
    + exists x. split; [done | apply later_state_refl].
  - apply list_elem_of_filter in Hx as [_ Hx].
    exists x. split; [done | apply later_state_refl].
Qed.

(** X1: whatever requests run, whatever fails and whatever the clock reads,
    every row of the table afterwards is a later state of a row that was
    there before: no request adds a row or changes an id, a slug, the
    content, the limits or the images; a counter never goes down; and a
    tombstoned row is never changed again. *)
Theorem rows_only_age env w ops x :
  x ∈ rows (run_ops ops env w).2 ->
  exists r, r ∈ rows w /\ later_state r x.
Proof.
  revert w x. induction ops as [|op ops IH]; intros w x Hx.
  { exists x. split; [done | apply later_state_refl]. }
  rewrite run_ops_cons in Hx. cbn [snd] in Hx.
  destruct (IH _ _ Hx) as (y & Hy & Hyx).
  destruct (table_step_later _ _ y (run_op_table_step env w op) Hy) as (r & Hr & Hry).
  exists r. split; [done|]. by eapply later_state_trans.
Qed.

Lemma rows_only_age_witness :
  set_deleted 1000000001 (set_current_views 1 sample.once)
    ∈ rows (run_ops [View "8Fk2QaL9"; Sweep] sample.env sample.world).2 /\
  exists r, r ∈ rows sample.world /\
            later_state r (set_deleted 1000000001 (set_current_views 1 sample.once)).
Proof.
  assert (set_deleted 1000000001 (set_current_views 1 sample.once)
            ∈ rows (run_ops [View "8Fk2QaL9"; Sweep] sample.env sample.world).2) as Hx.
  { vm_compute. apply list_elem_of_here. }
  split; [exact Hx|].
  exact (rows_only_age sample.env sample.world [View "8Fk2QaL9"; Sweep] _ Hx).
Defined.

Lemma elem_of_update_row_other o tbl x :
  x ∈ tbl -> id x <> id o -> x ∈ Session.update_row o tbl.
Proof.
  intros Hx Hne. unfold Session.update_row.
  apply list_elem_of_fmap. exists x. split; [|done].
  by rewrite decide_False.
Qed.

Lemma table_step_unique_ids tbl tbl' :
  table_step tbl tbl' -> unique_ids tbl -> unique_ids tbl'.
Proof.
  intros Hstep Hu. destruct Hstep;
    auto using unique_ids_update, unique_ids_delete.
Qed.

Lemma table_step_ids tbl tbl' i :
  table_step tbl tbl' -> i ∈ (id <$> tbl') -> i ∈ (id <$> tbl).
Proof.
  intros Hstep Hi. apply list_elem_of_fmap in Hi as (x & -> & Hx).
  destruct (table_step_later _ _ x Hstep Hx) as (r & Hr & Hid & _).
  rewrite Hid. by apply list_elem_of_fmap_2.
Qed.

Lemma table_step_tombstone_stays tbl tbl' r :
  table_step tbl tbl' -> unique_ids tbl ->
  r ∈ tbl -> is_deleted r = true ->
  r ∈ tbl' \/ id r ∉ (id <$> tbl').
Proof.
  intros Hstep Hu Hr Hd.
  destruct Hstep as [ | r0 t Hr0 Hd0 | r0 now Hr0 Hd0 | gone Hgone ].
  - by left.
  - left. apply elem_of_update_row_other; [done|]. cbn. intros Heq.
    assert (r = r0) as -> by (eapply (NoDup_fmap_elem_inj id tbl); eauto).
    congruence.
  - left. apply elem_of_update_row_other; [done|].
    destruct (counted_fields now r0) as (-> & _). intros Heq.
    assert (r = r0) as -> by (eapply (NoDup_fmap_elem_inj id tbl); eauto).
    congruence.
  - destruct (decide (id r ∈ (id <$> gone))) as [Hin|Hout].
    + right. intros Hi. apply list_elem_of_fmap in Hi as (x & Hxr & Hx).
      apply list_elem_of_filter in Hx as [Hx _]. apply Hx. by rewrite <- Hxr.
    + left. by apply list_elem_of_filter.
Qed.

Lemma run_ops_unique_ids env ops : forall w,
  unique_ids (rows w) -> unique_ids (rows (run_ops ops env w).2).
Proof.
  induction ops as [|op ops IH]; intros w Hu; [done|].
  rewrite run_ops_cons. cbn [snd]. apply IH.
  eapply table_step_unique_ids; [apply run_op_table_step | done].
Qed.

Lemma run_ops_ids env ops : forall w i,
  i ∈ (id <$> rows (run_ops ops env w).2) -> i ∈ (id <$> rows w).
Proof.
  induction ops as [|op ops IH]; intros w i Hi; [done|].
  rewrite run_ops_cons in Hi. cbn [snd] in Hi.
  eapply table_step_ids; [apply run_op_table_step|]. by apply IH.
Qed.

(** X2: a tombstone is final.  In a table with unique ids, a tombstoned row
    is, after any sequence of requests, either still in the table exactly as
    it was, or purged: then no row carries its id any more. *)
Theorem tombstone_is_final env w ops r :
  unique_ids (rows w) ->
  r ∈ rows w -> is_deleted r = true ->
  r ∈ rows (run_ops ops env w).2 \/
  id r ∉ (id <$> rows (run_ops ops env w).2).
Proof.
  revert w. induction ops as [|op ops IH]; intros w Hu Hr Hd; [by left|].
  rewrite run_ops_cons. cbn [snd].
  pose proof (run_op_table_step env w op) as Hstep.
  destruct (table_step_tombstone_stays _ _ r Hstep Hu Hr Hd) as [Hin|Hout].
  - apply IH; [|done..]. by eapply table_step_unique_ids.
  - right. intros Hi. apply Hout. by eapply run_ops_ids.
Qed.

Lemma tombstone_is_final_witness :
  sample.dead ∈ rows sample.world /\ is_deleted sample.dead = true /\
  (sample.dead ∈ rows (run_ops [View "Qw9eRt7y"; Delete "Qw9eRt7y"; Status "Qw9eRt7y"]
                               sample.env sample.world).2 \/
   id sample.dead ∉
     (id <$> rows (run_ops [View "Qw9eRt7y"; Delete "Qw9eRt7y"; Status "Qw9eRt7y"]
                           sample.env sample.world).2)).
Proof.
  assert (sample.dead ∈ rows sample.world) as Hin.
  { vm_compute. do 2 apply list_elem_of_further. apply list_elem_of_here. }
  split; [exact Hin|]. split; [reflexivity|].
  exact (tombstone_is_final sample.env sample.world
           [View "Qw9eRt7y"; Delete "Qw9eRt7y"; Status "Qw9eRt7y"] sample.dead
           sample_unique_ids Hin eq_refl).
Defined.

Lemma table_step_Forall (P : Wish -> Prop) tbl tbl' :
  (forall t r, is_deleted r = false -> P r -> P (set_deleted t r)) ->
  (forall now r, is_deleted r = false -> P r -> P (counted now r)) ->
  table_step tbl tbl' -> Forall P tbl -> Forall P tbl'.
Proof.
  intros Hdel Hcount Hstep Hall. rewrite Forall_forall in Hall.
  apply Forall_forall. intros x Hx.
  destruct Hstep as [ | r t Hr Hd | r now Hr Hd | gone Hgone ].
  - by apply Hall.
  - apply elem_of_update_row in Hx as [->|[Hx _]]; auto.
  - apply elem_of_update_row in Hx as [->|[Hx _]]; auto.
  - apply list_elem_of_filter in Hx as [_ Hx]. auto.
Qed.

(** X3: the tombstone flag and its timestamp stay together.  If in every
    row [deleted_at] is set exactly when [is_deleted] is true, the same
    holds after any sequence of requests, whatever fails. *)
Theorem tombstones_stay_stamped env w ops :
  Forall stamped (rows w) ->
  Forall stamped (rows (run_ops ops env w).2).
Proof.
  revert w. induction ops as [|op ops IH]; intros w Hall; [done|].
  rewrite run_ops_cons. cbn [snd]. apply IH.
  eapply (table_step_Forall stamped); [| |apply run_op_table_step|done].
  - intros t r _ _. unfold stamped. cbn. split; eauto.
  - intros now r Hd Hs. unfold stamped, counted in *.
    destruct (expiry.should_soft_delete _); cbn; [split; eauto | done].
Qed.

Lemma sample_stamped : Forall stamped (rows sample.world).
Proof.
  unfold stamped. repeat constructor; cbn; try done;
    intros H; (discriminate || by destruct H || eauto).
Qed.

Lemma tombstones_stay_stamped_witness :
  Forall stamped (rows sample.world) /\
  Forall stamped
    (rows (run_ops [View "8Fk2QaL9"; Delete "Zx81mQp0"; Sweep]
                   sample.env sample.world).2).
Proof.
  split; [exact sample_stamped|].
  exact (tombstones_stay_stamped sample.env sample.world
           [View "8Fk2QaL9"; Delete "Zx81mQp0"; Sweep] sample_stamped).
Defined.

(** ** An explicit delete and what follows it *)

Lemma delete_wish_done env w s r :
  store_fails env (stmts w) = false ->
  store_fails env (S (stmts w)) = false ->
  resolve s (rows w) = Some r -> is_deleted r = false ->
  (wishes.delete_wish s env w).1 = Return tt /\
  rows (wishes.delete_wish s env w).2 =
    Session.update_row (set_deleted (utcnow_at env (tick w)) r) (rows w) /\
  stmts (wishes.delete_wish s env w).2 = S (S (stmts w)).
Proof.
  intros Hq Hc Hr Hd. pose proof (delete_wish_case env w s) as Hv.
  destruct (wishes.delete_wish s env w) as [res w']. cbn [fst snd] in *.
  inversion Hv; subst; try congruence.
  assert (r0 = r) as -> by congruence. done.
Qed.

Lemma delete_wish_tombstoned env w s r :
  store_fails env (stmts w) = false ->
  resolve s (rows w) = Some r -> is_deleted r = true ->
  (wishes.delete_wish s env w).1 = Raise NotFound.
Proof.
  intros Hq Hr Hd. pose proof (delete_wish_case env w s) as Hv.
  destruct (wishes.delete_wish s env w) as [res w']. cbn [fst snd] in *.
  inversion Hv; subst; congruence.
Qed.

Lemma get_wish_status_tombstoned env w s r :
  store_fails env (stmts w) = false ->
  resolve s (rows w) = Some r -> is_deleted r = true ->
  (wishes.get_wish_status s env w).1 =
  Return (wishes.StatusDeleted true "deleted" (deleted_at r)
                               "Wish has expired or been deleted").
Proof.
  intros Hq Hr Hd. destruct (get_wish_status_case env w s) as (Hv & _).
  destruct (wishes.get_wish_status s env w) as [res w']. cbn [fst snd] in *.
  inversion Hv; subst; congruence.
Qed.

(** X4: a delete request for a wish that is not tombstoned returns and
    tombstones exactly that row, stamping it with the clock reading and
    leaving its view counter alone; from then on a view of the slug raises
    410, a second delete raises 404, and a status request reports
    ["deleted"] with that timestamp. *)
Theorem delete_then_gone env w s r :
  unique_ids (rows w) ->
  store_fails env (stmts w) = false ->
  store_fails env (S (stmts w)) = false ->
  store_fails env (S (S (stmts w))) = false ->
  resolve s (rows w) = Some r -> is_deleted r = false ->
  (wishes.delete_wish s env w).1 = Return tt /\
  rows (wishes.delete_wish s env w).2 =
    Session.update_row (set_deleted (utcnow_at env (tick w)) r) (rows w) /\
  resolve s (rows (wishes.delete_wish s env w).2) =
    Some (set_deleted (utcnow_at env (tick w)) r) /\
  current_views (set_deleted (utcnow_at env (tick w)) r) = current_views r /\
  (wishes.view_wish s env (wishes.delete_wish s env w).2).1 = Raise Gone /\
  (wishes.delete_wish s env (wishes.delete_wish s env w).2).1 = Raise NotFound /\
  (wishes.get_wish_status s env (wishes.delete_wish s env w).2).1 =
    Return (wishes.StatusDeleted true "deleted" (Some (utcnow_at env (tick w)))
                                 "Wish has expired or been deleted").
Proof.
  intros Hu Hq Hc Hn Hr Hd.
  destruct (delete_wish_done env w s r Hq Hc Hr Hd) as (Hres & Hrows & Hst).
  set (w' := (wishes.delete_wish s env w).2) in *.
  assert (resolve s (rows w') = Some (set_deleted (utcnow_at env (tick w)) r)) as Hr'.
  { rewrite Hrows. by apply (update_row_first s _ r). }
  assert (store_fails env (stmts w') = false) as Hq' by (by rewrite Hst).
  split; [done|]. split; [done|]. split; [done|]. split; [done|].
  split; [| split].
  - by apply (view_wish_tombstoned env w' s _ Hq' Hr').
  - by apply (delete_wish_tombstoned env w' s _ Hq' Hr').
  - by apply (get_wish_status_tombstoned env w' s _ Hq' Hr').
Qed.

Lemma delete_then_gone_witness :
  resolve "Zx81mQp0" (rows sample.world) = Some sample.thrice /\
  is_deleted sample.thrice = false /\
  (wishes.delete_wish "Zx81mQp0" sample.env sample.world).1 = Return tt /\
  (wishes.view_wish "Zx81mQp0" sample.env
     (wishes.delete_wish "Zx81mQp0" sample.env sample.world).2).1 = Raise Gone.
Proof.
  split; [reflexivity|]. split; [reflexivity|].
  pose proof (delete_then_gone sample.env sample.world "Zx81mQp0" sample.thrice
                sample_unique_ids eq_refl eq_refl eq_refl eq_refl eq_refl)
    as (H1 & _ & _ & _ & H2 & _).
  exact (conj H1 H2).
Defined.

(** ** More about the sweep *)

Lemma sweep_no_faults env w :
  unique_ids (rows w) ->
  store_fails env (stmts w) = false ->
  store_fails env (S (stmts w)) = false ->
  (forall r, r ∈ rows w -> row_goes env r) ->
  (exists im er,
     (cleanup.cleanup_expired_wishes env w).1 =
       Return (Z.of_nat (length (base.filter (cleanup.purgeable (cutoff_at env w))
                                             (rows w))), im, er)) /\
  rows (cleanup.cleanup_expired_wishes env w).2 =
    base.filter (fun r => ~ cleanup.purgeable (cutoff_at env w) r) (rows w) /\
  stmts (cleanup.cleanup_expired_wishes env w).2 = S (S (stmts w)).
Proof.
  intros Hu Hq Hc Hgo.
  pose proof (cleanup_expired_wishes_case env w) as Hs.
  destruct (cleanup.cleanup_expired_wishes env w) as [res w']. cbn [fst snd] in *.
  inversion Hs as [ | | errors w'' Hf1 Hf2 Hr Hst ]; subst; try congruence.
  assert (base.filter (row_goes env)
            (base.filter (cleanup.purgeable (cutoff_at env w)) (rows w)) =
          base.filter (cleanup.purgeable (cutoff_at env w)) (rows w)) as Hall.
  { apply filter_all. intros x Hx. apply list_elem_of_filter in Hx as [_ Hx].
    by apply Hgo. }
  rewrite Hall in *. split; [eauto|]. split; [|done].
  rewrite Hr. by apply delete_rows_selected.
Qed.

(** X5: the sweep spares what is not due, whatever fails.  In a table with
    unique ids, every row that is not tombstoned, or was tombstoned at or
    after the cutoff, is in the table after the sweep exactly as before; and
    the sweep changes no row: every row afterwards was there before. *)
Theorem sweep_spares_rows_not_due env w r :
  unique_ids (rows w) ->
  r ∈ rows w ->
  ~ cleanup.purgeable (cutoff_at env w) r ->
  r ∈ rows (cleanup.cleanup_expired_wishes env w).2 /\
  forall x, x ∈ rows (cleanup.cleanup_expired_wishes env w).2 -> x ∈ rows w.
Proof.
  intros Hu Hr Hnot.
  pose proof (cleanup_expired_wishes_case env w) as Hs.
  destruct (cleanup.cleanup_expired_wishes env w) as [res w']. cbn [fst snd] in *.
  inversion Hs as [ ? ? Hrows | ? ? ? Hrows | ? ? ? ? Hrows ]; subst;
    rewrite Hrows; try done.
  split.
  - apply list_elem_of_filter. split; [|done]. intros Hin.
    apply list_elem_of_fmap in Hin as (y & Hid & Hy).
    apply list_elem_of_filter in Hy as [_ Hy].
    apply list_elem_of_filter in Hy as [Hp Hy].
    by rewrite (NoDup_fmap_elem_inj id (rows w) r y Hu Hr Hy Hid) in Hnot.
  - intros x Hx. by apply list_elem_of_filter in Hx as [_ Hx].
Qed.

Lemma sweep_spares_rows_not_due_witness :
  sample.at_cutoff ∈ rows sample.world /\
  ~ cleanup.purgeable (cutoff_at sample.env_rmtree_fails sample.world) sample.at_cutoff /\
  sample.at_cutoff ∈
    rows (cleanup.cleanup_expired_wishes sample.env_rmtree_fails sample.world).2.
Proof.
  assert (sample.at_cutoff ∈ rows sample.world) as Hin.
  { vm_compute. do 3 apply list_elem_of_further. apply list_elem_of_here. }
  assert (~ cleanup.purgeable (cutoff_at sample.env_rmtree_fails sample.world)
            sample.at_cutoff) as Hnot.
  { intros (_ & d & Hd & Hlt). vm_compute in Hd. injection Hd as <-.
    vm_compute in Hlt. discriminate. }
  split; [exact Hin|]. split; [exact Hnot|].
  exact (proj1 (sweep_spares_rows_not_due sample.env_rmtree_fails sample.world
                  sample.at_cutoff sample_unique_ids Hin Hnot)).
Defined.


(** X6: a second sweep finds nothing.  After a sweep in which nothing failed,
    a sweep whose cutoff is not later than the first one's (the clock did not
    advance) purges no row and returns the counters (0, 0, 0). *)
Theorem sweep_again_finds_nothing env w :
  unique_ids (rows w) ->
  (forall k, (stmts w <= k < stmts w + 4)%nat -> store_fails env k = false) ->
  (forall r, r ∈ rows w -> row_goes env r) ->
  cutoff_at env (cleanup.cleanup_expired_wishes env w).2 <= cutoff_at env w ->
  (cleanup.cleanup_expired_wishes env (cleanup.cleanup_expired_wishes env w).2).1 =
    Return (0, 0, 0) /\
  rows (cleanup.cleanup_expired_wishes env (cleanup.cleanup_expired_wishes env w).2).2 =
    rows (cleanup.cleanup_expired_wishes env w).2.
Proof.
  intros Hu Hok Hgo Hclock.
  destruct (sweep_no_faults env w Hu) as (_ & Hrows1 & Hst1);
    [apply Hok; lia | apply Hok; lia | done |].
  set (w1 := (cleanup.cleanup_expired_wishes env w).2) in *.
  assert (base.filter (cleanup.purgeable (cutoff_at env w1)) (rows w1) = []) as Hnone.
  { destruct (base.filter (cleanup.purgeable (cutoff_at env w1)) (rows w1))
      as [|x l] eqn:Hf; [done|]. exfalso.
    assert (x ∈ base.filter (cleanup.purgeable (cutoff_at env w1)) (rows w1)) as Hx
      by (rewrite Hf; left).
    apply list_elem_of_filter in Hx as [(Hd & d & Hda & Hlt) Hx].
    rewrite Hrows1 in Hx. apply list_elem_of_filter in Hx as [Hnot _].
    apply Hnot. split; [done|]. exists d. split; [done | lia]. }
  assert (unique_ids (rows w1)) as Hu1.
  { rewrite Hrows1. unfold unique_ids. by apply NoDup_fmap_filter. }
  pose proof (cleanup_expired_wishes_case env w1) as Hs.
  destruct (cleanup.cleanup_expired_wishes env w1) as [res w2]. cbn [fst snd] in *.
  inversion Hs as [ ? Hf | ? Hf1 Hf2 | errors ? Hf1 Hf2 Hr Hst Herr ]; subst.
  - rewrite Hst1, Hok in Hf by lia. discriminate.
  - rewrite Hst1, Hok in Hf2 by lia. discriminate.
  - destruct (Herr Hu1) as (-> & _). rewrite Hnone in *.
    rewrite filter_nil in *. cbn. split; [done|].
    rewrite Hr. apply delete_rows_nil.
Qed.

Lemma sweep_again_finds_nothing_witness :
  cutoff_at frozen.env (cleanup.cleanup_expired_wishes frozen.env sample.world).2 <=
    cutoff_at frozen.env sample.world /\
  (cleanup.cleanup_expired_wishes frozen.env sample.world).1 = Return (1, 1, 0) /\
  (cleanup.cleanup_expired_wishes frozen.env
     (cleanup.cleanup_expired_wishes frozen.env sample.world).2).1 = Return (0, 0, 0).
Proof.
  assert (cutoff_at frozen.env (cleanup.cleanup_expired_wishes frozen.env sample.world).2 <=
          cutoff_at frozen.env sample.world) as Hclock.
  { vm_compute. discriminate. }
  split; [exact Hclock|]. split; [vm_compute; reflexivity|].
  refine (proj1 (sweep_again_finds_nothing frozen.env sample.world
                   sample_unique_ids _ _ Hclock)).
  - intros k _. reflexivity.
  - intros r _. split; reflexivity.
Defined.

Lemma length_filter_split {A} (P Q : A -> Prop)
    `{!forall x, Decision (P x)} `{!forall x, Decision (Q x)} (l : list A) :
  (forall x, P x -> Q x -> False) ->
  (length (base.filter P l) + length (base.filter Q l) =
   length (base.filter (fun x => P x \/ Q x) l))%nat.
Proof.
  intros Hdis. induction l as [|a l IH]; [done|].
  rewrite !filter_cons.
  destruct (decide (P a)) as [Hp|Hp]; destruct (decide (Q a)) as [Hq|Hq].
  - destruct (Hdis a Hp Hq).
  - rewrite decide_True by tauto. cbn. lia.
  - rewrite decide_True by tauto. cbn. lia.
  - rewrite decide_False by tauto. lia.
Qed.

(** X7: the summary counts what a sweep would take.  With the database
    reachable and no row failing, the summary's count of wishes ready for
    deletion is the number of wishes a sweep started at the same moment
    deletes; its two tombstone counts add up to the number of tombstoned rows
    that carry a timestamp; and [total_wishes] is the size of the table. *)
Theorem summary_counts_what_sweep_takes env w :
  unique_ids (rows w) ->
  (forall k, (stmts w <= k < stmts w + 4)%nat -> store_fails env k = false) ->
  (forall r, r ∈ rows w -> row_goes env r) ->
  exists s im er,
    (cleanup.get_cleanup_summary env w).1 = Return s /\
    (cleanup.cleanup_expired_wishes env w).1 =
      Return (cleanup.expired_wishes_ready_for_deletion s, im, er) /\
    cleanup.error s = None /\
    cleanup.total_wishes s = Z.of_nat (length (rows w)) /\
    cleanup.expired_wishes_ready_for_deletion s + cleanup.wishes_in_grace_period s =
      Z.of_nat (length (base.filter
                          (fun r => is_deleted r = true /\ is_Some (deleted_at r))
                          (rows w))).
Proof.
  intros Hu Hok Hgo.
  destruct (get_cleanup_summary_case env w) as (_ & _ & _ & Hsum).
  specialize (Hsum Hok).
  destruct (sweep_no_faults env w Hu) as ((im & er & Hsweep) & _);
    [apply Hok; lia | apply Hok; lia | done |].
  eexists _, im, er. split; [exact Hsum|]. cbn.
  split; [exact Hsweep|]. split; [done|]. split; [done|].
  rewrite <- Nat2Z.inj_add. f_equal.
  rewrite length_filter_split.
  - f_equal. apply list_filter_iff. intros r.
    unfold cleanup.purgeable, cleanup.in_grace_period. split.
    + intros [(Hd & d & Hda & _)|(Hd & d & Hda & _)]; split; eauto.
    + intros (Hd & d & Hda).
      destruct (decide (d < cutoff_at env w)); [left | right];
        (split; [done|]); exists d; (split; [done | lia]).
  - intros r (_ & d & Hda & Hlt) (_ & d' & Hda' & Hle).
    rewrite Hda in Hda'. injection Hda' as <-. lia.
Qed.

Lemma summary_counts_what_sweep_takes_witness :
  exists s im er,
    (cleanup.get_cleanup_summary sample.env sample.world).1 = Return s /\
    (cleanup.cleanup_expired_wishes sample.env sample.world).1 =
      Return (cleanup.expired_wishes_ready_for_deletion s, im, er) /\
    cleanup.error s = None /\
    cleanup.total_wishes s = Z.of_nat (length (rows sample.world)) /\
    cleanup.expired_wishes_ready_for_deletion s + cleanup.wishes_in_grace_period s =
      Z.of_nat (length (base.filter
                          (fun r => is_deleted r = true /\ is_Some (deleted_at r))
                          (rows sample.world))).
Proof.
  apply (summary_counts_what_sweep_takes sample.env sample.world sample_unique_ids).
  - intros k _. reflexivity.
  - intros r _. split; reflexivity.
Defined.

(** X8: the sweep and the upload directories.  With the database reachable
    and ids unique, the directory of every purged wish whose [rmtree] did not
    fail is gone after the sweep, and no directory of a wish that was not a
    candidate is created or removed. *)
Theorem sweep_removes_directories_of_purged env w :
  unique_ids (rows w) ->
  store_fails env (stmts w) = false ->
  store_fails env (S (stmts w)) = false ->
  (forall x, x ∈ base.filter (cleanup.purgeable (cutoff_at env w)) (rows w) ->
             row_goes env x -> rmtree_fails env (id x) = false ->
             id x ∉ dirs (cleanup.cleanup_expired_wishes env w).2) /\
  (forall i, i ∉ (id <$> base.filter (cleanup.purgeable (cutoff_at env w)) (rows w)) ->
             (i ∈ dirs (cleanup.cleanup_expired_wishes env w).2 <-> i ∈ dirs w)).
Proof.
  intros Hu Hq Hc.
  pose proof (cleanup_expired_wishes_case env w) as Hs.
  destruct (cleanup.cleanup_expired_wishes env w) as [res w']. cbn [fst snd] in *.
  inversion Hs as [ | | errors ? Hf1 Hf2 Hr Hst Herr ]; subst; try congruence.
  destruct (Herr Hu) as (_ & Hkeep & Hgone). by split.
Qed.

Lemma sweep_removes_directories_of_purged_witness :
  store_fails sample.env (stmts sample.world) = false /\
  3 ∈ dirs sample.world /\
  3 ∉ dirs (cleanup.cleanup_expired_wishes sample.env sample.world).2.
Proof.
  split; [reflexivity|]. split; [vm_compute; reflexivity|].
  apply (proj1 (sweep_removes_directories_of_purged sample.env sample.world
                  sample_unique_ids eq_refl eq_refl) sample.dead).
  - apply list_elem_of_filter. split.
    + split; [reflexivity|]. exists 100. split; [reflexivity | vm_compute; reflexivity].
    + vm_compute. do 2 apply list_elem_of_further. apply list_elem_of_here.
  - split; reflexivity.
  - reflexivity.
Defined.


(** ** The client address *)

Lemma app_cons c s t : String c s +:+ t = String c (s +:+ t).
Proof. reflexivity. Qed.

Lemma chars_app s t : chars (s +:+ t) = chars s ++ chars t.
Proof.
  induction s as [|c s IH]; [done|].
  rewrite app_cons. cbn [chars]. by rewrite IH.
Qed.

Lemma first_field_no_sep sep s : sep ∉ chars (pystr.first_field sep s).
Proof.
  induction s as [|c s IH]; cbn; [apply not_elem_of_nil|].
  destruct (decide (c = sep)); cbn; [apply not_elem_of_nil|].
  apply not_elem_of_cons. split; [congruence | done].
Qed.

Lemma first_field_prefix sep s : exists post, s = pystr.first_field sep s +:+ post.
Proof.
  induction s as [|c s [post IH]]; cbn [pystr.first_field]; [by exists ""|].
  destruct (decide (c = sep)).
  - by eexists.
  - exists post. rewrite app_cons. f_equal. exact IH.
Qed.

Lemma lstrip_suffix s : exists pre, s = pre +:+ pystr.lstrip s.
Proof.
  induction s as [|c s [pre IH]]; cbn [pystr.lstrip]; [by exists ""|].
  destruct (pystr.isspace c).
  - exists (String c pre). rewrite app_cons. f_equal. exact IH.
  - by exists "".
Qed.

Lemma lstrip_head s c : head (chars (pystr.lstrip s)) = Some c -> pystr.isspace c = false.
Proof.
  induction s as [|a s IH]; simpl; [done|].
  destruct (pystr.isspace a) eqn:Ha; [done|]. simpl. congruence.
Qed.

Lemma rstrip_prefix s : exists post, s = pystr.rstrip s +:+ post.
Proof.
  induction s as [|c s [post IH]]; cbn [pystr.rstrip]; [by exists ""|].
  destruct (pystr.rstrip s) as [|a t] eqn:Hr.
  - destruct (pystr.isspace c).
    + by eexists.
    + exists post. rewrite app_cons. f_equal. exact IH.
  - exists post. rewrite app_cons. f_equal. exact IH.
Qed.

Lemma rstrip_last s c : last (chars (pystr.rstrip s)) = Some c -> pystr.isspace c = false.
Proof.
  induction s as [|a s IH]; simpl; [done|].
  destruct (pystr.rstrip s) as [|b t] eqn:Hr.
  - destruct (pystr.isspace a) eqn:Ha; simpl; [done | congruence].
  - simpl in *. done.
Qed.

Lemma rstrip_head s c :
  head (chars (pystr.rstrip s)) = Some c -> head (chars s) = Some c.
Proof.
  destruct s as [|a s]; simpl; [done|].
  destruct (pystr.rstrip s) as [|b t]; [destruct (pystr.isspace a)|]; simpl; done.
Qed.

(** X9: the address a request is counted under.  When the request carries a
    non-empty [X-Forwarded-For] header, [get_client_ip] returns a stretch of
    that header that comes before its first comma, holds no comma and neither
    starts nor ends with white space, whatever address the connection has;
    otherwise it returns the host of the connection, or ["unknown"] when
    there is none. *)
Theorem get_client_ip_spec request :
  match x_forwarded_for request with
  | Some (String c t) =>
      (pystr.comma ∉ chars (ratelimit.get_client_ip request)) /\
      (exists pre post,
         pystr.first_field pystr.comma (String c t) =
           pre +:+ (ratelimit.get_client_ip request +:+ post)) /\
      (exists rest,
         String c t = pystr.first_field pystr.comma (String c t) +:+ rest) /\
      (forall a, head (chars (ratelimit.get_client_ip request)) = Some a ->
                 pystr.isspace a = false) /\
      (forall a, last (chars (ratelimit.get_client_ip request)) = Some a ->
                 pystr.isspace a = false)
  | _ =>
      ratelimit.get_client_ip request =
        match client_host request with
        | Some host => host
        | None => "unknown"
        end
  end.
Proof.
  unfold ratelimit.get_client_ip.
  destruct (x_forwarded_for request) as [[|c t]|]; [done| |done].
  set (f := pystr.first_field pystr.comma (String c t)).
  unfold pystr.strip.
  destruct (lstrip_suffix f) as [pre Hpre].
  destruct (rstrip_prefix (pystr.lstrip f)) as [post Hpost].
  split; [| split; [| split; [| split]]].
  - intros Hin. apply (first_field_no_sep pystr.comma (String c t)). fold f.
    rewrite Hpre, chars_app. apply elem_of_app. right.
    rewrite Hpost, chars_app. apply elem_of_app. by left.
  - exists pre, post. by rewrite <- Hpost.
  - apply first_field_prefix.
  - intros a Ha. apply rstrip_head in Ha. by eapply lstrip_head.
  - apply rstrip_last.
Qed.

Example get_client_ip_first_hop :
  ratelimit.get_client_ip
    (mkRequest (Some " 203.0.113.7 , 10.0.0.1") None (Some "10.0.0.9")) =
  "203.0.113.7".
Proof. reflexivity. Qed.


(** ** The rate limit *)

Lemma increment_rate_limit_run (env : Env) (w : World) (st : ratelimit.Storage)
    (ip : string) :
  exists w',
    ratelimit.increment_rate_limit ip env (w, st) =
      (Return tt,
       (w', <[(ip, ratelimit.date_of (utcnow_at env (tick w))) :=
               match st !! (ip, ratelimit.date_of (utcnow_at env (tick w))) with
               | Some e => ratelimit.mkEntry (ratelimit.count e + 1) (ratelimit.reset e)
               | None => ratelimit.mkEntry 1 (utcnow_at env (S (tick w)) + ratelimit.one_day)
               end]> st)) /\
    rows w' = rows w /\ dirs w' = dirs w /\ stmts w' = stmts w /\ logs w' = logs w.
Proof.
  unfold ratelimit.increment_rate_limit. unfold_st. cbn [tick rows stmts dirs logs].
  set (key := (ip, ratelimit.date_of (utcnow_at env (tick w)))).
  destruct (st !! key) as [e|] eqn:He.
  - assert (alter (fun e0 => ratelimit.mkEntry (ratelimit.count e0 + 1) (ratelimit.reset e0))
                  key st =
            <[key := ratelimit.mkEntry (ratelimit.count e + 1) (ratelimit.reset e)]> st)
      as ->.
    { apply map_eq. intros k. destruct (decide (k = key)) as [->|Hk].
      - rewrite lookup_alter_eq, lookup_insert_eq, He. done.
      - rewrite lookup_alter_ne, lookup_insert_ne by done. done. }
    eexists. split; [reflexivity | done].
  - cbn [tick rows stmts dirs logs].
    assert (alter (fun e0 => ratelimit.mkEntry (ratelimit.count e0 + 1) (ratelimit.reset e0))
                  key
                  (<[key := ratelimit.mkEntry 0 (utcnow_at env (S (tick w)) + ratelimit.one_day)]> st) =
            <[key := ratelimit.mkEntry 1 (utcnow_at env (S (tick w)) + ratelimit.one_day)]> st)
      as ->.
    { apply map_eq. intros k. destruct (decide (k = key)) as [->|Hk].
      - rewrite lookup_alter_eq, !lookup_insert_eq. done.
      - rewrite lookup_alter_ne, !lookup_insert_ne by done. done. }
    eexists. split; [reflexivity | done].
Qed.

(** X10: counting a creation.  [increment_rate_limit] adds one to the count
    kept for the address and the day of its clock reading, starting from 0
    when there is no entry yet; the reset time of an entry is set when the
    entry is made (one day after the next clock reading) and kept afterwards;
    the entries of all other addresses and days, and the table, stay as they
    are. *)
Theorem increment_rate_limit_counts_one (env : Env) (w : World)
    (st : ratelimit.Storage) (ip : string) :
  (ratelimit.increment_rate_limit ip env (w, st)).1 = Return tt /\
  rows (ratelimit.increment_rate_limit ip env (w, st)).2.1 = rows w /\
  counted_for (ratelimit.increment_rate_limit ip env (w, st)).2.2
              (ip, ratelimit.date_of (utcnow_at env (tick w))) =
    counted_for st (ip, ratelimit.date_of (utcnow_at env (tick w))) + 1 /\
  ratelimit.reset <$>
    (ratelimit.increment_rate_limit ip env (w, st)).2.2
      !! (ip, ratelimit.date_of (utcnow_at env (tick w))) =
    Some (match st !! (ip, ratelimit.date_of (utcnow_at env (tick w))) with
          | Some e => ratelimit.reset e
          | None => utcnow_at env (S (tick w)) + ratelimit.one_day
          end) /\
  forall k, k <> (ip, ratelimit.date_of (utcnow_at env (tick w))) ->
            (ratelimit.increment_rate_limit ip env (w, st)).2.2 !! k = st !! k.
Proof.
  destruct (increment_rate_limit_run env w st ip) as (w' & Hrun & Hrows & _).
  rewrite Hrun. cbn [fst snd]. unfold counted_for.
  split; [done|]. split; [done|].
  rewrite lookup_insert_eq.
  split; [| split].
  - destruct (st !! _); cbn; lia.
  - by destruct (st !! _).
  - intros k Hk. by rewrite lookup_insert_ne.
Qed.

Lemma increments_run (env : Env) (ip : string) (d : Z) :
  (forall k, ratelimit.date_of (utcnow_at env k) = d) ->
  forall n (w : World) (st : ratelimit.Storage),
  exists w' st',
    for_each (replicate n ip) ratelimit.increment_rate_limit env (w, st) =
      (Return tt, (w', st')) /\
    rows w' = rows w /\
    counted_for st' (ip, d) = counted_for st (ip, d) + Z.of_nat n /\
    (n <> 0%nat -> is_Some (st' !! (ip, d))) /\
    forall k, k <> (ip, d) -> st' !! k = st !! k.
Proof.
  intros Hday. induction n as [|n IH]; intros w st.
  { exists w, st. cbn. repeat split; (done || lia). }
  destruct (increment_rate_limit_run env w st ip) as (w1 & Hrun & Hrows & _).
  rewrite Hday in Hrun.
  destruct (IH w1 (<[(ip, d) :=
                      match st !! (ip, d) with
                      | Some e => ratelimit.mkEntry (ratelimit.count e + 1) (ratelimit.reset e)
                      | None => ratelimit.mkEntry 1 (utcnow_at env (S (tick w)) + ratelimit.one_day)
                      end]> st))
    as (w2 & st2 & Hrun2 & Hrows2 & Hcount2 & Hsome2 & Hother2).
  exists w2, st2. split.
  { cbn [replicate for_each]. unfold mbind, ST_bind. rewrite Hrun. exact Hrun2. }
  split; [congruence|]. split; [| split].
  - rewrite Hcount2. unfold counted_for. rewrite lookup_insert_eq.
    destruct (st !! (ip, d)); cbn; lia.
  - intros _. destruct n as [|n]; [|by apply Hsome2].
    cbn in Hrun2. injection Hrun2 as <- <-. rewrite lookup_insert_eq. by destruct (st !! _).
  - intros k Hk. rewrite Hother2 by done. by rewrite lookup_insert_ne.
Qed.

(** X11: the daily quota.  Take an address with no entry for the day [d],
    and a clock that stays on day [d].  After [n] counted creations,
    [check_rate_limit] lets the address through exactly when
    [n < MAX_WISHES_PER_IP_PER_DAY], whatever the entries of other addresses
    and other days say; otherwise it refuses with a message. *)
Theorem rate_limit_allows_up_to_max (deps : Deps) (env : Env) (w : World)
    (st : ratelimit.Storage) (ip : string) (d : Z) (n : nat) :
  (forall k, ratelimit.date_of (utcnow_at env k) = d) ->
  st !! (ip, d) = None ->
  (Z.of_nat n < MAX_WISHES_PER_IP_PER_DAY deps /\
   (ratelimit.check_rate_limit deps ip env
      (for_each (replicate n ip) ratelimit.increment_rate_limit env (w, st)).2).1 =
     Return (true, None)) \/
  (MAX_WISHES_PER_IP_PER_DAY deps <= Z.of_nat n /\
   exists msg,
     (ratelimit.check_rate_limit deps ip env
        (for_each (replicate n ip) ratelimit.increment_rate_limit env (w, st)).2).1 =
       Return (false, Some msg)).
Proof.
  intros Hday Hnone.
  destruct (increments_run env ip d Hday n w st)
    as (w' & st' & Hrun & _ & Hcount & _).
  rewrite Hrun. cbn [snd].
  unfold counted_for in Hcount. rewrite Hnone, Z.add_0_l in Hcount.
  unfold ratelimit.check_rate_limit. unfold_st. cbn [tick rows stmts dirs logs].
  rewrite Hday.
  destruct (decide (Z.of_nat n < MAX_WISHES_PER_IP_PER_DAY deps)) as [Hlt|Hge].
  - left. split; [done|].
    rewrite bool_decide_eq_false_2; [done|].
    destruct (st' !! (ip, d)); lia.
  - right. split; [lia|].
    rewrite bool_decide_eq_true_2 by (destruct (st' !! (ip, d)); lia).
    destruct (st' !! (ip, d)); eexists; reflexivity.
Qed.


(** ** Creating a wish *)

Lemma filter_id_fresh (i : Z) (tbl : list Wish) :
  i ∉ (id <$> tbl) -> base.filter (fun r => id r = i) tbl = [].
Proof.
  intros Hfresh. induction tbl as [|r tbl IH]; [done|].
  cbn in Hfresh. apply not_elem_of_cons in Hfresh as [Hne Hfresh].
  rewrite filter_cons, decide_False by congruence. by apply IH.
Qed.

(** What a creation does to the table and to the rate limit storage. *)
Lemma create_wish_effect (deps : Deps) (env : Env) (w : World)
    (st : ratelimit.Storage) (d : creation.WishCreate) (req : Request) :
  exists new,
    rows (creation.create_wish deps d req env (w, st)).2.1 = rows w ++ new /\
    dirs (creation.create_wish deps d req env (w, st)).2.1 = dirs w /\
    (new = [] \/
     exists i s now,
       new = [created_row deps d (ratelimit.get_client_ip req) i s now] /\
       (i ∉ (id <$> rows w)) /\ (s ∉ (slug <$> rows w))) /\
    (forall e, (creation.create_wish deps d req env (w, st)).1 = Raise e ->
               (creation.create_wish deps d req env (w, st)).2.2 = st) /\
    (forall r, (creation.create_wish deps d req env (w, st)).1 = Return r ->
               length new = 1%nat).
Proof.
  unfold creation.create_wish, ratelimit.check_rate_limit. unfold_st.
  cbn [tick rows stmts dirs logs].
  set (ip := ratelimit.get_client_ip req).
  set (key := (ip, ratelimit.date_of (utcnow_at env (tick w)))).
  destruct (bool_decide (MAX_WISHES_PER_IP_PER_DAY deps <= _)) eqn:Hmax.
  { destruct (st !! key) as [e|]; cbn; exists []; rewrite app_nil_r;
      (split; [done|]); (split; [done|]); (split; [by left|]); split; done. }
  cbn [negb]. unfold creation.slug_for_table. cbn [tick rows stmts dirs logs].
  destruct (generate_unique_slug deps (rows w)) as [s|] eqn:Hslug.
  2:{ cbn. exists []. rewrite app_nil_r.
      (split; [done|]); (split; [done|]); (split; [by left|]); split; done. }
  unfold creation.add_and_commit. unfold_st. cbn [tick rows stmts dirs logs].
  destruct (store_fails env (stmts w)) eqn:Hq.
  { cbn. exists []. rewrite app_nil_r.
    (split; [done|]); (split; [done|]); (split; [by left|]); split; done. }
  cbn [id slug].
  destruct (bool_decide (_ \/ _)) eqn:Hfresh.
  { cbn. exists []. rewrite app_nil_r.
    (split; [done|]); (split; [done|]); (split; [by left|]); split; done. }
  apply bool_decide_eq_false in Hfresh.
  assert ((next_id deps (rows w) ∉ (id <$> rows w)) /\ (s ∉ (slug <$> rows w)))
    as [Hid Hs] by tauto.
  unfold creation.refresh, Session.execute. unfold_st. cbn [tick rows stmts dirs logs].
  exists [created_row deps d ip (next_id deps (rows w)) s (utcnow_at env (S (tick w)))].
  assert ([created_row deps d ip (next_id deps (rows w)) s (utcnow_at env (S (tick w)))] = [] \/
          exists i s0 now,
            [created_row deps d ip (next_id deps (rows w)) s (utcnow_at env (S (tick w)))] =
              [created_row deps d ip i s0 now] /\
            (i ∉ (id <$> rows w)) /\ (s0 ∉ (slug <$> rows w))) as Hnew.
  { right. eexists _, _, _. split; [reflexivity|]. by split. }
  destruct (store_fails env (S (stmts w))) eqn:Hc.
  { cbn [fst snd tick rows stmts dirs logs].
    split; [done|]. split; [done|]. split; [exact Hnew|]. split; done. }
  destruct (head _) as [r|] eqn:Hhead.
  2:{ cbn [fst snd tick rows stmts dirs logs].
      split; [done|]. split; [done|]. split; [exact Hnew|]. split; done. }
  cbn [tick rows stmts dirs logs].
  match goal with
  | |- context [ratelimit.increment_rate_limit ip env (?w1, st)] =>
      destruct (increment_rate_limit_run env w1 st ip)
        as (w2 & Hrun & Hrows2 & Hdirs2 & _)
  end.
  rewrite Hrun. cbn [tick rows stmts dirs logs fst snd] in *.
  split; [done|]. split; [done|]. split; [exact Hnew|]. split; done.
Qed.

Lemma create_wish_success_run (deps : Deps) (env : Env) (w : World)
    (st : ratelimit.Storage) (d : creation.WishCreate) (req : Request) (s : string) :
  counted_for st (ratelimit.get_client_ip req,
                  ratelimit.date_of (utcnow_at env (tick w)))
    < MAX_WISHES_PER_IP_PER_DAY deps ->
  generate_unique_slug deps (rows w) = Some s ->
  s ∉ (slug <$> rows w) ->
  next_id deps (rows w) ∉ (id <$> rows w) ->
  store_fails env (stmts w) = false ->
  store_fails env (S (stmts w)) = false ->
  (creation.create_wish deps d req env (w, st)).1 =
    Return (creation.mkWishCreateResponse s (BASE_URL env +:+ "/w/" +:+ s)) /\
  rows (creation.create_wish deps d req env (w, st)).2.1 =
    rows w ++ [created_row deps d (ratelimit.get_client_ip req)
                 (next_id deps (rows w)) s (utcnow_at env (S (tick w)))] /\
  stmts (creation.create_wish deps d req env (w, st)).2.1 = S (S (stmts w)) /\
  (creation.create_wish deps d req env (w, st)).2.2 =
    <[(ratelimit.get_client_ip req,
       ratelimit.date_of (utcnow_at env (S (S (tick w))))) :=
        match st !! (ratelimit.get_client_ip req,
                     ratelimit.date_of (utcnow_at env (S (S (tick w))))) with
        | Some e => ratelimit.mkEntry (ratelimit.count e + 1) (ratelimit.reset e)
        | None => ratelimit.mkEntry 1 (utcnow_at env (S (S (S (tick w)))) +
                                       ratelimit.one_day)
        end]> st.
Proof.
  intros Hmax Hslug Hs Hid Hq Hc.
  unfold creation.create_wish, ratelimit.check_rate_limit. unfold_st.
  cbn [tick rows stmts dirs logs].
  set (ip := ratelimit.get_client_ip req) in *.
  set (key := (ip, ratelimit.date_of (utcnow_at env (tick w)))) in *.
  unfold counted_for in Hmax.
  rewrite bool_decide_eq_false_2 by lia.
  cbn [negb]. unfold creation.slug_for_table. cbn [tick rows stmts dirs logs].
  rewrite Hslug.
  unfold creation.add_and_commit. unfold_st. cbn [tick rows stmts dirs logs].
  rewrite Hq. cbn [id slug].
  rewrite bool_decide_eq_false_2 by tauto.
  unfold creation.refresh, Session.execute. unfold_st.
  cbn [tick rows stmts dirs logs id].
  rewrite Hc. rewrite filter_app, (filter_id_fresh _ _ Hid).
  rewrite filter_cons, decide_True by done. cbn [app head].
  match goal with
  | |- context [ratelimit.increment_rate_limit ip env (?w1, st)] =>
      destruct (increment_rate_limit_run env w1 st ip)
        as (w2 & Hrun & Hrows2 & _ & Hst2 & _)
  end.
  rewrite Hrun. cbn [tick rows stmts dirs logs fst snd] in *.
  done.
Qed.

(** X12: a creation over the limit.  When the count kept for the address of
    the request and the current day has reached
    [MAX_WISHES_PER_IP_PER_DAY], [create_wish] raises 429 without asking for
    a slug or touching the database: the table, the statement counter and the
    rate limit storage stay as they are. *)
Theorem create_wish_over_limit (deps : Deps) (env : Env) (w : World)
    (st : ratelimit.Storage) (d : creation.WishCreate) (req : Request) :
  MAX_WISHES_PER_IP_PER_DAY deps <=
    counted_for st (ratelimit.get_client_ip req,
                    ratelimit.date_of (utcnow_at env (tick w))) ->
  (exists msg,
     (creation.create_wish deps d req env (w, st)).1 = Raise (HTTPException 429 msg)) /\
  rows (creation.create_wish deps d req env (w, st)).2.1 = rows w /\
  stmts (creation.create_wish deps d req env (w, st)).2.1 = stmts w /\
  (creation.create_wish deps d req env (w, st)).2.2 = st.
Proof.
  intros Hmax.
  unfold creation.create_wish, ratelimit.check_rate_limit. unfold_st.
  cbn [tick rows stmts dirs logs]. unfold counted_for in Hmax.
  rewrite bool_decide_eq_true_2 by done.
  destruct (st !! _) as [e|]; cbn; (split; [eexists; reflexivity | done]).
Qed.

Lemma create_wish_over_limit_witness :
  MAX_WISHES_PER_IP_PER_DAY visitor.deps <=
    counted_for {[("203.0.113.7", 0) := ratelimit.mkEntry 2 86400000000]}
      (ratelimit.get_client_ip visitor.request,
       ratelimit.date_of (utcnow_at sample.env (tick sample.world))) /\
  rows (creation.create_wish visitor.deps visitor.wish_data visitor.request sample.env
          (sample.world, {[("203.0.113.7", 0) := ratelimit.mkEntry 2 86400000000]})).2.1 =
    rows sample.world.
Proof.
  assert (MAX_WISHES_PER_IP_PER_DAY visitor.deps <=
          counted_for {[("203.0.113.7", 0) := ratelimit.mkEntry 2 86400000000]}
            (ratelimit.get_client_ip visitor.request,
             ratelimit.date_of (utcnow_at sample.env (tick sample.world)))) as Hmax.
  { vm_compute. discriminate. }
  split; [exact Hmax|].
  exact (proj1 (proj2 (create_wish_over_limit visitor.deps sample.env sample.world _
                         visitor.wish_data visitor.request Hmax))).
Defined.

(** X13: a creation that goes through.  Under the limit, with a slug and an
    id that the table does not hold yet and the database reachable,
    [create_wish] returns the slug and the URL [BASE_URL/w/slug]; the table
    gains exactly one row at its end, with the content and the limits of the
    request, [current_views = 0], no tombstone and no image; and the count
    of the address for the day of the later clock reading goes up by one. *)
Theorem create_wish_adds_one_row (deps : Deps) (env : Env) (w : World)
    (st : ratelimit.Storage) (d : creation.WishCreate) (req : Request) (s : string) :
  counted_for st (ratelimit.get_client_ip req,
                  ratelimit.date_of (utcnow_at env (tick w)))
    < MAX_WISHES_PER_IP_PER_DAY deps ->
  generate_unique_slug deps (rows w) = Some s ->
  s ∉ (slug <$> rows w) ->
  next_id deps (rows w) ∉ (id <$> rows w) ->
  store_fails env (stmts w) = false ->
  store_fails env (S (stmts w)) = false ->
  (creation.create_wish deps d req env (w, st)).1 =
    Return (creation.mkWishCreateResponse s (BASE_URL env +:+ "/w/" +:+ s)) /\
  rows (creation.create_wish deps d req env (w, st)).2.1 =
    rows w ++ [created_row deps d (ratelimit.get_client_ip req)
                 (next_id deps (rows w)) s (utcnow_at env (S (tick w)))] /\
  counted_for (creation.create_wish deps d req env (w, st)).2.2
              (ratelimit.get_client_ip req,
               ratelimit.date_of (utcnow_at env (S (S (tick w))))) =
    counted_for st (ratelimit.get_client_ip req,
                    ratelimit.date_of (utcnow_at env (S (S (tick w))))) + 1 /\
  forall k, k <> (ratelimit.get_client_ip req,
                  ratelimit.date_of (utcnow_at env (S (S (tick w))))) ->
            (creation.create_wish deps d req env (w, st)).2.2 !! k = st !! k.
Proof.
  intros Hmax Hslug Hs Hid Hq Hc.
  destruct (create_wish_success_run deps env w st d req s Hmax Hslug Hs Hid Hq Hc)
    as (Hres & Hrows & _ & Hst).
  split; [done|]. split; [done|]. rewrite Hst. unfold counted_for.
  rewrite lookup_insert_eq. split.
  - destruct (st !! _); cbn; lia.
  - intros k Hk. by rewrite lookup_insert_ne.
Qed.

Lemma sample_slug_fresh : "Nw5lUgA1" ∉ (slug <$> rows sample.world).
Proof. apply (bool_decide_unpack _). by vm_compute. Qed.

Lemma sample_id_fresh :
  next_id visitor.deps (rows sample.world) ∉ (id <$> rows sample.world).
Proof. apply (bool_decide_unpack _). by vm_compute. Qed.

Lemma create_wish_adds_one_row_witness :
  counted_for (∅ : ratelimit.Storage)
    (ratelimit.get_client_ip visitor.request,
     ratelimit.date_of (utcnow_at sample.env (tick sample.world)))
    < MAX_WISHES_PER_IP_PER_DAY visitor.deps /\
  (creation.create_wish visitor.deps visitor.wish_data visitor.request sample.env
     (sample.world, ∅)).1 =
    Return (creation.mkWishCreateResponse "Nw5lUgA1"
              (BASE_URL sample.env +:+ "/w/" +:+ "Nw5lUgA1")).
Proof.
  assert (counted_for (∅ : ratelimit.Storage)
            (ratelimit.get_client_ip visitor.request,
             ratelimit.date_of (utcnow_at sample.env (tick sample.world)))
          < MAX_WISHES_PER_IP_PER_DAY visitor.deps) as Hmax.
  { vm_compute. reflexivity. }
  split; [exact Hmax|].
  exact (proj1 (create_wish_adds_one_row visitor.deps sample.env sample.world ∅
                  visitor.wish_data visitor.request "Nw5lUgA1"
                  Hmax eq_refl sample_slug_fresh sample_id_fresh eq_refl eq_refl)).
Defined.


Lemma rate_limit_allows_up_to_max_witness :
  (forall k, ratelimit.date_of (utcnow_at frozen.env k) = 0) /\
  (ratelimit.check_rate_limit visitor.deps "203.0.113.7" frozen.env
     (for_each (replicate 1 "203.0.113.7") ratelimit.increment_rate_limit frozen.env
        (sample.world, ∅)).2).1 = Return (true, None) /\
  exists msg,
    (ratelimit.check_rate_limit visitor.deps "203.0.113.7" frozen.env
       (for_each (replicate 2 "203.0.113.7") ratelimit.increment_rate_limit frozen.env
          (sample.world, ∅)).2).1 = Return (false, Some msg).
Proof.
  assert (forall k, ratelimit.date_of (utcnow_at frozen.env k) = 0) as Hday.
  { intros k. reflexivity. }
  split; [exact Hday|]. split.
  - destruct (rate_limit_allows_up_to_max visitor.deps frozen.env sample.world ∅
                "203.0.113.7" 0 1 Hday (lookup_empty _)) as [[_ H]|[Hle _]].
    + exact H.
    + vm_compute in Hle. exfalso. by apply Hle.
  - destruct (rate_limit_allows_up_to_max visitor.deps frozen.env sample.world ∅
                "203.0.113.7" 0 2 Hday (lookup_empty _)) as [[Hlt _]|[_ H]].
    + vm_compute in Hlt. discriminate.
    + exact H.
Defined.

(** X14: a creation that fails is not counted and harms no row.  Whenever
    [create_wish] raises (over the limit, no slug, the database down or
    refusing the insert, the refresh failing), the rate limit storage is
    exactly as before; and in every case the rows that were in the table are
    still there, unchanged and in order, followed by at most one new row. *)
Theorem failed_creation_is_not_counted (deps : Deps) (env : Env) (w : World)
    (st : ratelimit.Storage) (d : creation.WishCreate) (req : Request) (e : Exn) :
  (creation.create_wish deps d req env (w, st)).1 = Raise e ->
  (creation.create_wish deps d req env (w, st)).2.2 = st /\
  exists new,
    rows (creation.create_wish deps d req env (w, st)).2.1 = rows w ++ new /\
    (length new <= 1)%nat.
Proof.
  intros Hraise.
  destruct (create_wish_effect deps env w st d req)
    as (new & Hrows & _ & Hnew & Hst & _).
  split; [by eapply Hst|].
  exists new. split; [done|].
  destruct Hnew as [->|(i & s & now & -> & _)]; cbn; lia.
Qed.

Lemma failed_creation_is_not_counted_witness :
  (creation.create_wish visitor.deps visitor.wish_data visitor.request
     sample.env_store_down (sample.world, ∅)).1 = Raise OperationalError /\
  (creation.create_wish visitor.deps visitor.wish_data visitor.request
     sample.env_store_down (sample.world, ∅)).2.2 = ∅.
Proof.
  assert ((creation.create_wish visitor.deps visitor.wish_data visitor.request
             sample.env_store_down (sample.world, ∅)).1 = Raise OperationalError)
    as Hraise by (vm_compute; reflexivity).
  split; [exact Hraise|].
  exact (proj1 (failed_creation_is_not_counted visitor.deps sample.env_store_down
                  sample.world ∅ visitor.wish_data visitor.request _ Hraise)).
Defined.

Lemma validate_max_views d m :
  creation.validate d = true -> creation.max_views d = Some m -> 1 <= m <= 1000.
Proof.
  unfold creation.validate. intros Hv Hm. rewrite Hm in Hv.
  repeat (apply andb_true_iff in Hv as [Hv ?]).
  repeat match goal with
         | H : bool_decide _ && bool_decide _ = true |- _ =>
             apply andb_true_iff in H as [? ?]
         | H : bool_decide _ = true |- _ => apply bool_decide_eq_true in H
         end.
  lia.
Qed.

(** X15: creation keeps the table well formed.  For a request that passes
    the validation of [WishCreate], whatever [create_wish] does (return or
    raise) and whatever slug and id its collaborators propose, the table
    afterwards still has unique ids and unique slugs, every counter within
    its limit, and every tombstone flag together with its timestamp: the
    conditions that the properties of view, delete and sweep assume. *)
Theorem create_wish_keeps_table_well_formed (deps : Deps) (env : Env) (w : World)
    (st : ratelimit.Storage) (d : creation.WishCreate) (req : Request) :
  creation.validate d = true ->
  unique_ids (rows w) -> unique_slugs (rows w) ->
  Forall within_limit (rows w) -> Forall stamped (rows w) ->
  unique_ids (rows (creation.create_wish deps d req env (w, st)).2.1) /\
  unique_slugs (rows (creation.create_wish deps d req env (w, st)).2.1) /\
  Forall within_limit (rows (creation.create_wish deps d req env (w, st)).2.1) /\
  Forall stamped (rows (creation.create_wish deps d req env (w, st)).2.1).
Proof.
  intros Hv Hu Hs Hl Hst.
  destruct (create_wish_effect deps env w st d req)
    as (new & Hrows & _ & Hnew & _).
  rewrite Hrows.
  destruct Hnew as [->|(i & s & now & -> & Hi & Hsl)].
  { by rewrite app_nil_r. }
  unfold unique_ids, unique_slugs. rewrite !fmap_app. cbn [fmap list_fmap id slug created_row].
  split; [| split; [| split]].
  - apply NoDup_app. split; [done|]. split.
    + intros x Hx Hx'. apply list_elem_of_singleton in Hx'. by subst.
    + apply NoDup_singleton.
  - apply NoDup_app. split; [done|]. split.
    + intros x Hx Hx'. apply list_elem_of_singleton in Hx'. by subst.
    + apply NoDup_singleton.
  - apply Forall_app. split; [done|]. apply Forall_singleton.
    intros m Hm. cbn in Hm |- *.
    destruct (validate_max_views d m Hv Hm). lia.
  - apply Forall_app. split; [done|]. apply Forall_singleton.
    unfold stamped. cbn. split; [done | by intros []].
Qed.

Lemma create_wish_keeps_table_well_formed_witness :
  creation.validate visitor.wish_data = true /\
  unique_ids (rows (creation.create_wish visitor.deps visitor.wish_data
                      visitor.request sample.env (sample.world, ∅)).2.1).
Proof.
  split; [reflexivity|].
  exact (proj1 (create_wish_keeps_table_well_formed visitor.deps sample.env
                  sample.world ∅ visitor.wish_data visitor.request eq_refl
                  sample_unique_ids sample_unique_slugs sample_within_limit
                  sample_stamped)).
Defined.

Lemma resolve_fresh_last s tbl r :
  s ∉ (slug <$> tbl) -> slug r = s -> resolve s (tbl ++ [r]) = Some r.
Proof.
  intros Hs Hr. unfold resolve. rewrite filter_app.
  assert (base.filter (fun x => slug x = s) tbl = []) as ->.
  { induction tbl as [|x tbl IH]; [done|].
    cbn in Hs. apply not_elem_of_cons in Hs as [Hne Hs].
    rewrite filter_cons, decide_False by congruence. by apply IH. }
  by rewrite filter_cons, decide_True.
Qed.

(** X16: what was created can be seen.  After a creation that went through
    for a request with [max_views = m] (at least 1) whose [expires_at] is
    unset or never before the clock, a view of the returned slug returns the
    title, the message and the theme of the request, no image, and
    [remaining_views = m - 1] (with [check_expiry] as modelled from the
    specification). *)
Theorem create_then_view (deps : Deps) (env : Env) (w : World)
    (st : ratelimit.Storage) (d : creation.WishCreate) (req : Request)
    (s : string) (m : Z) :
  counted_for st (ratelimit.get_client_ip req,
                  ratelimit.date_of (utcnow_at env (tick w)))
    < MAX_WISHES_PER_IP_PER_DAY deps ->
  generate_unique_slug deps (rows w) = Some s ->
  s ∉ (slug <$> rows w) ->
  next_id deps (rows w) ∉ (id <$> rows w) ->
  (forall k, store_fails env k = false) ->
  creation.max_views d = Some m -> 1 <= m ->
  (forall e k, creation.expires_at d = Some e -> utcnow_at env k <= e) ->
  creation.slug <$> result_value (creation.create_wish deps d req env (w, st)).1 = Some s /\
  (wishes.view_wish s env (creation.create_wish deps d req env (w, st)).2.1).1 =
    Return (schemas.mkWishViewResponse (creation.title d) (creation.message d)
              (creation.theme d) [] (Some (m - 1))).
Proof.
  intros Hmax Hslug Hs Hid Hok Hm Hm1 Ht.
  destruct (create_wish_success_run deps env w st d req s Hmax Hslug Hs Hid
              (Hok _) (Hok _)) as (Hres & Hrows & _).
  rewrite Hres. split; [done|].
  set (w' := (creation.create_wish deps d req env (w, st)).2.1) in *.
  set (row := created_row deps d (ratelimit.get_client_ip req)
                (next_id deps (rows w)) s (utcnow_at env (S (tick w)))) in *.
  assert (resolve s (rows w') = Some row) as Hr.
  { rewrite Hrows. by apply resolve_fresh_last. }
  assert (expiry.is_expired (expiry.evaluate (utcnow_at env (tick w')) row) = false)
    as Hlive.
  { unfold expiry.evaluate. subst row. cbn [expires_at max_views current_views created_row].
    rewrite Hm. destruct (creation.expires_at d) as [e|] eqn:He.
    - rewrite bool_decide_eq_false_2 by (specialize (Ht e (tick w') eq_refl); lia).
      by rewrite bool_decide_eq_false_2 by lia.
    - by rewrite bool_decide_eq_false_2 by lia. }
  destruct (view_wish_counted env w' s row (Hok _) (Hok _) Hr eq_refl Hlive) as [Hv _].
  rewrite Hv. unfold view_response. subst row.
  cbn [title message theme images max_views current_views created_row fmap list_fmap].
  rewrite Hm. rewrite decide_False by lia. do 3 f_equal. lia.
Qed.


Lemma create_then_view_witness :
  generate_unique_slug visitor.deps (rows sample.world) = Some "Nw5lUgA1" /\
  creation.max_views visitor.wish_data = Some 2 /\
  (wishes.view_wish "Nw5lUgA1" sample.env
     (creation.create_wish visitor.deps visitor.wish_data visitor.request sample.env
        (sample.world, ∅)).2.1).1 =
    Return (schemas.mkWishViewResponse (creation.title visitor.wish_data)
              (creation.message visitor.wish_data)
              (creation.theme visitor.wish_data) [] (Some (2 - 1))).
Proof.
  split; [reflexivity|]. split; [reflexivity|].
  refine (proj2 (create_then_view visitor.deps sample.env sample.world ∅
                   visitor.wish_data visitor.request "Nw5lUgA1" 2
                   _ eq_refl sample_slug_fresh sample_id_fresh
                   (fun k => eq_refl) eq_refl _ _)).
  - vm_compute. reflexivity.
  - lia.
  - intros e k He. discriminate He.
Defined.

(** ** The health check and the HTML page *)

Lemma get_cleanup_summary_returns env w :
  exists s, (cleanup.get_cleanup_summary env w).1 = Return s.
Proof.
  unfold cleanup.get_cleanup_summary, Session.select_all, Session.count_wishes,
    Session.count_images, Session.execute.
  unfold_st. cbn [tick rows stmts dirs logs].
  repeat (cbn [fst snd tick rows stmts dirs logs];
          match goal with
          | |- context [if store_fails env ?n then _ else _] =>
              destruct (store_fails env n)
          end); cbn; eexists; reflexivity.
Qed.

Lemma get_cleanup_summary_first_query_down env w :
  store_fails env (stmts w) = true ->
  (cleanup.get_cleanup_summary env w).1 =
    Return (cleanup.mkSummary 0 0 0 0 (SOFT_DELETE_GRACE_PERIOD_MINUTES env)
              (CLEANUP_INTERVAL_MINUTES env) (Some "OperationalError")).
Proof.
  intros Hc.
  unfold cleanup.get_cleanup_summary, Session.select_all, Session.execute.
  unfold_st. cbn [tick rows stmts dirs logs]. by rewrite Hc.
Qed.

(** X17: the health check never raises and changes no row.  It reports
    ["degraded"] exactly when its own [SELECT 1] failed; when [SELECT 1]
    went through but the next statement, the first query of the summary,
    failed, it still reports ["healthy"] with a database status of
    ["healthy"], and the failure shows only as the [error] key of the
    summary, whose counters are all zero. *)
Theorem health_check_reports (deps : Deps) (env : Env) (w : World) :
  exists h,
    (main.health_check deps env w).1 = Return h /\
    rows (main.health_check deps env w).2 = rows w /\
    dirs (main.health_check deps env w).2 = dirs w /\
    main.status h = (if store_fails env (stmts w) then "degraded" else "healthy") /\
    main.database h =
      (if store_fails env (stmts w) then "unhealthy: " +:+ Exn_str OperationalError
       else "healthy") /\
    (if store_fails env (stmts w) then
       main.cleanup_summary h =
         cleanup.mkSummary 0 0 0 0 (SOFT_DELETE_GRACE_PERIOD_MINUTES env)
                           (CLEANUP_INTERVAL_MINUTES env) None
     else if store_fails env (S (stmts w)) then
       main.cleanup_summary h =
         cleanup.mkSummary 0 0 0 0 (SOFT_DELETE_GRACE_PERIOD_MINUTES env)
                           (CLEANUP_INTERVAL_MINUTES env)
                           (Some (Exn_str OperationalError))
     else True).
Proof.
  unfold main.health_check. unfold_st.
  destruct (store_fails env (stmts w)) eqn:Hq.
  { rewrite execute_down by done. cbn. eexists. repeat split; reflexivity. }
  rewrite execute_ok by done.
  set (w1 := mkWorld (rows w) (dirs w) (tick w) (S (stmts w)) (logs w)).
  destruct (get_cleanup_summary_case env w1) as (Hrows & Hdirs & _).
  destruct (get_cleanup_summary_returns env w1) as [s Hs].
  pose proof (get_cleanup_summary_first_query_down env w1) as Hfirst.
  destruct (cleanup.get_cleanup_summary env w1) as [res w2]. cbn [fst snd] in *.
  subst res. eexists. split; [reflexivity|].
  cbn [fst snd main.status main.database main.cleanup_summary].
  split; [done|]. split; [done|].
  rewrite decide_True by done. split; [done|]. split; [done|].
  destruct (store_fails env (S (stmts w))) eqn:Hc; [|done].
  specialize (Hfirst Hc). by injection Hfirst as ->.
Qed.


(** X18: the HTML page of a wish counts no view.  For a request whose
    [Accept] header contains [text/html], with the database reachable,
    [public_wish_page] changes no row (no view is counted and nothing is
    tombstoned) and answers with the 404 page for an absent or tombstoned
    wish, with the expired page for a wish that [check_expiry] finds
    expired, and otherwise with the page showing the wish's title (or
    ["Untitled"]), message, theme and images. *)
Theorem html_page_counts_no_view slug req env w :
  pystr.contains "text/html" (default "" (accept req)) = true ->
  store_fails env (stmts w) = false ->
  rows (main.public_wish_page slug req env w).2 = rows w /\
  dirs (main.public_wish_page slug req env w).2 = dirs w /\
  (main.public_wish_page slug req env w).1 =
    Return
      (match resolve slug (rows w) with
       | None => main.FileResponse "app/static/404.html"
       | Some r =>
           if is_deleted r then main.FileResponse "app/static/404.html"
           else if expiry.is_expired (expiry.evaluate (utcnow_at env (tick w)) r)
           then main.FileResponse "app/static/expired.html"
           else main.HTMLResponse (page_of r)
       end).
Proof.
  intros Haccept Hq.
  unfold main.public_wish_page. rewrite Haccept.
  unfold Session.query_first. unfold_st. rewrite execute_ok by done.
  fold (resolve slug (rows w)).
  destruct (resolve slug (rows w)) as [r|]; [|done].
  destruct (is_deleted r); [done|].
  unfold expiry.check_expiry. unfold_st. cbn [tick rows stmts dirs logs].
  by destruct (expiry.is_expired _).
Qed.

Lemma html_page_counts_no_view_witness :
  pystr.contains "text/html" (default "" (accept visitor.request)) = true /\
  rows (main.public_wish_page "Zx81mQp0" visitor.request sample.env sample.world).2 =
    rows sample.world /\
  (main.public_wish_page "Zx81mQp0" visitor.request sample.env sample.world).1 =
    Return (main.HTMLResponse (page_of sample.thrice)).
Proof.
  split; [reflexivity|].
  pose proof (html_page_counts_no_view "Zx81mQp0" visitor.request sample.env
                sample.world eq_refl eq_refl) as (H1 & _ & H2).
  exact (conj H1 H2).
Defined.


(** ** Image records without a file *)

Lemma check_path_run env (w : World) (l : orphans.Locals) files p :
  store_fails env (stmts w) = false ->
  exists w',
    orphans.check_path files p env (w, l) =
      (Return tt,
       (w', match orphan_of_visible files l (rows w) p with
            | Some img => orphans.mkLocals (orphans.orphaned_count l + 1)
                                           (orphans.session_deleted l ++ [img])
            | None => l
            end)) /\
    rows w' = rows w /\ dirs w' = dirs w /\
    (forall n, (stmts w <= n)%nat -> (stmts w' <= S n)%nat) /\ (stmts w <= stmts w')%nat.
Proof.
  intros Hq. unfold orphans.check_path, orphan_of_visible.
  destruct (bool_decide (p ∈ files)).
  { exists w. split; [reflexivity|]. repeat split; (done || lia). }
  unfold Session.execute. unfold_st. rewrite Hq.
  destruct (head _) as [img|]; eexists; (split; [reflexivity|]); cbn;
    repeat split; (done || lia).
Qed.

Lemma visible_filter_path (l : orphans.Locals) tbl p :
  unique_image_ids tbl ->
  (forall j, j ∈ orphans.session_deleted l ->
             j ∈ orphans.all_images tbl /\ path j <> p) ->
  base.filter (fun i => path i = p) (orphans.visible l tbl) =
  base.filter (fun i => path i = p) (orphans.all_images tbl).
Proof.
  intros Hu Hdel. unfold orphans.visible.
  rewrite list_filter_filter. apply filter_ext_elem.
  intros i Hi. split; [tauto|]. intros Hp. split; [done|].
  intros Hin. apply list_elem_of_fmap in Hin as (j & Hij & Hj).
  destruct (Hdel j Hj) as [Hjall Hjp].
  apply Hjp. rewrite <- Hp. f_equal.
  symmetry. by eapply (NoDup_fmap_elem_inj image_id (orphans.all_images tbl)).
Qed.

Lemma orphan_of_Some files tbl p img :
  orphan_of files tbl p = Some img ->
  (p ∉ files) /\ path img = p /\ img ∈ orphans.all_images tbl.
Proof.
  unfold orphan_of. destruct (bool_decide (p ∈ files)) eqn:Hp; [done|].
  apply bool_decide_eq_false in Hp. intros Hh.
  apply head_Some_elem_of, list_elem_of_filter in Hh. tauto.
Qed.

Lemma check_paths_run env files :
  (forall k, store_fails env k = false) ->
  forall ps (w : World) (l : orphans.Locals),
    NoDup ps -> unique_image_ids (rows w) ->
    (forall j, j ∈ orphans.session_deleted l ->
               j ∈ orphans.all_images (rows w) /\ path j ∉ ps) ->
    exists w' l',
      for_each ps (orphans.check_path files) env (w, l) = (Return tt, (w', l')) /\
      rows w' = rows w /\ dirs w' = dirs w /\
      orphans.session_deleted l' =
        orphans.session_deleted l ++ omap (orphan_of files (rows w)) ps /\
      orphans.orphaned_count l' =
        orphans.orphaned_count l +
        Z.of_nat (length (omap (orphan_of files (rows w)) ps)).
Proof.
  intros Hok. induction ps as [|p ps IH]; intros w l Hnd Hu Hdel.
  { exists w, l. cbn. rewrite app_nil_r. repeat split; (done || lia). }
  apply NoDup_cons in Hnd as [Hp Hnd].
  destruct (check_path_run env w l files p (Hok _)) as (w1 & Hrun & Hrows & Hdirs & _).
  assert (orphan_of_visible files l (rows w) p = orphan_of files (rows w) p) as Hsame.
  { unfold orphan_of_visible, orphan_of. destruct (bool_decide (p ∈ files)); [done|].
    rewrite visible_filter_path; [done | done |].
    intros j Hj. destruct (Hdel j Hj) as [Hall Hnot]. split; [done|].
    intros Heq. apply Hnot. rewrite Heq. left. }
  rewrite Hsame in Hrun.
  set (l1 := match orphan_of files (rows w) p with
             | Some img => orphans.mkLocals (orphans.orphaned_count l + 1)
                                            (orphans.session_deleted l ++ [img])
             | None => l
             end) in *.
  destruct (IH w1 l1 Hnd) as (w2 & l2 & Hrun2 & Hrows2 & Hdirs2 & Hdel2 & Hcount2).
  { by rewrite Hrows. }
  { intros j Hj. rewrite Hrows. subst l1.
    destruct (orphan_of files (rows w) p) as [img|] eqn:Ho.
    - cbn in Hj. apply elem_of_app in Hj as [Hj|Hj].
      + destruct (Hdel j Hj) as [Hall Hnot]. split; [done|].
        intros Hin. apply Hnot. by right.
      + apply list_elem_of_singleton in Hj as ->.
        destruct (orphan_of_Some _ _ _ _ Ho) as (_ & Hpath & Hall).
        split; [done|]. by rewrite Hpath.
    - destruct (Hdel j Hj) as [Hall Hnot]. split; [done|].
      intros Hin. apply Hnot. by right. }
  exists w2, l2. split.
  { cbn [for_each]. unfold mbind, ST_bind. rewrite Hrun. exact Hrun2. }
  split; [congruence|]. split; [congruence|].
  rewrite Hdel2, Hcount2, Hrows. subst l1.
  change (omap (orphan_of files (rows w)) (p :: ps))
    with (match orphan_of files (rows w) p with
          | Some y => y :: omap (orphan_of files (rows w)) ps
          | None => omap (orphan_of files (rows w)) ps
          end).
  destruct (orphan_of files (rows w) p) as [img|]; cbn.
  - rewrite <- app_assoc. split; [done | lia].
  - done.
Qed.

Lemma omap_orphan_length files tbl ps :
  (forall p, p ∈ ps -> p ∈ (path <$> orphans.all_images tbl)) ->
  length (omap (orphan_of files tbl) ps) = length (base.filter (fun p => p ∉ files) ps).
Proof.
  induction ps as [|p ps IH]; intros Hin; [done|].
  change (omap (orphan_of files tbl) (p :: ps))
    with (match orphan_of files tbl p with
          | Some y => y :: omap (orphan_of files tbl) ps
          | None => omap (orphan_of files tbl) ps
          end).
  assert (length (omap (orphan_of files tbl) ps) =
          length (base.filter (fun p => p ∉ files) ps)) as IH'
    by (apply IH; intros q Hq; apply Hin; by right).
  unfold orphan_of at 1.
  destruct (decide (p ∉ files)) as [Hp|Hp].
  - rewrite bool_decide_eq_false_2 by done.
    rewrite filter_cons_True by done.
    destruct (head _) as [img|] eqn:Hh; [cbn; by rewrite IH'|]. exfalso.
    apply head_None in Hh.
    assert (p ∈ (path <$> orphans.all_images tbl)) as Hp' by (apply Hin; left).
    apply list_elem_of_fmap in Hp' as (img & -> & Himg).
    by eapply (filter_nil_not_elem_of (fun i => path i = path img)) in Hh.
  - rewrite filter_cons_False by done.
    rewrite bool_decide_eq_true_2; [done|]. by destruct (decide (p ∈ files)).
Qed.

Lemma cleanup_orphaned_images_run env (w : World) files :
  (forall k, store_fails env k = false) ->
  unique_image_ids (rows w) ->
  (orphans.cleanup_orphaned_images files env w).1 =
    Return (Z.of_nat (length
              (base.filter (fun p => p ∉ files)
                 (elements (list_to_set (path <$> orphans.all_images (rows w))
                            : gset string))))) /\
  rows (orphans.cleanup_orphaned_images files env w).2 =
    orphans.delete_images
      (omap (orphan_of files (rows w))
            (elements (list_to_set (path <$> orphans.all_images (rows w)) : gset string)))
      (rows w) /\
  dirs (orphans.cleanup_orphaned_images files env w).2 = dirs w.
Proof.
  intros Hok Hu.
  unfold orphans.cleanup_orphaned_images. unfold_st.
  rewrite execute_ok by done.
  set (ps := elements (list_to_set (path <$> orphans.all_images (rows w)) : gset string)).
  set (w1 := mkWorld (rows w) (dirs w) (tick w) (S (stmts w)) (logs w)).
  destruct (check_paths_run env files Hok ps w1 (orphans.mkLocals 0 []))
    as (w2 & l2 & Hrun & Hrows & Hdirs & Hdel & Hcount).
  { apply NoDup_elements. }
  { done. }
  { intros j Hj. by apply elem_of_nil in Hj. }
  rewrite Hrun. unfold orphans.commit_deleted. rewrite Hok.
  cbn [fst snd rows dirs]. rewrite Hcount, Hdel, Hrows, Hdirs. cbn [orphans.orphaned_count
    orphans.session_deleted app rows dirs].
  rewrite Z.add_0_l. split; [|done]. do 2 f_equal.
  apply omap_orphan_length. intros p Hp.
  subst ps. apply elem_of_elements in Hp. by apply elem_of_list_to_set in Hp.
Qed.


Lemma all_images_delete_images gone tbl :
  orphans.all_images (orphans.delete_images gone tbl) =
  base.filter (fun i => image_id i ∉ (image_id <$> gone)) (orphans.all_images tbl).
Proof.
  unfold orphans.all_images, orphans.delete_images.
  induction tbl as [|r tbl IH]; [done|].
  rewrite fmap_cons, !bind_cons, filter_app, IH. done.
Qed.

Lemma orphan_has_no_file files tbl (ps : list string) i :
  unique_image_ids tbl -> i ∈ orphans.all_images tbl ->
  image_id i ∈ (image_id <$> omap (orphan_of files tbl) ps) ->
  path i ∉ files.
Proof.
  intros Hu Hi Hin.
  apply list_elem_of_fmap in Hin as (j & Hij & Hj).
  apply list_elem_of_omap in Hj as (p & _ & Ho).
  apply orphan_of_Some in Ho as (Hp & Hpath & Hall).
  assert (i = j) as -> by (by eapply (NoDup_fmap_elem_inj image_id (orphans.all_images tbl))).
  by rewrite Hpath.
Qed.

Lemma no_file_is_orphan files tbl (ps : list string) i :
  NoDup (path <$> orphans.all_images tbl) ->
  i ∈ orphans.all_images tbl -> path i ∈ ps -> path i ∉ files ->
  image_id i ∈ (image_id <$> omap (orphan_of files tbl) ps).
Proof.
  intros Hnd Hi Hps Hfile.
  apply list_elem_of_fmap. exists i. split; [done|].
  apply list_elem_of_omap. exists (path i). split; [done|].
  unfold orphan_of. rewrite bool_decide_eq_false_2 by done.
  destruct (head _) as [j|] eqn:Hh.
  - apply head_Some_elem_of, list_elem_of_filter in Hh as [Hpath Hj].
    f_equal. by eapply (NoDup_fmap_elem_inj path (orphans.all_images tbl)).
  - apply head_None in Hh.
    by eapply (filter_nil_not_elem_of (fun k => path k = path i)) in Hh.
Qed.

Lemma filter_none {A} (P : A -> Prop) `{!forall x, Decision (P x)} (l : list A) :
  (forall x, x ∈ l -> ~ P x) -> base.filter P l = [].
Proof.
  induction l as [|a l IH]; intros Hnone; [done|].
  rewrite filter_cons, decide_False by (apply Hnone; left).
  apply IH. intros x Hx. apply Hnone. by right.
Qed.

Lemma sample_unique_image_ids : unique_image_ids (rows sample.world).
Proof. unfold unique_image_ids. apply (bool_decide_unpack _). by vm_compute. Qed.

Lemma sample_unique_paths : NoDup (path <$> orphans.all_images (rows sample.world)).
Proof. apply (bool_decide_unpack _). by vm_compute. Qed.

(** X19 (cleanup_orphaned_images): with the database answering and image
    records with distinct primary keys, the call returns the number of
    distinct recorded paths that have no file under the upload directory;
    it leaves the wishes and their attributes as they were, row by row,
    removes image records only, and removes none whose file exists; the
    directories are not touched. *)
Theorem orphan_cleanup_counts_missing_files env (w : World) (files : gset string) :
  (forall k, store_fails env k = false) ->
  unique_image_ids (rows w) ->
  (orphans.cleanup_orphaned_images files env w).1 =
    Return (Z.of_nat (length
              (base.filter (fun p => p ∉ files)
                 (elements (list_to_set (path <$> orphans.all_images (rows w))
                            : gset string))))) /\
  Forall2 (fun r r' =>
             orphans.set_images [] r' = orphans.set_images [] r /\
             sublist (images r') (images r) /\
             (forall i, i ∈ images r -> path i ∈ files -> i ∈ images r'))
          (rows w) (rows (orphans.cleanup_orphaned_images files env w).2) /\
  dirs (orphans.cleanup_orphaned_images files env w).2 = dirs w.
Proof.
  intros Hok Hu.
  destruct (cleanup_orphaned_images_run env w files Hok Hu) as (Hres & Hrows & Hdirs).
  split; [done|]. split; [|done].
  rewrite Hrows. unfold orphans.delete_images.
  apply Forall2_fmap_r, Forall_Forall2_diag, Forall_forall.
  intros r Hr. split; [done|]. split; [apply sublist_filter|].
  intros i Hi Hfile. cbn. apply list_elem_of_filter. split; [|done].
  intros Hin. eapply orphan_has_no_file; [exact Hu| |exact Hin|exact Hfile].
  unfold orphans.all_images. apply list_elem_of_bind. by exists r.
Qed.

Lemma orphan_cleanup_counts_missing_files_witness :
  (orphans.cleanup_orphaned_images uploaded sample.env sample.world).1 = Return 1 /\
  Forall2 (fun r r' =>
             orphans.set_images [] r' = orphans.set_images [] r /\
             sublist (images r') (images r) /\
             (forall i, i ∈ images r -> path i ∈ uploaded -> i ∈ images r'))
          (rows sample.world)
          (rows (orphans.cleanup_orphaned_images uploaded sample.env sample.world).2) /\
  dirs (orphans.cleanup_orphaned_images uploaded sample.env sample.world).2 =
    dirs sample.world.
Proof.
  destruct (orphan_cleanup_counts_missing_files sample.env sample.world uploaded
              (fun _ => eq_refl) sample_unique_image_ids) as (Hres & Hrest).
  split; [|exact Hrest].
  rewrite Hres. vm_compute. reflexivity.
Defined.

(** X20 (cleanup_orphaned_images): when, in addition, no two image records
    share a path, the records left after the call are exactly those whose
    file exists, and a second call finds nothing to delete and returns 0. *)
Theorem orphan_cleanup_leaves_no_orphans env (w : World) (files : gset string) :
  (forall k, store_fails env k = false) ->
  unique_image_ids (rows w) ->
  NoDup (path <$> orphans.all_images (rows w)) ->
  orphans.all_images (rows (orphans.cleanup_orphaned_images files env w).2) =
    base.filter (fun i => path i ∈ files) (orphans.all_images (rows w)) /\
  (orphans.cleanup_orphaned_images files env
     (orphans.cleanup_orphaned_images files env w).2).1 = Return 0.
Proof.
  intros Hok Hu Hnd.
  destruct (cleanup_orphaned_images_run env w files Hok Hu) as (_ & Hrows & _).
  assert (orphans.all_images (rows (orphans.cleanup_orphaned_images files env w).2) =
          base.filter (fun i => path i ∈ files) (orphans.all_images (rows w))) as Hleft.
  { rewrite Hrows, all_images_delete_images. apply filter_ext_elem.
    intros i Hi. split.
    - intros Hnot. destruct (decide (path i ∈ files)) as [|Hfile]; [done|].
      exfalso. apply Hnot. apply no_file_is_orphan; [done|done| |done].
      apply elem_of_elements, elem_of_list_to_set, list_elem_of_fmap. by exists i.
    - intros Hfile Hin. by eapply orphan_has_no_file. }
  split; [done|].
  destruct (cleanup_orphaned_images_run env
              (orphans.cleanup_orphaned_images files env w).2 files Hok) as (Hres & _).
  { unfold unique_image_ids. rewrite Hleft. by apply NoDup_fmap_filter. }
  rewrite Hres, Hleft. do 2 f_equal.
  change 0%Z with (Z.of_nat (length (@nil string))). do 2 f_equal.
  apply filter_none. intros p Hp Hfile. apply Hfile.
  apply elem_of_elements, elem_of_list_to_set, list_elem_of_fmap in Hp as (i & -> & Hi).
  by apply list_elem_of_filter in Hi as [? _].
Qed.

Lemma orphan_cleanup_leaves_no_orphans_witness :
  orphans.all_images
    (rows (orphans.cleanup_orphaned_images uploaded sample.env sample.world).2) =
    [mkWishImage 1 1 "wishes/1/image1.webp"] /\
  (orphans.cleanup_orphaned_images uploaded sample.env
     (orphans.cleanup_orphaned_images uploaded sample.env sample.world).2).1 = Return 0.
Proof.
  destruct (orphan_cleanup_leaves_no_orphans sample.env sample.world uploaded
              (fun _ => eq_refl) sample_unique_image_ids sample_unique_paths) as (Hleft & Hagain).
  split; [|exact Hagain].
  rewrite Hleft. vm_compute. reflexivity.
Defined.

Lemma check_path_rows env files p (w : World) (l : orphans.Locals) :
  rows (orphans.check_path files p env (w, l)).2.1 = rows w /\
  dirs (orphans.check_path files p env (w, l)).2.1 = dirs w.
Proof.
  unfold orphans.check_path.
  destruct (bool_decide (p ∈ files)); [done|].
  unfold_st. unfold Session.execute.
  destruct (store_fails env (stmts w)); [done|].
  cbn. by destruct (head _).
Qed.

Lemma check_paths_rows env files ps :
  forall (w : World) (l : orphans.Locals),
    rows (for_each ps (orphans.check_path files) env (w, l)).2.1 = rows w /\
    dirs (for_each ps (orphans.check_path files) env (w, l)).2.1 = dirs w.
Proof.
  induction ps as [|p ps IH]; intros w l; [done|].
  cbn [for_each]. unfold mbind, ST_bind.
  pose proof (check_path_rows env files p w l) as [Hr Hd].
  destruct (orphans.check_path files p env (w, l)) as [[[]|e] [w1 l1]];
    cbn [fst snd] in *; [|done].
  destruct (IH w1 l1) as [Hr' Hd']. split; congruence.
Qed.

(** X21 (cleanup_orphaned_images): whatever statement the database refuses,
    a call that raises has deleted no image record: the table and the
    directories are as before the call. *)
Theorem orphan_cleanup_failure_deletes_nothing env (w : World) (files : gset string) e :
  (orphans.cleanup_orphaned_images files env w).1 = Raise e ->
  rows (orphans.cleanup_orphaned_images files env w).2 = rows w /\
  dirs (orphans.cleanup_orphaned_images files env w).2 = dirs w.
Proof.
  unfold orphans.cleanup_orphaned_images. unfold_st. unfold Session.execute.
  destruct (store_fails env (stmts w)); [done|].
  set (w1 := mkWorld _ _ _ _ _).
  set (ps := elements _).
  pose proof (check_paths_rows env files ps w1 (orphans.mkLocals 0 [])) as [Hr Hd].
  destruct (for_each ps (orphans.check_path files) env (w1, orphans.mkLocals 0 []))
    as [[[]|e'] [w2 l2]]; cbn [fst snd] in *; [|done].
  unfold orphans.commit_deleted.
  destruct (store_fails env (stmts w2)); [done|]. done.
Qed.

Lemma orphan_cleanup_failure_deletes_nothing_witness :
  rows (orphans.cleanup_orphaned_images uploaded sample.env_store_down sample.world).2 =
    rows sample.world /\
  dirs (orphans.cleanup_orphaned_images uploaded sample.env_store_down sample.world).2 =
    dirs sample.world.
Proof.
  apply (orphan_cleanup_failure_deletes_nothing sample.env_store_down sample.world
           uploaded OperationalError).
  reflexivity.
Defined.

(** ** The migration of the sender columns *)

Lemma lower_in (cols : list string) c :
  c ∈ cols -> migration.lower c ∈ (migration.lower <$> cols).
Proof. apply list_elem_of_fmap_2. Qed.

Lemma migrate_run env tx (cols : list string) :
  (forall k, store_fails env k = false) ->
  cols <> [] ->
  migrate env tx cols =
  if decide ("sender_name" ∈ cols) then
    if decide ("sender_message" ∈ cols) then
      (Return tt, cols,
       ["✓ sender_name column already exists";
        "✓ sender_message column already exists";
        "✅ Migration completed successfully!"])
    else if decide ("sender_message" ∈ (migration.lower <$> cols)) then
      (Raise OperationalError, cols,
       ["✓ sender_name column already exists";
        "Adding sender_message column..."])
    else
      (Return tt, cols ++ ["sender_message"],
       ["✓ sender_name column already exists";
        "Adding sender_message column...";
        "✓ Added sender_message column";
        "✅ Migration completed successfully!"])
  else if decide ("sender_name" ∈ (migration.lower <$> cols)) then
    (Raise OperationalError, cols, ["Adding sender_name column..."])
  else if decide ("sender_message" ∈ cols) then
    (Return tt, cols ++ ["sender_name"],
     ["Adding sender_name column...";
      "✓ Added sender_name column";
      "✓ sender_message column already exists";
      "✅ Migration completed successfully!"])
  else if decide ("sender_message" ∈ (migration.lower <$> cols)) then
    (Raise OperationalError, (if tx then cols else cols ++ ["sender_name"]),
     ["Adding sender_name column...";
      "✓ Added sender_name column";
      "Adding sender_message column..."])
  else
    (Return tt, cols ++ ["sender_name"; "sender_message"],
     ["Adding sender_name column...";
      "✓ Added sender_name column";
      "Adding sender_message column...";
      "✓ Added sender_message column";
      "✅ Migration completed successfully!"]).
Proof.
  intros Hok Hne.
  assert (forall x : string, bool_decide (cols ++ [x] = []) = false) as Hne'.
  { intros x. apply bool_decide_eq_false_2. by destruct cols. }
  assert (bool_decide ("sender_message" ∈ (migration.lower <$> cols ++ ["sender_name"])) =
          bool_decide ("sender_message" ∈ (migration.lower <$> cols))) as Hm1.
  { apply bool_decide_ext. rewrite fmap_app, elem_of_app.
    split; [|tauto]. intros [?|Hin]; [done|].
    cbn in Hin. apply list_elem_of_singleton in Hin. discriminate. }
  unfold migrate, migration.add_sender_fields, migration.with_connection,
    migration.connect, migration.table_info, migration.print, migration.add_column,
    migration.commit, migration.statement.
  unfold_st. cbn -[migration.lower]. rewrite !Hok.
  destruct (decide ("sender_name" ∈ cols)) as [Hn|Hn].
  - rewrite (bool_decide_eq_false_2 ("sender_name" ∉ cols)) by tauto.
    cbn -[migration.lower].
    destruct (decide ("sender_message" ∈ cols)) as [Hm|Hm].
    + rewrite (bool_decide_eq_false_2 ("sender_message" ∉ cols)) by tauto.
      cbn -[migration.lower]. by rewrite !Hok.
    + rewrite (bool_decide_eq_true_2 ("sender_message" ∉ cols)) by done.
      cbn -[migration.lower]. rewrite !Hok.
      rewrite (bool_decide_eq_false_2 (cols = [])) by done.
      change (migration.lower "sender_message") with "sender_message".
      destruct (decide ("sender_message" ∈ (migration.lower <$> cols))) as [Hv|Hv].
      * rewrite bool_decide_eq_true_2 by done. done.
      * rewrite bool_decide_eq_false_2 by done. cbn -[migration.lower].
        rewrite !Hok. by destruct tx.
  - rewrite (bool_decide_eq_true_2 ("sender_name" ∉ cols)) by done.
    cbn -[migration.lower]. rewrite !Hok.
    rewrite (bool_decide_eq_false_2 (cols = [])) by done.
    change (migration.lower "sender_name") with "sender_name".
    destruct (decide ("sender_name" ∈ (migration.lower <$> cols))) as [Hv|Hv].
    { rewrite bool_decide_eq_true_2 by done. done. }
    rewrite bool_decide_eq_false_2 by done. cbn -[migration.lower].
    destruct (decide ("sender_message" ∈ cols)) as [Hm|Hm].
    + rewrite (bool_decide_eq_false_2 ("sender_message" ∉ cols)) by tauto.
      cbn -[migration.lower]. rewrite !Hok. by destruct tx.
    + rewrite (bool_decide_eq_true_2 ("sender_message" ∉ cols)) by done.
      cbn -[migration.lower]. rewrite !Hok, Hne'.
      change (migration.lower "sender_message") with "sender_message".
      rewrite Hm1.
      destruct (decide ("sender_message" ∈ (migration.lower <$> cols))) as [Hw|Hw].
      * rewrite bool_decide_eq_true_2 by done. by destruct tx.
      * rewrite bool_decide_eq_false_2 by done. cbn -[migration.lower].
        rewrite !Hok, <- !app_assoc. cbn. by destruct tx.
Qed.

Lemma case_variant_iff (cols : list string) :
  NoDup (migration.lower <$> cols) ->
  case_variant cols <->
  (("sender_name" ∉ cols) /\ "sender_name" ∈ (migration.lower <$> cols)) \/
  (("sender_message" ∉ cols) /\ "sender_message" ∈ (migration.lower <$> cols)).
Proof.
  intros Hnd. split.
  - intros (c & Hc & Hnot & Hlow).
    assert (forall x : string, x ∈ cols -> migration.lower x = migration.lower c -> x = c)
      as Hinj.
    { intros x Hx Heq.
      by apply (NoDup_fmap_elem_inj migration.lower cols x c Hnd). }
    rewrite !elem_of_cons, elem_of_nil in Hlow.
    rewrite !not_elem_of_cons in Hnot. destruct Hnot as (Hcn & Hcm & _).
    destruct Hlow as [Hlow | [Hlow | []]]; [left | right].
    + split; [|rewrite <- Hlow; by apply lower_in].
      intros Hin. apply Hcn. symmetry. apply Hinj; [done|]. by rewrite Hlow.
    + split; [|rewrite <- Hlow; by apply lower_in].
      intros Hin. apply Hcm. symmetry. apply Hinj; [done|]. by rewrite Hlow.
  - intros [[Hnot Hlow] | [Hnot Hlow]];
      apply list_elem_of_fmap in Hlow as (c & Heq & Hc);
      exists c; (split; [done|]); rewrite !not_elem_of_cons, !elem_of_cons.
    + split; [|by left]. split; [by intros -> |].
      split; [|apply not_elem_of_nil]. intros ->. discriminate.
    + split; [|right; by left]. split; [intros ->; discriminate|].
      split; [by intros -> | apply not_elem_of_nil].
Qed.

Lemma migrate_present env tx (cols : list string) :
  (forall k, store_fails env k = false) ->
  "sender_name" ∈ cols -> "sender_message" ∈ cols ->
  migrate env tx cols =
    (Return tt, cols,
     ["✓ sender_name column already exists";
      "✓ sender_message column already exists";
      "✅ Migration completed successfully!"]).
Proof.
  intros Hok Hn Hm.
  rewrite migrate_run by (done || (intros ->; by apply elem_of_nil in Hn)).
  by rewrite !decide_True.
Qed.

Lemma NoDup_lower_snoc (cols : list string) (x : string) :
  NoDup (migration.lower <$> cols) ->
  migration.lower x ∉ (migration.lower <$> cols) ->
  NoDup (migration.lower <$> cols ++ [x]).
Proof.
  intros Hnd Hx. rewrite fmap_app. apply NoDup_app. split; [done|].
  split; [|apply NoDup_singleton].
  intros y Hy Hin. cbn in Hin. apply list_elem_of_singleton in Hin as ->. done.
Qed.

(** X22 (add_sender_fields): take a database that is reachable and a
    table [wishes] whose column names are distinct as SQLite compares them.
    The script raises exactly when the table has sender_name or
    sender_message in another case (SQLite refuses the duplicate column);
    the table then keeps its columns, to which at most sender_name was
    added, and only on a connection that writes [ALTER TABLE] at once.
    Otherwise it returns, keeps the columns it found in their order, adds
    each of the two columns only where it is missing, so the names stay
    distinct, and a second run adds nothing and prints that both columns
    already exist. *)
Theorem migration_adds_each_column_once env (tx : bool) (cols : list string) :
  (forall k, store_fails env k = false) ->
  cols <> [] ->
  NoDup (migration.lower <$> cols) ->
  cols `prefix_of` (migrate env tx cols).1.2 /\
  ((migrate env tx cols).1.1 = Raise OperationalError <-> case_variant cols) /\
  (case_variant cols ->
   (migrate env tx cols).1.2 = cols \/
   (tx = false /\ (migrate env tx cols).1.2 = cols ++ ["sender_name"])) /\
  (~ case_variant cols ->
   (migrate env tx cols).1.1 = Return tt /\
   NoDup (migration.lower <$> (migrate env tx cols).1.2) /\
   (forall c, c ∈ (migrate env tx cols).1.2 <->
              c ∈ cols \/ c = "sender_name" \/ c = "sender_message") /\
   migrate env tx (migrate env tx cols).1.2 =
     (Return tt, (migrate env tx cols).1.2,
      ["✓ sender_name column already exists";
       "✓ sender_message column already exists";
       "✅ Migration completed successfully!"])).
Proof.
  intros Hok Hne Hnd.
  pose proof (case_variant_iff cols Hnd) as Hvar.
  rewrite (migrate_run env tx cols Hok Hne).
  destruct (decide ("sender_name" ∈ cols)) as [Hn|Hn];
    [destruct (decide ("sender_message" ∈ cols)) as [Hm|Hm];
       [|destruct (decide ("sender_message" ∈ (migration.lower <$> cols))) as [Hw|Hw]]
    |destruct (decide ("sender_name" ∈ (migration.lower <$> cols))) as [Hv|Hv];
       [|destruct (decide ("sender_message" ∈ cols)) as [Hm|Hm];
          [|destruct (decide ("sender_message" ∈ (migration.lower <$> cols)))
              as [Hw|Hw]]]];
    cbn [fst snd].
  - (* both columns are there *)
    assert (~ case_variant cols) as Hno by (rewrite Hvar; tauto).
    split; [done|]. split; [split; [discriminate | done]|]. split; [done|].
    intros _. split; [done|]. split; [done|]. split.
    + intros c. split; [tauto|]. intros [?|[->| ->]]; done.
    + by apply migrate_present.
  - (* sender_message is there in another case *)
    assert (case_variant cols) as Hyes by (rewrite Hvar; tauto).
    split; [done|]. split; [done|]. split; [by left | done].
  - (* sender_message is added *)
    assert (~ case_variant cols) as Hno by (rewrite Hvar; tauto).
    split; [by apply prefix_app_r|]. split; [split; [discriminate | done]|].
    split; [done|].
    intros _. split; [done|]. split; [by apply NoDup_lower_snoc|]. split.
    + intros c. rewrite elem_of_app, list_elem_of_singleton.
      split; [tauto|]. intros [?|[->| ?]]; tauto.
    + apply migrate_present; [done| |];
        rewrite elem_of_app, list_elem_of_singleton; tauto.
  - (* sender_name is there in another case *)
    assert (case_variant cols) as Hyes by (rewrite Hvar; tauto).
    split; [done|]. split; [done|]. split; [by left | done].
  - (* sender_name is added *)
    assert (~ case_variant cols) as Hno.
    { rewrite Hvar. intros [[_ ?] | [? _]]; done. }
    split; [by apply prefix_app_r|]. split; [split; [discriminate | done]|].
    split; [done|].
    intros _. split; [done|]. split; [by apply NoDup_lower_snoc|]. split.
    + intros c. rewrite elem_of_app, list_elem_of_singleton.
      split; [tauto|]. intros [?|[?| ->]]; tauto.
    + apply migrate_present; [done| |];
        rewrite elem_of_app, list_elem_of_singleton; tauto.
  - (* sender_name is added, sender_message is there in another case *)
    assert (case_variant cols) as Hyes by (rewrite Hvar; tauto).
    split; [destruct tx; [done | by apply prefix_app_r]|].
    split; [done|]. split; [|done].
    intros _. destruct tx; [by left | by right].
  - (* both columns are added *)
    assert (~ case_variant cols) as Hno by (rewrite Hvar; tauto).
    split; [by apply prefix_app_r|]. split; [split; [discriminate | done]|].
    split; [done|].
    intros _. split; [done|]. split.
    { change (cols ++ ["sender_name"; "sender_message"])
        with (cols ++ ["sender_name"] ++ ["sender_message"]).
      rewrite app_assoc. apply NoDup_lower_snoc; [by apply NoDup_lower_snoc|].
      rewrite fmap_app, elem_of_app. intros [?|Hin]; [done|].
      cbn in Hin. apply list_elem_of_singleton in Hin. discriminate. }
    split.
    + intros c. rewrite elem_of_app, !elem_of_cons, elem_of_nil. tauto.
    + apply migrate_present; [done| |]; rewrite elem_of_app, !elem_of_cons; tauto.
Qed.

Lemma migration_adds_each_column_once_witness :
  migrate sample.env false wishes_columns =
    (Return tt, wishes_columns ++ ["sender_name"; "sender_message"],
     ["Adding sender_name column...";
      "✓ Added sender_name column";
      "Adding sender_message column...";
      "✓ Added sender_message column";
      "✅ Migration completed successfully!"]) /\
  NoDup (migration.lower <$> (migrate sample.env false wishes_columns).1.2) /\
  migrate sample.env false (migrate sample.env false wishes_columns).1.2 =
    (Return tt, (migrate sample.env false wishes_columns).1.2,
     ["✓ sender_name column already exists";
      "✓ sender_message column already exists";
      "✅ Migration completed successfully!"]).
Proof.
  assert (wishes_columns <> []) as Hne by discriminate.
  assert (NoDup (migration.lower <$> wishes_columns)) as Hnd
    by (apply (bool_decide_unpack _); vm_compute; exact I).
  destruct (migration_adds_each_column_once sample.env false wishes_columns
              (fun _ => eq_refl) Hne Hnd)
    as (_ & Hraise & _ & Hgood).
  assert (~ case_variant wishes_columns) as Hno.
  { intros Hyes. apply Hraise in Hyes. vm_compute in Hyes. discriminate. }
  destruct (Hgood Hno) as (_ & Hdistinct & _ & Hagain).
  split; [vm_compute; reflexivity|].
  split; [exact Hdistinct | exact Hagain].
Defined.

(** The same script on a table that has [SENDER_NAME]: it raises, and the
    table is as it was. *)
Example migration_refuses_other_case :
  migrate sample.env false ["id"; "SENDER_NAME"] =
    (Raise OperationalError, ["id"; "SENDER_NAME"], ["Adding sender_name column..."]).
Proof. vm_compute. done. Qed.

(** ** The view limit seen through two properties *)

(** X23 (Wish.remaining_views, Wish.is_expired_by_views): the two properties
    of a wish agree on the view limit: remaining_views is never negative, it
    is 0 exactly when is_expired_by_views holds, and it is None exactly when
    the wish has no limit, in which case is_expired_by_views is False. *)
Theorem remaining_views_agrees_with_view_expiry (r : Wish) :
  (Wish.is_expired_by_views r = true <-> Wish.remaining_views r = Some 0) /\
  (forall n, Wish.remaining_views r = Some n ->
             0 <= n /\ (0 < n -> n = default 0 (max_views r) - current_views r)) /\
  (Wish.remaining_views r = None <-> max_views r = None) /\
  (max_views r = None -> Wish.is_expired_by_views r = false).
Proof.
  unfold Wish.is_expired_by_views, Wish.remaining_views.
  destruct (max_views r) as [m|]; cbn.
  - split; [|split; [|split; [split; intros; discriminate | intros; discriminate]]].
    + rewrite bool_decide_eq_true. split.
      * intros Hle. f_equal. lia.
      * intros [= Heq]. lia.
    + intros n [= <-]. lia.
  - split; [split; intros; discriminate|].
    split; [intros n; discriminate|]. done.
Qed.
